(** * Session and execution pipeline of the AI browser controller

    A shallow embedding of the server side of the repository:
    - [SecurityManager]: the rate limiter, the block list, the count of
      suspicious activities and the statistics
      (src/server/src/utils/SecurityManager.ts);
    - the [SocketController] handlers (src/server/src/types/index.ts):
      [handleConnection], [handleExecuteCommand], [validateCommandInput],
      [executeCommands], [updateBrowserState], [handleGetScreenshot],
      [handleResetBrowser], [handleDisconnection],
      [updateAverageExecutionTime] and the three periodic sweeps.
      [registerSocketEvents] and [shutdown] act through socket.io and are
      left out.

    The three [Map]s of the controller hold references to mutable objects.
    Every object carries the identifier it is stored under, and identifiers
    are fresh UUIDs, so each table is modelled as the set of its keys
    together with a store that gives the current contents of the object
    with that identifier.  A handler that keeps a reference to an object
    after its key was deleted still reads and writes the store.

    The payload of an [execute_command] event is what the client sent, not
    what the type of the parameter says: it may be missing, and its
    [userInput] may be no string.  The numbers that the source computes in
    floating point (the average execution time, the percentage of the
    progress) are binary64 values. *)

From stdpp Require Import gmap strings list fin_maps sorting.
From Stdlib Require Import ZArith Lia.
From Corelib Require PrimFloat FloatOps SpecFloat.

Open Scope Z_scope.

(* ===================================================================== *)
(** ** SecurityManager: request rate limiting                             *)
(* ===================================================================== *)

Module SecurityManager.

(** The static fields of the class. *)
Record t := mk {
  requestCount : gmap string Z;
  lastRequestTime : gmap string Z;
  blockedIPs : gset string;
  suspiciousActivities : gmap string Z
}.

Definition reset : t := mk ∅ ∅ ∅ ∅.

(** [map.get(k) || 0] on a map of numbers. *)
Definition getOr0 (m : gmap string Z) (k : string) : Z := default 0 (m !! k).

Definition blockIP (ip : string) (s : t) : t :=
  mk (requestCount s) (lastRequestTime s) ({[ip]} ∪ blockedIPs s)
     (suspiciousActivities s).

Definition addSuspiciousActivity (clientId : string) (s : t) : t :=
  let count := getOr0 (suspiciousActivities s) clientId in
  let s1 := mk (requestCount s) (lastRequestTime s) (blockedIPs s)
               (<[clientId := count + 1]> (suspiciousActivities s)) in
  if 10 <=? count then blockIP clientId s1 else s1.

(** [now] is the value of [Date.now()] at the call. *)
Definition checkRateLimit (clientId : string) (maxRequests windowMs now : Z)
    (s : t) : bool * t :=
  let lastRequest := getOr0 (lastRequestTime s) clientId in
  let count := getOr0 (requestCount s) clientId in
  if windowMs <? now - lastRequest then
    (true, mk (<[clientId := 1]> (requestCount s))
              (<[clientId := now]> (lastRequestTime s))
              (blockedIPs s) (suspiciousActivities s))
  else
    let s1 := mk (<[clientId := count + 1]> (requestCount s))
                 (<[clientId := now]> (lastRequestTime s))
                 (blockedIPs s) (suspiciousActivities s) in
    if maxRequests <=? count then (false, addSuspiciousActivity clientId s1)
    else (true, s1).

(** Successive calls of one client at the given times. *)
Fixpoint checkAll (clientId : string) (maxRequests windowMs : Z)
    (times : list Z) (s : t) : list bool * t :=
  match times with
  | [] => ([], s)
  | now :: rest =>
      let '(r, s1) := checkRateLimit clientId maxRequests windowMs now s in
      let '(rs, s2) := checkAll clientId maxRequests windowMs rest s1 in
      (r :: rs, s2)
  end.

(** Every call of [times] comes at most [windowMs] after the one before it,
    the first one after the call at [prev]. *)
Fixpoint gapsWithin (windowMs prev : Z) (times : list Z) : Prop :=
  match times with
  | [] => True
  | now :: rest => now - prev <= windowMs /\ gapsWithin windowMs now rest
  end.

(** What the code answers to the calls number [from], [from + 1], ... of a
    burst, the call that opened the burst being number 0. *)
Definition burstAnswers (maxRequests : Z) (from len : nat) : list bool :=
  map (fun j : nat => Z.of_nat j <? maxRequests) (seq from len).

(** The reading of the specification: the first [maxRequests] calls that
    come within the window of their predecessor are let through. *)
Definition statedAnswers (maxRequests : Z) (len : nat) : list bool :=
  map (fun j : nat => Z.of_nat j <=? maxRequests) (seq 1 len).

(** *** The block list and the statistics *)

Definition unblockIP (ip : string) (s : t) : t :=
  mk (requestCount s) (lastRequestTime s) (blockedIPs s ∖ {[ip]})
     (suspiciousActivities s).

Definition isIPBlocked (ip : string) (s : t) : bool :=
  bool_decide (ip ∈ blockedIPs s).

Definition getSuspiciousActivityCount (clientId : string) (s : t) : Z :=
  getOr0 (suspiciousActivities s) clientId.

Module SecurityStats.
Record t := mk {
  blockedIPs : nat;
  totalRequests : Z;
  suspiciousActivities : Z;
  rateLimitViolations : nat
}.
End SecurityStats.

(** [Array.from(map.values()).reduce((sum, count) => sum + count, 0)] *)
Definition sumOfCounts (m : gmap string Z) : Z :=
  map_fold (fun _ count sum => sum + count) 0 m.

Definition getSecurityStats (s : t) : SecurityStats.t :=
  SecurityStats.mk (size (blockedIPs s)) (sumOfCounts (requestCount s))
    (sumOfCounts (suspiciousActivities s))
    (size (filter (fun kv : string * Z => 100 <= kv.2) (requestCount s))).

(** The number of calls that were refused among the answers [rs]. *)
Definition refusals (rs : list bool) : Z :=
  Z.of_nat (length (List.filter negb rs)).

End SecurityManager.

(* ===================================================================== *)
(** ** Data model (src/server/src/types/index.ts)                         *)
(* ===================================================================== *)

Inductive Action :=
  navigate | click | type | screenshot | scroll | wait | extract | evaluate.

Definition actionName (a : Action) : string :=
  match a with
  | navigate => "navigate" | click => "click" | type => "type"
  | screenshot => "screenshot" | scroll => "scroll" | wait => "wait"
  | extract => "extract" | evaluate => "evaluate"
  end.

Module BrowserCommand.
Record t := mk {
  action : Action;
  selector : option string;
  value : option string;
  url : option string;
  timeout : option Z
}.
End BrowserCommand.

Module BrowserResponse.
Record t := mk {
  success : bool;
  data : option string;
  error : option string;
  screenshot : option string;
  executionTime : option Z
}.
End BrowserResponse.

(** The payload of an [execute_command] event.  socket.io hands the handler
    whatever the client sent: the TypeScript type of the parameter is not
    checked at run time.  [userInput] is [Some u] when the field holds the
    string [u] and [None] when it holds anything else ([undefined], a
    number, an object).  The event may also come without a payload at all:
    the handler takes an [option CommandData.t], [None] being [undefined]
    (or [null]). *)
Module CommandData.
Record t := mk { userInput : option string; context : option string }.
End CommandData.

Module AIParseRequest.
Record t := mk {
  userInput : string;
  currentScreenshot : option string;
  clientContext : option string;
  currentUrl : option string;
  pageTitle : option string
}.
End AIParseRequest.

Module AIParseResponse.
Record t := mk {
  success : bool;
  commands : option (list BrowserCommand.t);
  error : option string;
  explanation : option string
}.
End AIParseResponse.

Inductive ErrorCode :=
  | BROWSER_NOT_FOUND | BROWSER_INIT_FAILED | COMMAND_EXECUTION_FAILED
  | AI_PARSING_FAILED | INVALID_INPUT | TIMEOUT | PERMISSION_DENIED
  | SERVER_ERROR | NETWORK_ERROR | VALIDATION_ERROR.

Inductive BrowserStatus := initializing | ready | busy | error | closed.

Global Instance BrowserStatus_eq_dec : EqDecision BrowserStatus.
Proof. solve_decision. Defined.

Definition statusName (st : BrowserStatus) : string :=
  match st with
  | initializing => "initializing" | ready => "ready" | busy => "busy"
  | error => "error" | closed => "closed"
  end.

Inductive ExecutionStatus := pending | running | completed | failed | cancelled.

Global Instance ExecutionStatus_eq_dec : EqDecision ExecutionStatus.
Proof. solve_decision. Defined.

Module ErrorInfo.
Record t := mk { message : string; code : ErrorCode; timestamp : Z }.
End ErrorInfo.

Module BrowserInstanceState.
Record t := mk {
  id : string;
  socketId : string;
  status : BrowserStatus;
  currentUrl : option string;
  pageTitle : option string;
  createdAt : Z;
  lastActivity : Z;
  currentCommand : option BrowserCommand.t;
  error : option ErrorInfo.t
}.

Definition setStatus (st : BrowserStatus) (b : t) : t :=
  mk (id b) (socketId b) st (currentUrl b) (pageTitle b) (createdAt b)
     (lastActivity b) (currentCommand b) (error b).
Definition setCurrentCommand (c : option BrowserCommand.t) (b : t) : t :=
  mk (id b) (socketId b) (status b) (currentUrl b) (pageTitle b)
     (createdAt b) (lastActivity b) c (error b).
Definition setError (e : option ErrorInfo.t) (b : t) : t :=
  mk (id b) (socketId b) (status b) (currentUrl b) (pageTitle b)
     (createdAt b) (lastActivity b) (currentCommand b) e.
Definition setLastActivity (now : Z) (b : t) : t :=
  mk (id b) (socketId b) (status b) (currentUrl b) (pageTitle b)
     (createdAt b) now (currentCommand b) (error b).
Definition setPage (u ti : option string) (b : t) : t :=
  mk (id b) (socketId b) (status b) u ti (createdAt b) (lastActivity b)
     (currentCommand b) (error b).
End BrowserInstanceState.

Module ClientSession.
Record t := mk {
  id : string;
  socketId : string;
  clientIp : string;
  connectedAt : Z;
  lastActivity : Z;
  commandCount : Z
}.

(** [session.commandCount++; session.lastActivity = new Date()] *)
Definition commandDone (now : Z) (c : t) : t :=
  mk (id c) (socketId c) (clientIp c) (connectedAt c) now (commandCount c + 1).
End ClientSession.

Module ExecutionContext.
Record t := mk {
  id : string;
  sessionId : string;
  userInput : string;
  commands : list BrowserCommand.t;
  currentIndex : nat;
  startTime : Z;
  results : list BrowserResponse.t;
  status : ExecutionStatus
}.

Definition setStatus (st : ExecutionStatus) (e : t) : t :=
  mk (id e) (sessionId e) (userInput e) (commands e) (currentIndex e)
     (startTime e) (results e) st.
Definition setCurrentIndex (i : nat) (e : t) : t :=
  mk (id e) (sessionId e) (userInput e) (commands e) i
     (startTime e) (results e) (status e).
(** [execution.results.push(result)] *)
Definition pushResult (r : BrowserResponse.t) (e : t) : t :=
  mk (id e) (sessionId e) (userInput e) (commands e) (currentIndex e)
     (startTime e) (results e ++ [r]) (status e).
End ExecutionContext.

Module ConnectionStats.
Record t := mk {
  totalConnections : Z;
  activeConnections : Z;
  totalCommands : Z;
  failedCommands : Z;
  (* a JavaScript number (binary64) *)
  averageExecutionTime : PrimFloat.float
}.
End ConnectionStats.

(** Events the server sends to the client of a socket. *)
Inductive ServerEvent :=
  | command_progress (status : string) (progress : Z) (currentStep : string)
  | command_result (success : bool) (data : option (list BrowserResponse.t))
      (error : option string) (executionTime : Z)
  | error_event (message : string) (code : ErrorCode) (details : string)
  | screenshot_update (screenshot : string) (timestamp : Z)
  | browser_status (status : BrowserStatus).

(** A thrown value: an [Error] with its message, or anything else. *)
Inductive thrown := Error (message : string) | NonError.

(** [error instanceof Error ? error.message : fallback] *)
Definition messageOr (fallback : string) (e : thrown) : string :=
  match e with Error m => m | NonError => fallback end.

(** [s || fallback] for an optional string: [undefined] and the empty string
    are falsy. *)
Definition orElse (s : option string) (fallback : string) : string :=
  match s with
  | Some EmptyString | None => fallback
  | Some m => m
  end.

Module SecurityCheck.
Record t := mk { safe : bool; reasons : list string }.
End SecurityCheck.

Module RateLimitCheck.
Record t := mk { allowed : bool }.
End RateLimitCheck.

(** The calls the controller makes on its collaborators (browser service,
    AI service, security manager); [ext A] is a call whose promise resolves
    to an [A] or rejects. *)
Inductive ext : Type -> Type :=
  | checkRateLimit (clientIp : string) : ext RateLimitCheck.t
  | initializeBrowser : ext unit
  | checkSuspiciousContent (userInput : string) : ext SecurityCheck.t
  | takeScreenshot : ext string
  | parseCommand (request : AIParseRequest.t) : ext AIParseResponse.t
  | executeCommand (command : BrowserCommand.t) : ext BrowserResponse.t
  | getCurrentUrl : ext string
  | getPageTitle : ext string
  | resetBrowser : ext unit
  | cleanup : ext unit.

Inductive Service :=
  | SRateLimit | SInitialize | SSuspicious | SScreenshot | SParse | SExecute
  | SCurrentUrl | SPageTitle | SReset | SCleanup.

Global Instance Service_eq_dec : EqDecision Service.
Proof. solve_decision. Defined.

Definition serviceOf {A} (c : ext A) : Service :=
  match c with
  | checkRateLimit _ => SRateLimit
  | initializeBrowser => SInitialize
  | checkSuspiciousContent _ => SSuspicious
  | takeScreenshot => SScreenshot
  | parseCommand _ => SParse
  | executeCommand _ => SExecute
  | getCurrentUrl => SCurrentUrl
  | getPageTitle => SPageTitle
  | resetBrowser => SReset
  | cleanup => SCleanup
  end.

(** What an observer of the server sees, in order: an event sent to the
    client, a call started on a collaborator, and the promise of an awaited
    call settling with a value or a rejection. *)
Inductive Obs :=
  | OEmit (e : ServerEvent)
  | OCall {A : Type} (c : ext A)
  | OAnswer {A : Type} (c : ext A) (o : A + thrown).

(* ===================================================================== *)
(** ** Controller state                                                   *)
(* ===================================================================== *)

Module Controller.
Record t := mk {
  (* contents of every object allocated so far, by identifier *)
  sessionStore : gmap string ClientSession.t;
  browserStore : gmap string BrowserInstanceState.t;
  executionStore : gmap string ExecutionContext.t;
  (* keys of the three Maps of the class *)
  clientSessions : gset string;
  browserInstances : gset string;
  executionQueue : gset string;
  connectionStats : ConnectionStats.t;
  (* config.security.sessionTimeout *)
  sessionTimeout : Z;
  (* the wall clock read by Date.now() and new Date() *)
  clock : Z
}.

Definition init (timeout now : Z) : t :=
  mk ∅ ∅ ∅ ∅ ∅ ∅ (ConnectionStats.mk 0 0 0 0 PrimFloat.zero) timeout now.

(** [map.get(key)]: the object stored under [key], if the key is there. *)
Definition mapGet {T} (keys : gset string) (store : gmap string T)
    (key : string) : option T :=
  if decide (key ∈ keys) then store !! key else None.

Definition getSession (s : t) := mapGet (clientSessions s) (sessionStore s).
Definition getBrowser (s : t) := mapGet (browserInstances s) (browserStore s).
Definition getExecution (s : t) := mapGet (executionQueue s) (executionStore s).

Definition withSessions (st : gmap string ClientSession.t) (keys : gset string)
    (s : t) : t :=
  mk st (browserStore s) (executionStore s) keys (browserInstances s)
     (executionQueue s) (connectionStats s) (sessionTimeout s) (clock s).
Definition withBrowsers (st : gmap string BrowserInstanceState.t)
    (keys : gset string) (s : t) : t :=
  mk (sessionStore s) st (executionStore s) (clientSessions s) keys
     (executionQueue s) (connectionStats s) (sessionTimeout s) (clock s).
Definition withExecutions (st : gmap string ExecutionContext.t)
    (keys : gset string) (s : t) : t :=
  mk (sessionStore s) (browserStore s) st (clientSessions s)
     (browserInstances s) keys (connectionStats s) (sessionTimeout s)
     (clock s).
Definition withStats (cs : ConnectionStats.t) (s : t) : t :=
  mk (sessionStore s) (browserStore s) (executionStore s) (clientSessions s)
     (browserInstances s) (executionQueue s) cs (sessionTimeout s) (clock s).
Definition withClock (now : Z) (s : t) : t :=
  mk (sessionStore s) (browserStore s) (executionStore s) (clientSessions s)
     (browserInstances s) (executionQueue s) (connectionStats s)
     (sessionTimeout s) now.

(** Assignment to fields of an object reached through a reference. *)
Definition updSession (f : ClientSession.t -> ClientSession.t) (key : string)
    (s : t) : t :=
  withSessions (alter f key (sessionStore s)) (clientSessions s) s.
Definition updBrowser (f : BrowserInstanceState.t -> BrowserInstanceState.t)
    (key : string) (s : t) : t :=
  withBrowsers (alter f key (browserStore s)) (browserInstances s) s.
Definition updExecution (f : ExecutionContext.t -> ExecutionContext.t)
    (key : string) (s : t) : t :=
  withExecutions (alter f key (executionStore s)) (executionQueue s) s.

(** [map.set(key, object)] with a new object, and [map.delete(key)]. *)
Definition setSession (key : string) (c : ClientSession.t) (s : t) : t :=
  withSessions (<[key := c]> (sessionStore s)) ({[key]} ∪ clientSessions s) s.
Definition setBrowser (key : string) (b : BrowserInstanceState.t) (s : t) : t :=
  withBrowsers (<[key := b]> (browserStore s)) ({[key]} ∪ browserInstances s) s.
Definition setExecution (key : string) (e : ExecutionContext.t) (s : t) : t :=
  withExecutions (<[key := e]> (executionStore s)) ({[key]} ∪ executionQueue s) s.
Definition deleteSession (key : string) (s : t) : t :=
  withSessions (sessionStore s) (clientSessions s ∖ {[key]}) s.
Definition deleteBrowser (key : string) (s : t) : t :=
  withBrowsers (browserStore s) (browserInstances s ∖ {[key]}) s.
Definition deleteExecution (key : string) (s : t) : t :=
  withExecutions (executionStore s) (executionQueue s ∖ {[key]}) s.
End Controller.

(* ===================================================================== *)
(** ** Handlers as resumable processes                                    *)
(* ===================================================================== *)

(** An [async] method is a tree of instructions.  [Await] is the only place
    where the method gives the event loop back, so everything between two
    [Await]s runs without another handler in between.  [Detach] starts a call
    whose promise is not awaited (its rejection is caught and logged). *)
Inductive proc (R : Type) : Type :=
  | Ret (r : R)
  | Throw (e : thrown)
  | Get (k : Controller.t -> proc R)
  | Put (s : Controller.t) (k : proc R)
  | Emit (e : ServerEvent) (k : proc R)
  | Detach {A : Type} (c : ext A) (k : proc R)
  | Await {A : Type} (c : ext A) (k : A + thrown -> proc R).

Arguments Ret {R} r.
Arguments Throw {R} e.
Arguments Get {R} k.
Arguments Put {R} s k.
Arguments Emit {R} e k.
Arguments Detach {R A} c k.
Arguments Await {R A} c k.

Fixpoint bind {R S : Type} (p : proc R) (f : R -> proc S) : proc S :=
  match p with
  | Ret r => f r
  | Throw e => Throw e
  | Get k => Get (fun s => bind (k s) f)
  | Put s k => Put s (bind k f)
  | Emit e k => Emit e (bind k f)
  | Detach c k => Detach c (bind k f)
  | Await c k => Await c (fun o => bind (k o) f)
  end.

(** [try { p } catch (error) { h error }] *)
Fixpoint tryCatch {R : Type} (p : proc R) (h : thrown -> proc R) : proc R :=
  match p with
  | Ret r => Ret r
  | Throw e => h e
  | Get k => Get (fun s => tryCatch (k s) h)
  | Put s k => Put s (tryCatch k h)
  | Emit e k => Emit e (tryCatch k h)
  | Detach c k => Detach c (tryCatch k h)
  | Await c k => Await c (fun o => tryCatch (k o) h)
  end.

(** [try { p } finally { f }] *)
Fixpoint tryFinally {R : Type} (p : proc R) (f : proc unit) : proc R :=
  match p with
  | Ret r => bind f (fun _ => Ret r)
  | Throw e => bind f (fun _ => Throw e)
  | Get k => Get (fun s => tryFinally (k s) f)
  | Put s k => Put s (tryFinally k f)
  | Emit e k => Emit e (tryFinally k f)
  | Detach c k => Detach c (tryFinally k f)
  | Await c k => Await c (fun o => tryFinally (k o) f)
  end.

Declare Scope proc_scope.
Delimit Scope proc_scope with proc.
Bind Scope proc_scope with proc.
Notation "x <- p ;; q" := (bind p (fun x => q))
  (at level 100, p at next level, q at level 200, right associativity)
  : proc_scope.
Notation "p ;; q" := (bind p (fun _ => q))
  (at level 100, q at level 200, right associativity) : proc_scope.

Definition get : proc Controller.t := Get Ret.
Definition modify (f : Controller.t -> Controller.t) : proc unit :=
  Get (fun s => Put (f s) (Ret tt)).
Definition emit (e : ServerEvent) : proc unit := Emit e (Ret tt).
Definition detach {A} (c : ext A) : proc unit := Detach c (Ret tt).
Definition await {A} (c : ext A) : proc A :=
  Await c (fun o => match o with inl v => Ret v | inr e => Throw e end).
Definition throw {R} (message : string) : proc R := Throw (Error message).
Definition when (b : bool) (p : proc unit) : proc unit :=
  if b then p else Ret tt.

(* ===================================================================== *)
(** ** SocketController                                                   *)
(* ===================================================================== *)

Module SocketController.
Import Controller.
Local Open Scope proc_scope.

(** [Math.round(num / den)] for a positive [den]: halves go up. *)
Definition round (num den : Z) : Z := (2 * num + den) / (2 * den).

(** [Math.round(((i + 1) / n) * 80) + 20], in exact arithmetic. *)
Definition progressOf (i n : nat) : Z :=
  round ((Z.of_nat i + 1) * 80) (Z.of_nat n) + 20.

Definition incTotalConnections (s : t) : t :=
  let c := connectionStats s in
  withStats (ConnectionStats.mk (ConnectionStats.totalConnections c + 1)
    (ConnectionStats.activeConnections c + 1) (ConnectionStats.totalCommands c)
    (ConnectionStats.failedCommands c) (ConnectionStats.averageExecutionTime c)) s.
Definition decActiveConnections (s : t) : t :=
  let c := connectionStats s in
  withStats (ConnectionStats.mk (ConnectionStats.totalConnections c)
    (ConnectionStats.activeConnections c - 1) (ConnectionStats.totalCommands c)
    (ConnectionStats.failedCommands c) (ConnectionStats.averageExecutionTime c)) s.
Definition incTotalCommands (s : t) : t :=
  let c := connectionStats s in
  withStats (ConnectionStats.mk (ConnectionStats.totalConnections c)
    (ConnectionStats.activeConnections c) (ConnectionStats.totalCommands c + 1)
    (ConnectionStats.failedCommands c) (ConnectionStats.averageExecutionTime c)) s.
Definition incFailedCommands (s : t) : t :=
  let c := connectionStats s in
  withStats (ConnectionStats.mk (ConnectionStats.totalConnections c)
    (ConnectionStats.activeConnections c) (ConnectionStats.totalCommands c)
    (ConnectionStats.failedCommands c + 1) (ConnectionStats.averageExecutionTime c)) s.

(** An integer as a JavaScript number (exact for magnitudes below 2^53). *)
Fixpoint numberOfPos (p : positive) : PrimFloat.float :=
  match p with
  | xH => PrimFloat.one
  | xO q => PrimFloat.mul PrimFloat.two (numberOfPos q)
  | xI q => PrimFloat.add (PrimFloat.mul PrimFloat.two (numberOfPos q))
              PrimFloat.one
  end.

Definition numberOfZ (z : Z) : PrimFloat.float :=
  match z with
  | Z0 => PrimFloat.zero
  | Zpos p => numberOfPos p
  | Zneg p => PrimFloat.opp (numberOfPos p)
  end.

(** The average is a JavaScript number: the product, the sum and the
    quotient are those of binary64 arithmetic. *)
Definition updateAverageExecutionTime (executionTime : Z) (s : t) : t :=
  let c := connectionStats s in
  let total := numberOfZ (ConnectionStats.totalCommands c) in
  let totalTime :=
    PrimFloat.mul (ConnectionStats.averageExecutionTime c) total in
  withStats (ConnectionStats.mk (ConnectionStats.totalConnections c)
    (ConnectionStats.activeConnections c) (ConnectionStats.totalCommands c)
    (ConnectionStats.failedCommands c)
    (PrimFloat.div (PrimFloat.add totalTime (numberOfZ executionTime)) total)) s.

(** The average after each of the first two commands of a server, both
    taking [t] ms: [totalCommands++] and [updateAverageExecutionTime], as
    [handleExecuteCommand] does them. *)
Definition averagesOfTwo (t : Z) : PrimFloat.float * PrimFloat.float :=
  let s1 := updateAverageExecutionTime t (incTotalCommands (init 0 0)) in
  let s2 := updateAverageExecutionTime t (incTotalCommands s1) in
  (ConnectionStats.averageExecutionTime (connectionStats s1),
   ConnectionStats.averageExecutionTime (connectionStats s2)).

(** The first is [t], the second is [3 t / 2] and not [t] ([===] on
    numbers). *)
Definition halfTooMuch (t : Z) : bool :=
  PrimFloat.eqb (averagesOfTwo t).1 (numberOfZ t) &&
  PrimFloat.eqb (averagesOfTwo t).2
    (PrimFloat.div (numberOfZ (3 * t)) PrimFloat.two) &&
  negb (PrimFloat.eqb (averagesOfTwo t).2 (numberOfZ t)).

(** [z], [z + 1], ..., [n] numbers in all. *)
Fixpoint upFrom (z : Z) (n : nat) : list Z :=
  match n with O => [] | S k => z :: upFrom (z + 1) k end.

Definition initializeBrowserInstance (sessionId socketId : string) : proc unit :=
  s <- get ;;
  modify (setBrowser sessionId
    (BrowserInstanceState.mk sessionId socketId initializing None None
       (clock s) (clock s) None None)) ;;
  tryCatch
    (await initializeBrowser ;;
     modify (fun s => updBrowser (fun b =>
       BrowserInstanceState.setLastActivity (clock s)
         (BrowserInstanceState.setStatus ready b)) sessionId s))
    (fun err =>
       modify (fun s => updBrowser (fun b =>
         BrowserInstanceState.setError
           (Some (ErrorInfo.mk (messageOr "Browser initialization failed" err)
                    BROWSER_INIT_FAILED (clock s)))
           (BrowserInstanceState.setStatus error b)) sessionId s) ;;
       Throw err).

Definition handleConnection (sessionId socketId clientIp : string) : proc unit :=
  tryCatch
    (rateLimitCheck <- await (checkRateLimit clientIp) ;;
     if negb (RateLimitCheck.allowed rateLimitCheck) then
       emit (error_event "Too many connections. Please try again later."
               PERMISSION_DENIED "")
     else
       s <- get ;;
       modify (setSession sessionId
         (ClientSession.mk sessionId socketId clientIp (clock s) (clock s) 0)) ;;
       modify incTotalConnections ;;
       initializeBrowserInstance sessionId socketId ;;
       emit (browser_status ready))
    (fun err =>
       emit (error_event "Connection setup failed" SERVER_ERROR
               (messageOr "Unknown error" err))).

(** [s.length] of a JavaScript string: the number of its UTF-16 code units.
    A string of this development is the UTF-8 encoding of the text: a
    continuation byte (10xxxxxx) adds nothing, the first byte of a four-byte
    sequence (a character outside the basic plane, a surrogate pair in
    UTF-16) adds two, every other byte adds one. *)
Fixpoint utf16Length (s : string) : nat :=
  match s with
  | EmptyString => 0%nat
  | String a rest =>
      let b := Ascii.nat_of_ascii a in
      ((if (128 <=? b)%nat && (b <? 192)%nat then 0
        else if (240 <=? b)%nat then 2 else 1) + utf16Length rest)%nat
  end.

(** [userInput] is the value of [data.userInput]: [None] when it is not a
    string ([!userInput || typeof userInput !== 'string'] also refuses the
    empty string). *)
Definition validateCommandInput (userInput : option string)
    : proc (bool * option string) :=
  tryCatch
    (match userInput with
     | None | Some EmptyString => Ret (false, Some "Invalid input format")
     | Some text =>
         if 1000 <? Z.of_nat (utf16Length text) then
           Ret (false, Some "Input too long")
         else
           securityCheck <- await (checkSuspiciousContent text) ;;
           if negb (SecurityCheck.safe securityCheck) then
             Ret (false, Some ("Security check failed: " +:+
                    String.concat ", " (SecurityCheck.reasons securityCheck)))
           else Ret (true, None)
     end)
    (fun _ => Ret (false, Some "Validation error")).

Definition updateBrowserState (sessionId : string) : proc unit :=
  s <- get ;;
  match getBrowser s sessionId with
  | None => Ret tt
  | Some _ =>
      tryCatch
        (currentUrl <- await getCurrentUrl ;;
         pageTitle <- await getPageTitle ;;
         modify (fun s => updBrowser (fun b =>
           BrowserInstanceState.setLastActivity (clock s)
             (BrowserInstanceState.setPage (Some currentUrl) (Some pageTitle) b))
           sessionId s))
        (fun _ => Ret tt)
  end.

(** [['navigate', 'click', 'type'].includes(command.action)] *)
Definition takesScreenshot (a : Action) : bool :=
  match a with navigate | click | type => true | _ => false end.

(** The body of the [for] loop of [executeCommands], from index [i] on;
    [n] is [execution.commands.length] and [rest] the commands from [i]. *)
Fixpoint forCommands (sessionId executionId : string) (n i : nat)
    (rest : list BrowserCommand.t) : proc unit :=
  match rest with
  | [] => Ret tt
  | command :: rest' =>
      modify (updExecution (ExecutionContext.setCurrentIndex i) executionId) ;;
      emit (command_progress "executing" (progressOf i n)
              ("명령어 실행 중: " +:+ actionName (BrowserCommand.action command))) ;;
      result <- await (executeCommand command) ;;
      modify (updExecution (ExecutionContext.pushResult result) executionId) ;;
      (if negb (BrowserResponse.success result) then
         modify (updExecution (ExecutionContext.setStatus failed) executionId) ;;
         throw (orElse (BrowserResponse.error result) "Command execution failed")
       else Ret tt) ;;
      when (takesScreenshot (BrowserCommand.action command))
        (shot <- await takeScreenshot ;;
         s <- get ;;
         emit (screenshot_update shot (clock s))) ;;
      updateBrowserState sessionId ;;
      forCommands sessionId executionId n (S i) rest'
  end.

(** [execution.results], read through the reference. *)
Definition resultsOf (s : t) (executionId : string) : list BrowserResponse.t :=
  match executionStore s !! executionId with
  | Some e => ExecutionContext.results e
  | None => []
  end.

Definition executeCommands (sessionId : string) (execution : ExecutionContext.t)
    : proc unit :=
  let executionId := ExecutionContext.id execution in
  let commands := ExecutionContext.commands execution in
  s <- get ;;
  match getBrowser s sessionId with
  | None => throw "Browser instance not found"
  | Some _ =>
      modify (updBrowser (fun b =>
        BrowserInstanceState.setCurrentCommand
          (commands !! ExecutionContext.currentIndex execution)
          (BrowserInstanceState.setStatus busy b)) sessionId) ;;
      tryCatch
        (forCommands sessionId executionId (length commands) 0 commands ;;
         modify (updExecution (ExecutionContext.setStatus completed) executionId) ;;
         modify (updBrowser (fun b =>
           BrowserInstanceState.setCurrentCommand None
             (BrowserInstanceState.setStatus ready b)) sessionId) ;;
         emit (command_progress "completed" 100 "실행 완료") ;;
         s <- get ;;
         emit (command_result true (Some (resultsOf s executionId)) None
                 (clock s - ExecutionContext.startTime execution)))
        (fun err =>
           modify (updExecution (ExecutionContext.setStatus failed) executionId) ;;
           modify (fun s => updBrowser (fun b =>
             BrowserInstanceState.setError
               (Some (ErrorInfo.mk (messageOr "Command execution failed" err)
                        COMMAND_EXECUTION_FAILED (clock s)))
               (BrowserInstanceState.setStatus error b)) sessionId s) ;;
           Throw err)
  end.

(** What reading a property of [undefined] throws (the wording is the
    engine's; for [null] it names [null]). *)
Definition typeError : thrown :=
  Error "Cannot read properties of undefined (reading 'userInput')".

(** [data.userInput] *)
Definition readUserInput (data : option CommandData.t) : proc (option string) :=
  match data with
  | Some d => Ret (CommandData.userInput d)
  | None => Throw typeError
  end.

(** [data.userInput] where the validation has passed: then it is a string
    (the validation lets nothing else through), and this is the string. *)
Definition textOf (userInput : option string) : string := default "" userInput.

(** [executionId] is the value of [uuidv4()] at the start of the handler and
    [data] the payload of the event.  The [try] block reads [data.userInput]
    three times; the first read decides whether it throws.  The [catch]
    block reads it again, as an argument of the logger, before it sends the
    result. *)
Definition handleExecuteCommand (sessionId executionId : string)
    (data : option CommandData.t) : proc unit :=
  s0 <- get ;;
  let startTime := clock s0 in
  tryFinally
    (tryCatch
       (s <- get ;;
        match getSession s sessionId, getBrowser s sessionId with
        | Some _, Some browserState =>
            (if decide (BrowserInstanceState.status browserState = ready)
             then Ret tt
             else throw ("Browser not ready. Status: " +:+
                    statusName (BrowserInstanceState.status browserState))) ;;
            userInput <- readUserInput data ;;
            validationResult <- validateCommandInput userInput ;;
            (if validationResult.1 then Ret tt
             else throw (orElse validationResult.2 "Invalid input")) ;;
            emit (command_progress "parsing" 10 "AI 명령어 파싱 중...") ;;
            currentScreenshot <- await takeScreenshot ;;
            s <- get ;;
            let b := browserStore s !! sessionId in
            parseResult <- await (parseCommand
              (AIParseRequest.mk (textOf userInput) (Some currentScreenshot)
                 (data ≫= CommandData.context)
                 (b ≫= BrowserInstanceState.currentUrl)
                 (b ≫= BrowserInstanceState.pageTitle))) ;;
            match AIParseResponse.success parseResult,
                  AIParseResponse.commands parseResult with
            | true, Some commands =>
                s <- get ;;
                let execution :=
                  ExecutionContext.mk executionId sessionId (textOf userInput)
                    commands 0 (clock s) [] running in
                modify (setExecution executionId execution) ;;
                executeCommands sessionId execution ;;
                modify (fun s => updSession (ClientSession.commandDone (clock s))
                                   sessionId s) ;;
                modify incTotalCommands ;;
                modify (fun s => updateAverageExecutionTime (clock s - startTime) s)
            | _, _ =>
                throw (orElse (AIParseResponse.error parseResult)
                         "Command parsing failed")
            end
        | _, _ => throw "Session or browser instance not found"
        end)
       (fun err =>
          modify incFailedCommands ;;
          readUserInput data ;;
          s <- get ;;
          emit (command_result false None
                  (Some (messageOr "Command execution failed" err))
                  (clock s - startTime))))
    (modify (deleteExecution executionId)).

Definition handleGetScreenshot (sessionId : string) : proc unit :=
  tryCatch
    (s <- get ;;
     match getBrowser s sessionId with
     | Some browserState =>
         if decide (BrowserInstanceState.status browserState = ready) then
           shot <- await takeScreenshot ;;
           s <- get ;;
           emit (screenshot_update shot (clock s))
         else throw "Browser not ready"
     | None => throw "Browser not ready"
     end)
    (fun err =>
       emit (error_event "Screenshot capture failed" COMMAND_EXECUTION_FAILED
               (messageOr "Unknown error" err))).

Definition handleResetBrowser (sessionId : string) : proc unit :=
  tryCatch
    (s <- get ;;
     match getBrowser s sessionId with
     | None => throw "Browser instance not found"
     | Some _ =>
         modify (updBrowser (BrowserInstanceState.setStatus initializing)
                   sessionId) ;;
         emit (browser_status initializing) ;;
         await resetBrowser ;;
         modify (fun s => updBrowser (fun b =>
           BrowserInstanceState.setError None
             (BrowserInstanceState.setLastActivity (clock s)
                (BrowserInstanceState.setPage None None
                   (BrowserInstanceState.setStatus ready b)))) sessionId s) ;;
         emit (browser_status ready)
     end)
    (fun err =>
       emit (error_event "Browser reset failed" BROWSER_INIT_FAILED
               (messageOr "Unknown error" err))).

(** The loop over [executionQueue.entries()] of [handleDisconnection]. *)
Definition cancelExecution (sessionId : string) (s : t) (executionId : string)
    : t :=
  match getExecution s executionId with
  | Some execution =>
      if decide (ExecutionContext.sessionId execution = sessionId) then
        deleteExecution executionId
          (updExecution (ExecutionContext.setStatus cancelled) executionId s)
      else s
  | None => s
  end.

Definition cancelExecutions (sessionId : string) (s : t) : t :=
  foldl (cancelExecution sessionId) s (elements (executionQueue s)).

(** The execution stored under [executionId] belongs to [sessionId]. *)
Definition ownedBy (sessionId : string) (s : t) (executionId : string) : bool :=
  match executionStore s !! executionId with
  | Some execution =>
      bool_decide (ExecutionContext.sessionId execution = sessionId)
  | None => false
  end.

Definition handleDisconnection (sessionId reason : string) : proc unit :=
  tryCatch
    (s <- get ;;
     match getSession s sessionId with
     | Some _ =>
         modify (deleteSession sessionId) ;; modify decActiveConnections
     | None => Ret tt
     end ;;
     s <- get ;;
     match getBrowser s sessionId with
     | Some _ => modify (deleteBrowser sessionId) ;; detach cleanup
     | None => Ret tt
     end ;;
     modify (cancelExecutions sessionId))
    (fun _ => Ret tt).

(** [handleDisconnection] has no [await]: it is one step of the event loop,
    and this is the state it leaves. *)
Definition disconnected (sessionId : string) (s : t) : t :=
  let s1 := match getSession s sessionId with
            | Some _ => decActiveConnections (deleteSession sessionId s)
            | None => s
            end in
  let s2 := match getBrowser s1 sessionId with
            | Some _ => deleteBrowser sessionId s1
            | None => s1
            end in
  cancelExecutions sessionId s2.

Definition handleSocketError (sessionId : string) (err : string) : proc unit :=
  emit (error_event "Socket error occurred" NETWORK_ERROR err).

(** *** The periodic sweeps *)

Definition sweepSession (s : t) (sessionId : string) : t :=
  match getSession s sessionId with
  | Some session =>
      if sessionTimeout s <? clock s - ClientSession.lastActivity session
      then deleteSession sessionId s else s
  | None => s
  end.

Definition cleanupInactiveSessions (s : t) : t :=
  foldl sweepSession s (elements (clientSessions s)).

(** The session stored under [sessionId] has been idle for longer than the
    configured timeout. *)
Definition expired (s : t) (sessionId : string) : bool :=
  match sessionStore s !! sessionId with
  | Some session =>
      sessionTimeout s <? clock s - ClientSession.lastActivity session
  | None => false
  end.

Definition sweepBrowser (instanceId : string) : proc unit :=
  s <- get ;;
  match getBrowser s instanceId with
  | Some instance =>
      if 30 * 60 * 1000 <? clock s - BrowserInstanceState.lastActivity instance
      then modify (deleteBrowser instanceId) ;; detach cleanup
      else Ret tt
  | None => Ret tt
  end.

Definition cleanupOldBrowserInstances : proc unit :=
  s <- get ;;
  foldr (fun instanceId rest => sweepBrowser instanceId ;; rest) (Ret tt)
        (elements (browserInstances s)).

Definition sweepExecution (s : t) (executionId : string) : t :=
  match getExecution s executionId with
  | Some execution =>
      if 10 * 60 * 1000 <? clock s - ExecutionContext.startTime execution then
        deleteExecution executionId
          (updExecution (ExecutionContext.setStatus cancelled) executionId s)
      else s
  | None => s
  end.

Definition cleanupExecutionQueue (s : t) : t :=
  foldl sweepExecution s (elements (executionQueue s)).

(** The execution stored under [executionId] was started more than ten
    minutes ago. *)
Definition overdue (s : t) (executionId : string) : bool :=
  match executionStore s !! executionId with
  | Some execution =>
      10 * 60 * 1000 <? clock s - ExecutionContext.startTime execution
  | None => false
  end.

(** The instance stored under [instanceId] has not been active for more than
    thirty minutes. *)
Definition old (s : t) (instanceId : string) : bool :=
  match browserStore s !! instanceId with
  | Some instance =>
      30 * 60 * 1000 <? clock s - BrowserInstanceState.lastActivity instance
  | None => false
  end.

(** *** The percentage as JavaScript computes it *)

(** The natural number [n] as a JavaScript number (exact below 2^53). *)
Definition number (n : nat) : PrimFloat.float :=
  Nat.iter n (fun x => PrimFloat.add x PrimFloat.one) PrimFloat.zero.

(** [Math.round] on a finite number: the integer nearest to it, a half going
    up. *)
Definition mathRound (x : PrimFloat.float) : Z :=
  match FloatOps.Prim2SF x with
  | SpecFloat.S754_finite sign m e =>
      let v := if sign then Z.neg m else Z.pos m in
      if e <? 0 then (2 * v + 2 ^ (- e)) / (2 * 2 ^ (- e)) else v * 2 ^ e
  | _ => 0
  end.

(** [Math.round(((i + 1) / n) * 80) + 20] in binary64 arithmetic. *)
Definition progressNumber (i n : nat) : Z :=
  mathRound (PrimFloat.mul (PrimFloat.div (number (i + 1)) (number n))
               (number 80)) + 20.

(** [progressNumber] and [progressOf] agree on every index of a batch of [n]
    commands. *)
Definition agree (n : nat) : bool :=
  forallb (fun i => progressNumber i n =? progressOf i n) (seq 0 n).

End SocketController.

(* ===================================================================== *)
(** ** Running a handler                                                  *)
(* ===================================================================== *)

(** The collaborators: the answer to a call, given how many calls of the same
    service came before it. *)
Definition Env := forall A : Type, ext A -> nat -> A + thrown.

(** What the rest of the server (other handlers, timers, the clock) does to
    the controller while the handler waits at its [n]-th [Await]. *)
Definition Interference := nat -> Controller.t -> Controller.t.

Definition undisturbed : Interference := fun _ s => s.

Module World.
Record t := mk {
  ctrl : Controller.t;
  awaits : nat;
  calls : Service -> nat
}.

Definition start (s : Controller.t) : t := mk s 0 (fun _ => 0%nat).

Definition called {A} (c : ext A) (w : t) : t :=
  mk (ctrl w) (awaits w)
     (fun sv => if decide (sv = serviceOf c) then S (calls w sv) else calls w sv).
End World.

Module Run.
Record t (R : Type) := mk {
  world : World.t;
  obs : list Obs;
  result : R + thrown
}.
Arguments mk {R} world obs result.
Arguments world {R} t.
Arguments obs {R} t.
Arguments result {R} t.

Definition final {R} (x : t R) : Controller.t := World.ctrl (world x).
End Run.

Fixpoint run (env : Env) (intf : Interference) {R : Type} (p : proc R)
    (w : World.t) : Run.t R :=
  match p with
  | Ret r => Run.mk w [] (inl r)
  | Throw e => Run.mk w [] (inr e)
  | Get k => run env intf (k (World.ctrl w)) w
  | Put s k => run env intf k (World.mk s (World.awaits w) (World.calls w))
  | Emit e k =>
      let x := run env intf k w in
      Run.mk (Run.world x) (OEmit e :: Run.obs x) (Run.result x)
  | Detach c k =>
      let x := run env intf k (World.called c w) in
      Run.mk (Run.world x) (OCall c :: Run.obs x) (Run.result x)
  | Await c k =>
      let o := env _ c (World.calls w (serviceOf c)) in
      let w1 := World.mk (intf (World.awaits w) (World.ctrl w))
                  (S (World.awaits w)) (World.calls (World.called c w)) in
      let x := run env intf (k o) w1 in
      Run.mk (Run.world x) (OCall c :: OAnswer c o :: Run.obs x) (Run.result x)
  end.

(** The events sent to the client, and the commands handed to the browser. *)
Definition eventOf (o : Obs) : option ServerEvent :=
  match o with OEmit e => Some e | _ => None end.

Definition commandOf (o : Obs) : option BrowserCommand.t :=
  match o with
  | OCall c => match c with executeCommand cmd => Some cmd | _ => None end
  | _ => None
  end.

(** The answer of the browser to a command, when [o] is one. *)
Definition answerOf (o : Obs) : option (BrowserResponse.t + thrown) :=
  match o with
  | OAnswer c a =>
      match c in ext A return A + thrown -> option (BrowserResponse.t + thrown)
      with
      | executeCommand _ => fun a => Some a
      | _ => fun _ => None
      end a
  | _ => None
  end.

Definition events (tr : list Obs) : list ServerEvent := omap eventOf tr.
(** The command list of a successful answer of the translator. *)
Definition translationOf (o : Obs) : option (list BrowserCommand.t) :=
  match o with
  | OAnswer c a =>
      match c in ext A return A + thrown -> option (list BrowserCommand.t) with
      | parseCommand _ => fun a =>
          match a with
          | inl response =>
              if AIParseResponse.success response
              then AIParseResponse.commands response else None
          | inr _ => None
          end
      | _ => fun _ => None
      end a
  | _ => None
  end.

Definition executed (tr : list Obs) : list BrowserCommand.t := omap commandOf tr.
Definition translated (tr : list Obs) : list (list BrowserCommand.t) :=
  omap translationOf tr.
Definition answers (tr : list Obs) : list (BrowserResponse.t + thrown) :=
  omap answerOf tr.

Definition isResult (e : ServerEvent) : bool :=
  match e with command_result _ _ _ _ => true | _ => false end.

Definition progressValue (e : ServerEvent) : option Z :=
  match e with command_progress _ p _ => Some p | _ => None end.

(** The percentages of the progress events, in the order they were sent. *)
Definition percentages (tr : list Obs) : list Z := omap progressValue (events tr).

(** For each command handed to the browser, what was observed right before
    the call ([prev] before the first observation of [tr]). *)
Fixpoint preceding (prev : option Obs) (tr : list Obs) : list (option Obs) :=
  match tr with
  | [] => []
  | o :: tr' =>
      match commandOf o with
      | Some _ => prev :: preceding (Some o) tr'
      | None => preceding (Some o) tr'
      end
  end.

(** The first percentage reported in [tr], if any. *)
Definition nextPercentage (tr : list Obs) : option Z := head (percentages tr).

(** For each answer of the browser to a command, the percentage of the first
    progress event sent after it. *)
Fixpoint reportedAfter (tr : list Obs) : list (option Z) :=
  match tr with
  | [] => []
  | o :: tr' =>
      match answerOf o with
      | Some _ => nextPercentage tr' :: reportedAfter tr'
      | None => reportedAfter tr'
      end
  end.

(** [Q] holds of what the handler does and how it ends on every path
    through [p]: whatever state it reads at each step and whatever its
    collaborators answer. *)
Fixpoint allPaths {R : Type} (p : proc R) (Q : list Obs -> R + thrown -> Prop)
    : Prop :=
  match p with
  | Ret r => Q [] (inl r)
  | Throw e => Q [] (inr e)
  | Get k => forall s, allPaths (k s) Q
  | Put _ k => allPaths k Q
  | Emit e k => allPaths k (fun tr => Q (OEmit e :: tr))
  | Detach c k => allPaths k (fun tr => Q (OCall c :: tr))
  | Await c k =>
      forall o, allPaths (k o) (fun tr => Q (OCall c :: OAnswer c o :: tr))
  end.

(** The events that may come before the result of a request. *)
Definition isNotice (e : ServerEvent) : bool :=
  match e with
  | command_progress _ _ _ | screenshot_update _ _ => true
  | _ => false
  end.

(* ===================================================================== *)
(** ** The shape of what a request does                                   *)
(* ===================================================================== *)

Module Shape.

Definition executingEvent (i n : nat) (c : BrowserCommand.t) : Obs :=
  OEmit (command_progress "executing" (SocketController.progressOf i n)
           ("명령어 실행 중: " +:+ actionName (BrowserCommand.action c))).

Definition parsingEvent : Obs :=
  OEmit (command_progress "parsing" 10 "AI 명령어 파싱 중...").

Definition completedEvent : Obs :=
  OEmit (command_progress "completed" 100 "실행 완료").

(** A call other than a command to the browser, or its answer. *)
Definition silent (o : Obs) : bool :=
  match o with
  | OEmit _ => false
  | OCall c => negb (bool_decide (serviceOf c = SExecute))
  | OAnswer c _ => negb (bool_decide (serviceOf c = SExecute))
  end.

(** A screenshot sent to the client, or a call that is neither a command to
    the browser nor a translation, or its answer. *)
Definition idle (o : Obs) : bool :=
  match o with
  | OEmit (screenshot_update _ _) => true
  | OEmit _ => false
  | OCall c =>
      negb (bool_decide (serviceOf c = SExecute)) &&
      negb (bool_decide (serviceOf c = SParse))
  | OAnswer c _ =>
      negb (bool_decide (serviceOf c = SExecute)) &&
      negb (bool_decide (serviceOf c = SParse))
  end.

(** Iterations of the loop of [executeCommands] that ran to their end, from
    index [i] on, over the commands given. *)
Inductive iterations (n : nat) : nat -> list BrowserCommand.t -> list Obs -> Prop :=
  | iterations_nil i : iterations n i [] []
  | iterations_cons i c r cs noise tr :
      BrowserResponse.success r = true ->
      forallb idle noise = true ->
      iterations n (S i) cs tr ->
      iterations n i (c :: cs)
        (executingEvent i n c :: OCall (executeCommand c) ::
         OAnswer (executeCommand c) (inl r) :: noise ++ tr).

(** The iteration in which the loop is left by a throw. *)
Inductive stopped (n i : nat) (c : BrowserCommand.t) : list Obs -> thrown -> Prop :=
  | stopped_failure r :
      BrowserResponse.success r = false ->
      stopped n i c
        [executingEvent i n c; OCall (executeCommand c);
         OAnswer (executeCommand c) (inl r)]
        (Error (orElse (BrowserResponse.error r) "Command execution failed"))
  | stopped_rejected e :
      stopped n i c
        [executingEvent i n c; OCall (executeCommand c);
         OAnswer (executeCommand c) (inr e)] e
  | stopped_screenshot r e :
      BrowserResponse.success r = true ->
      SocketController.takesScreenshot (BrowserCommand.action c) = true ->
      stopped n i c
        [executingEvent i n c; OCall (executeCommand c);
         OAnswer (executeCommand c) (inl r);
         OCall takeScreenshot; OAnswer takeScreenshot (inr e)] e.

(** A pass through the loop over [rest], from index [i] on. *)
Inductive looped (n i : nat) (rest : list BrowserCommand.t)
    : list Obs -> unit + thrown -> Prop :=
  | looped_all tr :
      iterations n i rest tr -> looped n i rest tr (inl tt)
  | looped_stop done c rest' tr last e :
      rest = done ++ c :: rest' ->
      iterations n i done tr ->
      stopped n (i + length done) c last e ->
      looped n i rest (tr ++ last) (inr e).

Definition failure (message : string) (t : Z) : Obs :=
  OEmit (command_result false None (Some message) t).

(** The browser answered, and with [success: true]. *)
Definition succeeded (a : BrowserResponse.t + thrown) : Prop :=
  match a with inl r => BrowserResponse.success r = true | inr _ => False end.

(** What is observed right before each command of [cs] is handed to the
    browser, [cs] being the commands from index [i] on of a batch of [n]. *)
Definition announcements (n i : nat) (cs : list BrowserCommand.t)
    : list (option Obs) :=
  imap (fun j c => Some (executingEvent (i + j) n c)) cs.

(** The percentages of a batch of [n] commands that runs to its end. *)
Definition scale (n : nat) : list Z :=
  10 :: map (fun i => SocketController.progressOf i n) (seq 0 n) ++ [100].

(** The number of commands the translator returned (0 when it was not
    reached or had no success). *)
Definition batchSize (tr : list Obs) : nat :=
  match translated tr with
  | [commands] => length commands
  | _ => 0%nat
  end.

(** The request ended with [command_result { success: true }]. *)
Definition completedOk (tr : list Obs) : bool :=
  match last (events tr) with
  | Some (command_result true _ _ _) => true
  | _ => false
  end.

(** The [try] block of [handleExecuteCommand]: how far it got when it
    returned or threw. *)
Definition attempted (tr : list Obs) (r : unit + thrown) : Prop :=
  match r with
  | inl _ =>
      exists calls calls' commands loop results t,
        forallb idle calls = true /\ forallb silent calls' = true /\
        translated calls' = [commands] /\
        iterations (length commands) 0 commands loop /\
        tr = calls ++ parsingEvent :: calls' ++ loop ++
             [completedEvent; OEmit (command_result true (Some results) None t)]
  | inr e =>
      forallb idle tr = true \/
      (exists calls calls',
         forallb idle calls = true /\ forallb silent calls' = true /\
         tr = calls ++ parsingEvent :: calls') \/
      (exists calls calls' commands loop,
         forallb idle calls = true /\ forallb silent calls' = true /\
         translated calls' = [commands] /\
         looped (length commands) 0 commands loop (inr e) /\
         tr = calls ++ parsingEvent :: calls' ++ loop)
  end.

(** A whole request: refused before parsing; given up between the parsing
    notice and the loop; stopped in the loop; or completed. *)
Inductive handled : list Obs -> Prop :=
  | handled_refused tr calls message t :
      forallb idle calls = true ->
      tr = calls ++ [failure message t] ->
      handled tr
  | handled_unparsed tr calls calls' message t :
      forallb idle calls = true ->
      forallb silent calls' = true ->
      tr = calls ++ parsingEvent :: calls' ++ [failure message t] ->
      handled tr
  | handled_stopped tr calls calls' commands loop e t :
      forallb idle calls = true ->
      forallb silent calls' = true ->
      translated calls' = [commands] ->
      looped (length commands) 0 commands loop (inr e) ->
      tr = calls ++ parsingEvent :: calls' ++ loop ++
           [failure (messageOr "Command execution failed" e) t] ->
      handled tr
  | handled_completed tr calls calls' commands loop results t :
      forallb idle calls = true ->
      forallb silent calls' = true ->
      translated calls' = [commands] ->
      iterations (length commands) 0 commands loop ->
      tr = calls ++ parsingEvent :: calls' ++ loop ++
           [completedEvent; OEmit (command_result true (Some results) None t)] ->
      handled tr.

End Shape.

(* ===================================================================== *)
(** ** The event loop                                                     *)
(* ===================================================================== *)

(** A handler runs until it finishes or until its next [Await]. *)
Inductive Status (R : Type) : Type :=
  | Finished (r : R + thrown)
  | Blocked {A : Type} (c : ext A) (k : A + thrown -> proc R).
Arguments Finished {R} r.
Arguments Blocked {R A} c k.

Fixpoint advance {R : Type} (p : proc R) (s : Controller.t)
    : Controller.t * list Obs * Status R :=
  match p with
  | Ret r => (s, [], Finished (inl r))
  | Throw e => (s, [], Finished (inr e))
  | Get k => advance (k s) s
  | Put s' k => advance k s'
  | Emit e k => let '(s1, tr, st) := advance k s in (s1, OEmit e :: tr, st)
  | Detach c k => let '(s1, tr, st) := advance k s in (s1, OCall c :: tr, st)
  | Await c k => (s, [OCall c], Blocked c k)
  end.

Module System.

(** What the event loop takes up next: a message of a client, one of the
    three timers, the passing of time, or the settling of the promise that
    the [task]-th suspended handler waits for. *)
Inductive Input :=
  | connection (sessionId socketId clientIp : string)
  | execute_command (sessionId executionId : string)
      (data : option CommandData.t)
  | get_screenshot (sessionId : string)
  | reset_browser (sessionId : string)
  | disconnect (sessionId reason : string)
  | sessionTimer
  | browserTimer
  | executionTimer
  | tick (ms : Z)
  | settle (task : nat) (answer : forall A : Type, ext A -> A + thrown).

Record t := mk {
  ctrl : Controller.t;
  log : list (string * Obs);
  tasks : list (string * Status unit)
}.

Definition start (s : Controller.t) : t := mk s [] [].

Definition spawn (owner : string) (p : proc unit) (sys : t) : t :=
  let '(s1, tr, st) := advance p (ctrl sys) in
  mk s1 (log sys ++ map (pair owner) tr) (tasks sys ++ [(owner, st)]).

Definition step (sys : t) (i : Input) : option t :=
  match i with
  | connection sessionId socketId clientIp =>
      Some (spawn sessionId
              (SocketController.handleConnection sessionId socketId clientIp) sys)
  | execute_command sessionId executionId data =>
      Some (spawn sessionId
              (SocketController.handleExecuteCommand sessionId executionId data)
              sys)
  | get_screenshot sessionId =>
      Some (spawn sessionId (SocketController.handleGetScreenshot sessionId) sys)
  | reset_browser sessionId =>
      Some (spawn sessionId (SocketController.handleResetBrowser sessionId) sys)
  | disconnect sessionId reason =>
      Some (spawn sessionId
              (SocketController.handleDisconnection sessionId reason) sys)
  | sessionTimer =>
      Some (mk (SocketController.cleanupInactiveSessions (ctrl sys)) (log sys)
               (tasks sys))
  | browserTimer =>
      Some (spawn "" SocketController.cleanupOldBrowserInstances sys)
  | executionTimer =>
      Some (mk (SocketController.cleanupExecutionQueue (ctrl sys)) (log sys)
               (tasks sys))
  | tick ms =>
      Some (mk (Controller.withClock (Controller.clock (ctrl sys) + ms) (ctrl sys))
               (log sys) (tasks sys))
  | settle task answer =>
      match tasks sys !! task with
      | Some (owner, Blocked c k) =>
          let '(s1, tr, st) := advance (k (answer _ c)) (ctrl sys) in
          Some (mk s1 (log sys ++ map (pair owner) (OAnswer c (answer _ c) :: tr))
                   (<[task := (owner, st)]> (tasks sys)))
      | _ => None
      end
  end.

Fixpoint exec (sys : t) (inputs : list Input) : option t :=
  match inputs with
  | [] => Some sys
  | i :: rest =>
      match step sys i with
      | Some sys' => exec sys' rest
      | None => None
      end
  end.

(** The executions of a session that are in the queue with status
    [running]. *)
Definition runningFor (sessionId : string) (s : Controller.t) : list string :=
  List.filter
    (fun executionId =>
       match Controller.getExecution s executionId with
       | Some e =>
           bool_decide (ExecutionContext.sessionId e = sessionId) &&
           bool_decide (ExecutionContext.status e = running)
       | None => false
       end)
    (elements (Controller.executionQueue s)).

End System.

(* ===================================================================== *)
(** ** A handler that runs alone                                          *)
(* ===================================================================== *)

(** [Q] holds of the state the handler leaves, of what it did and of how it
    ended, when it starts in [s] and nothing else touches the controller in
    between: whatever its collaborators answer. *)
Fixpoint alone {R : Type} (p : proc R) (s : Controller.t)
    (Q : Controller.t -> list Obs -> R + thrown -> Prop) : Prop :=
  match p with
  | Ret r => Q s [] (inl r)
  | Throw e => Q s [] (inr e)
  | Get k => alone (k s) s Q
  | Put s' k => alone k s' Q
  | Emit e k => alone k s (fun s' tr => Q s' (OEmit e :: tr))
  | Detach c k => alone k s (fun s' tr => Q s' (OCall c :: tr))
  | Await c k =>
      forall o, alone (k o) s (fun s' tr => Q s' (OCall c :: OAnswer c o :: tr))
  end.

(** The responses among the answers of the browser, in order. *)
Definition responseOf (a : BrowserResponse.t + thrown)
    : option BrowserResponse.t :=
  match a with inl r => Some r | inr _ => None end.

Definition responses (tr : list Obs) : list BrowserResponse.t :=
  omap responseOf (answers tr).

Module Effect.
Import Controller.

(** [updateBrowserState] has run: the address and the title of the page were
    both stored, with the time, or nothing was. *)
Definition refreshedPage (sessionId : string) (s s' : t) : Prop :=
  s' = s \/
  exists url title,
    s' = updBrowser (fun b =>
           BrowserInstanceState.setLastActivity (clock s)
             (BrowserInstanceState.setPage (Some url) (Some title) b))
           sessionId s.

(** Between [s] and [s'] only the objects stored under [sessionId] (browser
    instance) and [executionId] (execution) may have changed, the one as
    [Rb] and the other as [Re] allow. *)
Definition evolves (Rb : relation BrowserInstanceState.t)
    (Re : relation ExecutionContext.t) (sessionId executionId : string)
    (s s' : t) : Prop :=
  sessionStore s' = sessionStore s /\
  clientSessions s' = clientSessions s /\
  browserInstances s' = browserInstances s /\
  executionQueue s' = executionQueue s /\
  connectionStats s' = connectionStats s /\
  sessionTimeout s' = sessionTimeout s /\
  clock s' = clock s /\
  (forall k, k <> sessionId -> browserStore s' !! k = browserStore s !! k) /\
  option_Forall2 Rb (browserStore s !! sessionId) (browserStore s' !! sessionId) /\
  (forall k, k <> executionId -> executionStore s' !! k = executionStore s !! k) /\
  option_Forall2 Re (executionStore s !! executionId)
    (executionStore s' !! executionId).

(** The instance differs at most in its page and its time of last
    activity. *)
Definition samePage (b b' : BrowserInstanceState.t) : Prop :=
  BrowserInstanceState.id b' = BrowserInstanceState.id b /\
  BrowserInstanceState.socketId b' = BrowserInstanceState.socketId b /\
  BrowserInstanceState.status b' = BrowserInstanceState.status b /\
  BrowserInstanceState.createdAt b' = BrowserInstanceState.createdAt b /\
  BrowserInstanceState.currentCommand b' = BrowserInstanceState.currentCommand b /\
  BrowserInstanceState.error b' = BrowserInstanceState.error b.

(** The execution has received the results [rs], in this order. *)
Definition grown (rs : list BrowserResponse.t) (e e' : ExecutionContext.t)
    : Prop :=
  ExecutionContext.id e' = ExecutionContext.id e /\
  ExecutionContext.sessionId e' = ExecutionContext.sessionId e /\
  ExecutionContext.userInput e' = ExecutionContext.userInput e /\
  ExecutionContext.commands e' = ExecutionContext.commands e /\
  ExecutionContext.startTime e' = ExecutionContext.startTime e /\
  ExecutionContext.results e' = ExecutionContext.results e ++ rs.

End Effect.

(** A request served from start to end with nothing else touching the
    controller in between. *)
Definition served (env : Env) (sessionId executionId : string)
    (data : option CommandData.t) (s : Controller.t) : Run.t unit :=
  run env undisturbed
    (SocketController.handleExecuteCommand sessionId executionId data)
    (World.start s).

(* ===================================================================== *)
(** ** Scenarios                                                          *)
(* ===================================================================== *)

Module Scenario.

Definition command (a : Action) : BrowserCommand.t :=
  BrowserCommand.mk a None None None None.

(** The payload [{ userInput }] with a text and no context. *)
Definition saying (userInput : string) : option CommandData.t :=
  Some (CommandData.mk (Some userInput) None).

Definition done : BrowserResponse.t :=
  BrowserResponse.mk true (Some "done") None None (Some 100).

Definition notFound : BrowserResponse.t :=
  BrowserResponse.mk false None (Some "Element not found") None (Some 5).

(** Collaborators that always succeed, except that the translator returns
    [commands] and the browser answers its [k]-th command (from 0) with
    [responses k]. *)
Definition scripted (commands : list BrowserCommand.t)
    (responses : nat -> BrowserResponse.t + thrown) : Env :=
  fun A c k =>
    match c in ext A return A + thrown with
    | checkRateLimit _ => inl (RateLimitCheck.mk true)
    | initializeBrowser => inl tt
    | checkSuspiciousContent _ => inl (SecurityCheck.mk true [])
    | takeScreenshot => inl "png"
    | parseCommand _ =>
        inl (AIParseResponse.mk true (Some commands) None None)
    | executeCommand _ => responses k
    | getCurrentUrl => inl "https://example.com"
    | getPageTitle => inl "Example"
    | resetBrowser => inl tt
    | cleanup => inl tt
    end.

Definition allDone : nat -> BrowserResponse.t + thrown := fun _ => inl done.

(** The second command fails. *)
Definition secondFails : nat -> BrowserResponse.t + thrown :=
  fun k => if decide (k = 1%nat) then inl notFound else inl done.

(** One client connected at time 1000, session timeout of 30 minutes. *)
Definition connected : Controller.t :=
  Run.final
    (run (scripted [] allDone) undisturbed
       (SocketController.handleConnection "s1" "sock1" "10.0.0.1")
       (World.start (Controller.init 1800000 1000))).

(** "go to example.com and click login", both commands succeeding. *)
Definition loginRun : Run.t unit :=
  run (scripted [command navigate; command click] allDone) undisturbed
    (SocketController.handleExecuteCommand "s1" "e1"
       (saying "go to example.com and click login"))
    (World.start connected).

(** [navigate, click, type] where [click] fails. *)
Definition clickFailsRun : Run.t unit :=
  run (scripted [command navigate; command click; command type] secondFails)
    undisturbed
    (SocketController.handleExecuteCommand "s1" "e1"
       (saying "open the page, click and type"))
    (World.start connected).

(** Every promise settles well: the answers of [scripted commands allDone]. *)
Definition settled (commands : list BrowserCommand.t)
    : forall A : Type, ext A -> A + thrown :=
  fun A c => scripted commands allDone A c 0%nat.

(** A browser that fails whatever it is asked: a command is answered with
    [notFound], every other call is rejected. *)
Definition broken : forall A : Type, ext A -> A + thrown :=
  fun A c =>
    match c in ext A return A + thrown with
    | executeCommand _ => inl notFound
    | _ => inr (Error "Target closed")
    end.

(** The client is connected and its request has reached the browser: the
    handler waits for the answer to [navigate]. *)
Definition inFlight : System.t :=
  default (System.start connected)
    (System.exec (System.start connected)
       [System.execute_command "s1" "e1" (saying "go to example.com");
        System.settle 0 (settled [command navigate]);
        System.settle 0 (settled [command navigate]);
        System.settle 0 (settled [command navigate])]).

(** Two requests of one client: the second arrives while the first waits
    for the screenshot that precedes the translation. *)
Definition overlapping : option System.t :=
  System.exec (System.start connected)
    [System.execute_command "s1" "e1" (saying "first request");
     System.settle 0 (settled [command navigate]);
     System.execute_command "s1" "e2" (saying "second request");
     System.settle 1 (settled [command navigate]);
     System.settle 0 (settled [command navigate]);
     System.settle 0 (settled [command navigate]);
     System.settle 1 (settled [command navigate]);
     System.settle 1 (settled [command navigate])].

(** A reset requested while the command of [inFlight] is with the browser. *)
Definition resetInFlight : option System.t :=
  System.exec inFlight
    [System.reset_browser "s1"; System.settle 1 (settled [])].

(** ... and a second request after that reset. *)
Definition requestAfterReset : option System.t :=
  System.exec inFlight
    [System.reset_browser "s1"; System.settle 1 (settled []);
     System.execute_command "s1" "e2" (saying "second request");
     System.settle 2 (settled [command navigate]);
     System.settle 2 (settled [command navigate]);
     System.settle 2 (settled [command navigate])].

(** Thirty minutes and one millisecond after the connection, nothing having
    happened since. *)
Definition idleSince : Controller.t :=
  Controller.withClock (Controller.clock connected + 1800001) connected.

(** The per-command results an event carries. *)
Definition dataOf (e : ServerEvent) : option (list BrowserResponse.t) :=
  match e with
  | command_result _ data _ _ => data
  | _ => None
  end.

(** Collaborators as in [scripted [] allDone], except that the rate limiter
    lets nobody in. *)
Definition refusing : Env :=
  fun A c k =>
    match c in ext A return A + thrown with
    | checkRateLimit _ => inl (RateLimitCheck.mk false)
    | c' => scripted [] allDone _ c' k
    end.

(** ... and collaborators whose browser cannot be started. *)
Definition noBrowser : Env :=
  fun A c k =>
    match c in ext A return A + thrown with
    | initializeBrowser => inr (Error "Chrome not found")
    | takeScreenshot => inr (Error "No page")
    | c' => scripted [] allDone _ c' k
    end.

End Scenario.

Module SecurityManagerFacts.
Import SecurityManager.

Lemma getOr0_insert_eq (m : gmap string Z) k v : getOr0 (<[k := v]> m) k = v.
Proof. unfold getOr0. by rewrite lookup_insert_eq. Qed.

Lemma getOr0_insert_ne (m : gmap string Z) k k' v :
  k ≠ k' -> getOr0 (<[k := v]> m) k' = getOr0 m k'.
Proof. intros. unfold getOr0. by rewrite lookup_insert_ne. Qed.

Lemma addSuspiciousActivity_counts c s :
  requestCount (addSuspiciousActivity c s) = requestCount s /\
  lastRequestTime (addSuspiciousActivity c s) = lastRequestTime s.
Proof. unfold addSuspiciousActivity, blockIP. by case_match. Qed.

(** One call of [c] leaves the two counters of every other client alone. *)
Lemma checkRateLimit_other c c' m w now s :
  c ≠ c' ->
  let s' := (checkRateLimit c m w now s).2 in
  getOr0 (requestCount s') c' = getOr0 (requestCount s) c' /\
  getOr0 (lastRequestTime s') c' = getOr0 (lastRequestTime s) c'.
Proof.
  intros Hne. unfold checkRateLimit.
  repeat case_match; simpl;
    rewrite ?(proj1 (addSuspiciousActivity_counts _ _)),
            ?(proj2 (addSuspiciousActivity_counts _ _)); simpl;
    by rewrite !getOr0_insert_ne.
Qed.

(** The answer depends on the caller's own two counters only. *)
Lemma checkRateLimit_answer c m w now s s' :
  getOr0 (requestCount s) c = getOr0 (requestCount s') c ->
  getOr0 (lastRequestTime s) c = getOr0 (lastRequestTime s') c ->
  (checkRateLimit c m w now s).1 = (checkRateLimit c m w now s').1.
Proof.
  intros Hc Hl. unfold checkRateLimit. rewrite Hc, Hl.
  by repeat case_match.
Qed.

(** A call inside the window: the count goes up by one, the answer compares
    the old count with the limit. *)
Lemma checkRateLimit_within c m w now s :
  now - getOr0 (lastRequestTime s) c <= w ->
  let r := checkRateLimit c m w now s in
  r.1 = (getOr0 (requestCount s) c <? m) /\
  getOr0 (requestCount r.2) c = getOr0 (requestCount s) c + 1 /\
  getOr0 (lastRequestTime r.2) c = now.
Proof.
  intros Hgap. unfold checkRateLimit.
  destruct (Z.ltb_spec w (now - getOr0 (lastRequestTime s) c)); [lia |].
  destruct (Z.leb_spec m (getOr0 (requestCount s) c)); simpl;
    rewrite ?(proj1 (addSuspiciousActivity_counts _ _)),
            ?(proj2 (addSuspiciousActivity_counts _ _)); simpl;
    rewrite !getOr0_insert_eq;
    (split; [symmetry; by (apply Z.ltb_ge || apply Z.ltb_lt) | done]).
Qed.

(** A call after the window has passed. *)
Lemma checkRateLimit_reset c m w now s :
  w < now - getOr0 (lastRequestTime s) c ->
  let r := checkRateLimit c m w now s in
  r.1 = true /\ getOr0 (requestCount r.2) c = 1 /\
  getOr0 (lastRequestTime r.2) c = now.
Proof.
  intros Hgap. unfold checkRateLimit.
  destruct (Z.ltb_spec w (now - getOr0 (lastRequestTime s) c)); [| lia].
  simpl. by rewrite !getOr0_insert_eq.
Qed.

Lemma checkAll_within c m w : forall times s (n : nat),
  getOr0 (requestCount s) c = Z.of_nat n ->
  gapsWithin w (getOr0 (lastRequestTime s) c) times ->
  (checkAll c m w times s).1 = burstAnswers m n (length times).
Proof.
  induction times as [| now rest IH]; intros s n Hn Hgaps; [done |].
  destruct Hgaps as [Hgap Hrest]. simpl.
  pose proof (checkRateLimit_within c m w now s Hgap) as (Hr & Hcnt & Hlast).
  destruct (checkRateLimit c m w now s) as [r s1]; simpl in *.
  specialize (IH s1 (S n)).
  destruct (checkAll c m w rest s1) as [rs s2]; simpl in *.
  unfold burstAnswers in *; simpl. f_equal; [by rewrite Hr, Hn |].
  apply IH; [lia | by rewrite Hlast].
Qed.

Lemma checkAll_other c c' m w : forall times s,
  c ≠ c' ->
  getOr0 (requestCount (checkAll c m w times s).2) c'
    = getOr0 (requestCount s) c' /\
  getOr0 (lastRequestTime (checkAll c m w times s).2) c'
    = getOr0 (lastRequestTime s) c'.
Proof.
  induction times as [| now rest IH]; intros s Hne; [done |].
  simpl. pose proof (checkRateLimit_other c c' m w now s Hne) as [H1 H2].
  destruct (checkRateLimit c m w now s) as [r s1]; simpl in *.
  specialize (IH s1 Hne).
  destruct (checkAll c m w rest s1) as [rs s2]; simpl in *.
  destruct IH as [IH1 IH2]. split; congruence.
Qed.

End SecurityManagerFacts.

(* ===================================================================== *)
(** ** Reasoning about handlers                                           *)
(* ===================================================================== *)

Module ProcFacts.

Lemma allPaths_mono {R} (p : proc R) : forall (Q Q' : list Obs -> R + thrown -> Prop),
  (forall tr r, Q tr r -> Q' tr r) -> allPaths p Q -> allPaths p Q'.
Proof.
  induction p as [r | e | k IH | s k IH | e k IH | A c k IH | A c k IH];
    intros Q Q' HQ; simpl; eauto.
  - apply IH. intros tr r. apply HQ.
  - apply IH. intros tr r. apply HQ.
  - intros H o. eapply IH; [| apply H]. intros tr r. apply HQ.
Qed.

Lemma allPaths_bind {R S} (p : proc R) (f : R -> proc S) :
  forall Q : list Obs -> S + thrown -> Prop,
  allPaths p (fun tr r =>
    match r with
    | inl v => allPaths (f v) (fun tr' => Q (tr ++ tr'))
    | inr e => Q tr (inr e)
    end) ->
  allPaths (bind p f) Q.
Proof.
  induction p as [r | e | k IH | s k IH | e k IH | A c k IH | A c k IH];
    intros Q; simpl; eauto.
Qed.

Lemma allPaths_tryCatch {R} (p : proc R) (h : thrown -> proc R) :
  forall Q : list Obs -> R + thrown -> Prop,
  allPaths p (fun tr r =>
    match r with
    | inl v => Q tr (inl v)
    | inr e => allPaths (h e) (fun tr' => Q (tr ++ tr'))
    end) ->
  allPaths (tryCatch p h) Q.
Proof.
  induction p as [r | e | k IH | s k IH | e k IH | A c k IH | A c k IH];
    intros Q; simpl; eauto.
Qed.

Lemma allPaths_tryFinally {R} (p : proc R) (f : proc unit) :
  forall Q : list Obs -> R + thrown -> Prop,
  allPaths p (fun tr r =>
    allPaths f (fun tr' r' =>
      Q (tr ++ tr') (match r' with inl _ => r | inr e => inr e end))) ->
  allPaths (tryFinally p f) Q.
Proof.
  induction p as [r | e | k IH | s k IH | e k IH | A c k IH | A c k IH];
    intros Q; simpl; eauto;
    intros H; apply allPaths_bind; (eapply allPaths_mono; [| apply H]);
    intros tr [[] | e']; simpl; rewrite ?app_nil_r; auto.
Qed.

(** A run is one path. *)
Lemma run_allPaths env intf {R} (p : proc R) :
  forall (Q : list Obs -> R + thrown -> Prop) w,
  allPaths p Q ->
  Q (Run.obs (run env intf p w)) (Run.result (run env intf p w)).
Proof.
  induction p as [r | e | k IH | s k IH | e k IH | A c k IH | A c k IH];
    intros Q w H; simpl in *.
  - exact H.
  - exact H.
  - apply IH, H.
  - apply IH, H.
  - apply (IH (fun tr => Q (OEmit e :: tr))). exact H.
  - apply (IH (fun tr => Q (OCall c :: tr))). exact H.
  - apply (IH _ (fun tr => Q (OCall c :: OAnswer c _ :: tr))). apply H.
Qed.

End ProcFacts.

Module ExecuteFacts.
Import Controller SocketController ProcFacts Shape.

(** Close a goal about a finished path. *)
Ltac ends := simpl; repeat split; first [done | eauto].

Lemma validateCommandInput_paths userInput :
  allPaths (validateCommandInput userInput)
    (fun tr r => forallb idle tr = true /\ exists v, r = inl v).
Proof.
  unfold validateCommandInput.
  destruct userInput as [[| a rest] |]; [ends | | ends].
  cbv iota. generalize (String a rest). intros text.
  destruct (1000 <? Z.of_nat (utf16Length text)); [ends |].
  simpl. intros [check | err]; simpl; [| ends].
  destruct (negb (SecurityCheck.safe check)); ends.
Qed.

Lemma updateBrowserState_paths sessionId :
  allPaths (updateBrowserState sessionId)
    (fun tr r => forallb idle tr = true /\ r = inl tt).
Proof.
  unfold updateBrowserState. simpl. intros s.
  destruct (getBrowser s sessionId); simpl; [| done].
  intros [currentUrl | err]; simpl; [| done].
  intros [pageTitle | err]; simpl; done.
Qed.

Local Arguments updateBrowserState : simpl never.

Lemma looped_cons n i c r noise rest tr res :
  BrowserResponse.success r = true ->
  forallb idle noise = true ->
  looped n (S i) rest tr res ->
  looped n i (c :: rest)
    (executingEvent i n c :: OCall (executeCommand c) ::
     OAnswer (executeCommand c) (inl r) :: noise ++ tr) res.
Proof.
  intros Hr Hn [tr' Hit | done c' rest' tr' last e -> Hit Hstop].
  - apply looped_all. by apply iterations_cons.
  - rewrite app_assoc.
    apply (looped_stop n i _ (c :: done) c' rest'
             (executingEvent i n c :: OCall (executeCommand c) ::
              OAnswer (executeCommand c) (inl r) :: noise ++ tr') last e).
    + done.
    + by apply iterations_cons.
    + replace (i + length (c :: done))%nat with (S i + length done)%nat
        by (simpl; lia).
      done.
Qed.

Lemma looped_first n i c rest last e :
  stopped n i c last e -> looped n i (c :: rest) last (inr e).
Proof.
  intros H. apply (looped_stop n i _ [] c rest [] last e); [done | constructor |].
  simpl. by rewrite Nat.add_0_r.
Qed.

Lemma forCommands_paths sessionId executionId n : forall rest i,
  allPaths (forCommands sessionId executionId n i rest) (looped n i rest).
Proof.
  induction rest as [| command rest IH]; intros i; cbn.
  { apply looped_all. constructor. }
  intros s [result | err]; cbn.
  2: { apply looped_first. constructor. }
  intros s1.
  destruct (BrowserResponse.success result) eqn:Hok; cbn.
  2: { intros s2. apply looped_first. by constructor. }
  destruct (takesScreenshot (BrowserCommand.action command)) eqn:Hshot; cbn.
  - intros [shot | err]; cbn.
    2: { apply looped_first. by constructor. }
    intros s2.
    apply allPaths_bind.
    eapply allPaths_mono; [| apply updateBrowserState_paths].
    intros tr r [Hq ->]. eapply allPaths_mono; [| apply IH].
    intros tr' r' Hl. cbn.
    apply (looped_cons n i command result
             (OCall takeScreenshot :: OAnswer takeScreenshot (inl shot) ::
              OEmit (screenshot_update shot (clock s2)) :: tr)); [done | | done].
    cbn. done.
  - apply allPaths_bind.
    eapply allPaths_mono; [| apply updateBrowserState_paths].
    intros tr r [Hq ->]. eapply allPaths_mono; [| apply IH].
    intros tr' r' Hl. cbn.
    by apply (looped_cons n i command result tr).
Qed.


Lemma executeCommands_paths sessionId execution :
  allPaths (executeCommands sessionId execution)
    (fun tr r =>
       let commands := ExecutionContext.commands execution in
       match r with
       | inl _ =>
           exists loop results t,
             iterations (length commands) 0 commands loop /\
             tr = loop ++ [completedEvent;
                           OEmit (command_result true (Some results) None t)]
       | inr e => tr = [] \/ looped (length commands) 0 commands tr (inr e)
       end).
Proof.
  unfold executeCommands. cbn. intros s.
  destruct (getBrowser s sessionId); cbn; [| by left].
  intros s1. apply allPaths_tryCatch, allPaths_bind.
  eapply allPaths_mono; [| apply forCommands_paths].
  intros tr [[] | err] Hl; cbn.
  - intros s2 s3 s4. inversion Hl; subst. eauto.
  - intros s2 s3. rewrite app_nil_r. by right.
Qed.

Local Arguments validateCommandInput : simpl never.
Local Arguments executeCommands : simpl never.


Lemma handled_of_attempt tr r t :
  attempted tr r ->
  match r with
  | inl _ => handled tr
  | inr e => handled (tr ++ [failure (messageOr "Command execution failed" e) t])
  end.
Proof.
  destruct r as [[] | e]; simpl.
  - intros (calls & calls' & commands & loop & results & t' & H1 & H2 & H3 & H4 & ->).
    eapply handled_completed; [exact H1 | exact H2 | exact H3 | exact H4 |].
    reflexivity.
  - intros [Hidle | [(calls & calls' & H1 & H2 & ->) |
                     (calls & calls' & commands & loop & H1 & H2 & H3 & H4 & ->)]].
    + eapply handled_refused; [exact Hidle | reflexivity].
    + eapply handled_unparsed; [exact H1 | exact H2 |].
      rewrite <- app_assoc. cbn. reflexivity.
    + eapply handled_stopped; [exact H1 | exact H2 | exact H3 | exact H4 |].
      rewrite <- !app_assoc. cbn. rewrite <- !app_assoc. reflexivity.
Qed.

Theorem handleExecuteCommand_paths sessionId executionId
    (data : CommandData.t) :
  allPaths (handleExecuteCommand sessionId executionId (Some data))
    (fun tr r => r = inl tt /\ handled tr).
Proof.
  unfold handleExecuteCommand. cbn [allPaths bind get]. intros s0.
  apply allPaths_tryFinally, allPaths_tryCatch.
  eapply (allPaths_mono _ attempted).
  { intros tr [[] | e] Hatt; cbn.
    - intros s. rewrite app_nil_r. split; [done |].
      by apply (handled_of_attempt tr (inl tt) 0).
    - intros s1 s2 s3. rewrite app_nil_r. split; [done |].
      by apply (handled_of_attempt tr (inr e) (clock s2 - clock s0)). }
  cbn. intros s.
  destruct (getSession s sessionId); [| by left].
  destruct (getBrowser s sessionId) as [browserState |]; [| by left].
  cbn.
  destruct (decide (BrowserInstanceState.status browserState = ready));
    cbn; [| by left].
  apply allPaths_bind.
  eapply allPaths_mono; [| apply validateCommandInput_paths].
  intros calls r [Hcalls [[valid message] ->]]. cbn.
  destruct valid; cbn.
  2: { left. by rewrite app_nil_r. }
  intros [shot | err]; cbn.
  { intros s1 [parseResult | err]; cbn.
    - destruct (AIParseResponse.success parseResult) eqn:Hsuccess.
      + destruct (AIParseResponse.commands parseResult) as [commands |] eqn:Hcommands;
          cbn.
        * intros s2 s3. apply allPaths_bind.
          eapply allPaths_mono; [| apply executeCommands_paths].
          intros tr [[] | err]; cbn.
          -- intros (loop & results & t & Hit & ->) s4 s5 s6.
             match goal with
             | |- context [OCall (parseCommand ?req)] =>
                 exists calls,
                   [OCall takeScreenshot; OAnswer takeScreenshot (inl shot);
                    OCall (parseCommand req);
                    OAnswer (parseCommand req) (inl parseResult)],
                   commands, loop, results, t
             end.
             split; [done |]. split; [done |].
             split; [cbn; by rewrite Hsuccess, Hcommands |].
             split; [exact Hit |]. by rewrite app_nil_r.
          -- intros [-> | Hl].
             ++ right; left. eexists calls, _. split; [done |].
                split; [| reflexivity]. done.
             ++ right; right.
                match goal with
                | |- context [OCall (parseCommand ?req)] =>
                    exists calls,
                      [OCall takeScreenshot; OAnswer takeScreenshot (inl shot);
                       OCall (parseCommand req);
                       OAnswer (parseCommand req) (inl parseResult)],
                      commands, tr
                end.
                split; [done |]. split; [done |].
                split; [cbn; by rewrite Hsuccess, Hcommands |].
                split; [exact Hl | done].
        * right; left. eexists calls, _. split; [done |].
          split; [| reflexivity]. done.
      + right; left. eexists calls, _. split; [done |].
        split; [| reflexivity]. done.
    - right; left. eexists calls, _. split; [done |].
      split; [| reflexivity]. done. }
  right; left. eexists calls, _. split; [done |].
  split; [| reflexivity]. done.
Qed.

(** Without a payload every path ends in the [TypeError] of the [catch]
    block, before anything was sent or asked. *)
Lemma handleExecuteCommand_no_payload sessionId executionId :
  allPaths (handleExecuteCommand sessionId executionId None)
    (fun tr r => tr = [] /\ r = inr typeError).
Proof.
  unfold handleExecuteCommand. cbn. intros s0 s.
  destruct (getSession s sessionId); [| by cbn].
  destruct (getBrowser s sessionId) as [browserState |]; [| by cbn].
  cbn.
  destruct (decide (BrowserInstanceState.status browserState = ready));
    by cbn.
Qed.

End ExecuteFacts.

Module ShapeFacts.
Import SocketController Shape.

Lemma events_app tr tr' : events (tr ++ tr') = events tr ++ events tr'.
Proof. apply omap_app. Qed.

Lemma percentages_app tr tr' :
  percentages (tr ++ tr') = percentages tr ++ percentages tr'.
Proof. unfold percentages. by rewrite events_app, omap_app. Qed.

Lemma executed_app tr tr' : executed (tr ++ tr') = executed tr ++ executed tr'.
Proof. apply omap_app. Qed.

Lemma answers_app tr tr' : answers (tr ++ tr') = answers tr ++ answers tr'.
Proof. apply omap_app. Qed.

Lemma translated_app tr tr' :
  translated (tr ++ tr') = translated tr ++ translated tr'.
Proof. apply omap_app. Qed.

Lemma silent_inv o :
  silent o = true ->
  eventOf o = None /\ commandOf o = None /\ answerOf o = None.
Proof.
  destruct o as [e | A c | A c a]; simpl; [done | |];
    destruct c; simpl; done.
Qed.

Lemma idle_inv o :
  idle o = true ->
  (from_option isNotice true (eventOf o) = true) /\
  (eventOf o ≫= progressValue) = None /\
  commandOf o = None /\ answerOf o = None /\ translationOf o = None.
Proof.
  destruct o as [e | A c | A c a]; simpl.
  - by destruct e.
  - by destruct c.
  - by destruct c.
Qed.

Lemma silent_facts tr :
  forallb silent tr = true ->
  events tr = [] /\ executed tr = [] /\ answers tr = [].
Proof.
  induction tr as [| o tr IH]; [done |]. simpl.
  intros [Ho Htr]%andb_true_iff.
  destruct (silent_inv o Ho) as (He & Hc & Ha), (IH Htr) as (IHe & IHc & IHa).
  unfold events, executed, answers in *. simpl.
  by rewrite He, Hc, Ha.
Qed.

Lemma idle_facts tr :
  forallb idle tr = true ->
  forallb isNotice (events tr) = true /\ percentages tr = [] /\
  executed tr = [] /\ answers tr = [] /\ translated tr = [].
Proof.
  induction tr as [| o tr IH]; [done |]. simpl.
  intros [Ho Htr]%andb_true_iff.
  destruct (idle_inv o Ho) as (He & Hp & Hc & Ha & Ht),
           (IH Htr) as (IHe & IHp & IHc & IHa & IHt).
  unfold percentages, events, executed, answers, translated in *. simpl.
  rewrite Hc, Ha, Ht. repeat split; try done.
  - destruct (eventOf o); simpl in *; [by rewrite He |done].
  - destruct (eventOf o); simpl in *; [by rewrite Hp |done].
Qed.

Lemma iterations_facts n : forall i cs tr,
  iterations n i cs tr ->
  forallb isNotice (events tr) = true /\
  percentages tr = map (fun j => progressOf j n) (seq i (length cs)) /\
  executed tr = cs /\
  Forall succeeded (answers tr) /\ length (answers tr) = length cs /\
  translated tr = [].
Proof.
  induction 1 as [i | i c r cs noise tr Hr Hnoise Hit IH].
  { by repeat split. }
  destruct IH as (IHe & IHp & IHc & IHa & IHl & IHt).
  destruct (idle_facts noise Hnoise) as (He & Hp & Hc & Ha & Ht).
  unfold executingEvent.
  change (?a :: ?b :: ?c :: noise ++ tr) with ([a; b; c] ++ noise ++ tr).
  rewrite !events_app, !percentages_app, !executed_app, !answers_app,
    !translated_app, !forallb_app.
  rewrite He, Hp, Hc, Ha, Ht, IHe, IHp, IHc, IHt. simpl.
  repeat split; try done.
  - by constructor.
  - by rewrite IHl.
Qed.


Lemma stopped_facts n i c last e :
  stopped n i c last e ->
  forallb isNotice (events last) = true /\
  percentages last = [progressOf i n] /\
  executed last = [c] /\
  translated last = [] /\
  exists a, answers last = [a] /\
    forall r, a = inl r -> BrowserResponse.success r = false ->
      e = Error (orElse (BrowserResponse.error r) "Command execution failed").
Proof.
  destruct 1 as [r Hr | e | r e Hr Hshot]; repeat split; try done.
  - exists (inl r). split; [done |]. by intros r' [= <-].
  - exists (inr e). split; [done |]. done.
  - exists (inl r). split; [done |]. intros r' [= <-]. congruence.
Qed.

Lemma preceding_silent tr : forall p tr',
  executed tr = [] ->
  exists p', preceding p (tr ++ tr') = preceding p' tr'.
Proof.
  induction tr as [| o tr IH]; intros p tr' Hex; [by exists p |].
  unfold executed in Hex. simpl in *.
  destruct (commandOf o); [done |]. apply IH, Hex.
Qed.

Lemma preceding_none tr : forall p, executed tr = [] -> preceding p tr = [].
Proof.
  induction tr as [| o tr IH]; intros p Hex; [done |].
  unfold executed in Hex. simpl in *.
  destruct (commandOf o); [done |]. apply IH, Hex.
Qed.

Lemma announcements_cons n i c cs :
  announcements n i (c :: cs)
  = Some (executingEvent i n c) :: announcements n (S i) cs.
Proof.
  unfold announcements. simpl. rewrite Nat.add_0_r. f_equal.
  apply imap_ext. intros j x _. simpl. do 2 f_equal. lia.
Qed.

Lemma announcements_app n i cs cs' :
  announcements n i (cs ++ cs')
  = announcements n i cs ++ announcements n (i + length cs) cs'.
Proof.
  unfold announcements. rewrite imap_app. f_equal.
  apply imap_ext. intros j x _. simpl. do 2 f_equal. lia.
Qed.

Lemma iterations_preceding n : forall i cs tr,
  iterations n i cs tr ->
  forall p tail,
    exists p', preceding p (tr ++ tail) = announcements n i cs ++ preceding p' tail.
Proof.
  induction 1 as [i | i c r cs noise tr Hr Hnoise Hit IH]; intros p tail.
  { by exists p. }
  destruct (idle_facts noise Hnoise) as (_ & _ & Hex & _).
  destruct (preceding_silent noise
              (Some (OAnswer (executeCommand c) (inl r))) (tr ++ tail) Hex)
    as [p1 Hp1].
  destruct (IH p1 tail) as [p' Hp'].
  exists p'. rewrite announcements_cons. simpl.
  by rewrite <- app_assoc, Hp1, Hp'.
Qed.

Lemma stopped_preceding n i c last e :
  stopped n i c last e ->
  forall p tail, executed tail = [] ->
    preceding p (last ++ tail) = [Some (executingEvent i n c)].
Proof.
  destruct 1 as [r Hr | e | r e Hr Hshot]; intros p tail Htail; simpl;
    by rewrite preceding_none.
Qed.

Lemma looped_facts n i rest tr r :
  looped n i rest tr r ->
  executed tr `prefix_of` rest /\
  (forall v, r = inl v -> executed tr = rest) /\
  forallb isNotice (events tr) = true /\
  percentages tr
    = map (fun j => progressOf j n) (seq i (length (executed tr))) /\
  translated tr = [] /\
  (forall p tail, executed tail = [] ->
     preceding p (tr ++ tail) = announcements n i (executed tr)) /\
  length (answers tr) = length (executed tr) /\
  (forall j a, (S j < length (answers tr))%nat -> answers tr !! j = Some a ->
     succeeded a) /\
  (forall e a, r = inr e -> last (answers tr) = Some a ->
     match a with
     | inl v => BrowserResponse.success v = false ->
         e = Error (orElse (BrowserResponse.error v) "Command execution failed")
     | inr _ => True
     end) /\
  (forall v, r = inl v -> Forall succeeded (answers tr)).
Proof.
  destruct 1 as [tr Hit | done c rest' tr last e -> Hit Hstop].
  - destruct (iterations_facts n i rest tr Hit) as (He & Hp & Hc & Ha & Hl & Ht).
    rewrite Hc. repeat split; try done.
    + intros p tail Htail.
      destruct (iterations_preceding n i rest tr Hit p tail) as [p' ->].
      by rewrite preceding_none, app_nil_r.
    + intros j a Hj Hja. eapply Forall_lookup_1; eauto.
  - destruct (iterations_facts n i done tr Hit) as (He & Hp & Hc & Ha & Hl & Ht).
    destruct (stopped_facts n _ c last e Hstop)
      as (He' & Hp' & Hc' & Ht' & a & Ha' & Hfail).
    rewrite !executed_app, !events_app, !percentages_app, !answers_app,
      !translated_app, !forallb_app, Hc, Hc', He, He', Hp, Hp', Ht, Ht', Ha'.
    rewrite !length_app, Hl. simpl. repeat split; try done.
    + exists rest'. by rewrite <- app_assoc.
    + by rewrite seq_app, map_app.
    + intros p tail Htail. rewrite <- app_assoc.
      destruct (iterations_preceding n i done tr Hit p (last ++ tail)) as [p' ->].
      rewrite (stopped_preceding n _ c last e Hstop p' tail Htail).
      rewrite announcements_app. simpl. unfold announcements at 3. simpl.
      by rewrite Nat.add_0_r.
    + intros j b Hj Hjb. rewrite lookup_app_l in Hjb by lia.
      eapply Forall_lookup_1; eauto.
    + intros e' b [= <-]. rewrite last_snoc. intros [= <-].
      destruct a as [v | ?]; [| done]. intros Hv. by apply Hfail.
Qed.


(** *** The percentages *)

Lemma progressOf_mono n i j :
  (i <= j)%nat -> progressOf i n <= progressOf j n.
Proof.
  intros Hij. unfold progressOf, round.
  destruct (decide (n = 0%nat)) as [-> | Hn].
  - simpl. by rewrite !Z.div_0_r.
  - apply Z.add_le_mono_r, Z.div_le_mono; lia.
Qed.

Lemma progressOf_ge n i : 20 <= progressOf i n.
Proof.
  unfold progressOf, round.
  destruct (decide (n = 0%nat)) as [-> | Hn].
  - simpl. rewrite Z.div_0_r. lia.
  - assert (0 <= (2 * ((Z.of_nat i + 1) * 80) + Z.of_nat n) / (2 * Z.of_nat n))
      by (apply Z.div_pos; lia).
    lia.
Qed.

Lemma progressOf_le n i : (i < n)%nat -> progressOf i n <= 100.
Proof.
  intros Hi. unfold progressOf, round.
  assert ((2 * ((Z.of_nat i + 1) * 80) + Z.of_nat n) / (2 * Z.of_nat n) < 81)
    by (apply Z.div_lt_upper_bound; lia).
  lia.
Qed.

Lemma progressOf_last n : (0 < n)%nat -> progressOf (n - 1) n = 100.
Proof.
  intros Hn. unfold progressOf, round.
  replace (Z.of_nat (n - 1) + 1) with (Z.of_nat n) by lia.
  rewrite <- (Z.div_unique (2 * (Z.of_nat n * 80) + Z.of_nat n)
                (2 * Z.of_nat n) 80 (Z.of_nat n)); lia.
Qed.

Lemma seq_sorted : forall m i, StronglySorted le (seq i m).
Proof.
  induction m as [| m IH]; intros i; simpl; constructor; [apply IH |].
  apply Forall_forall. intros j Hj%list_elem_of_In%in_seq. lia.
Qed.

Lemma scale_sorted n : StronglySorted Z.le (scale n).
Proof.
  unfold scale. apply StronglySorted_cons. split.
  - apply Forall_app. split; [| by repeat constructor].
    apply Forall_forall. intros p (i & <- & _)%list_elem_of_In%in_map_iff.
    pose proof (progressOf_ge n i). lia.
  - apply StronglySorted_app_2.
    + intros p q (i & <- & Hi%in_seq)%list_elem_of_In%in_map_iff
        ->%list_elem_of_singleton.
      apply progressOf_le. lia.
    + apply (StronglySorted_fmap _ le); [| apply seq_sorted].
      intros i j. apply progressOf_mono.
    + by repeat constructor.
Qed.

Lemma scale_bounds n p : p ∈ scale n -> 10 <= p <= 100.
Proof.
  unfold scale. rewrite elem_of_cons, elem_of_app, list_elem_of_singleton.
  intros [-> | [(i & <- & Hi%in_seq)%list_elem_of_In%in_map_iff | ->]]; try lia.
  pose proof (progressOf_ge n i). pose proof (progressOf_le n i). lia.
Qed.

Lemma scale_last n : last (scale n) = Some 100.
Proof. unfold scale. by rewrite app_comm_cons, last_snoc. Qed.

Lemma prefix_sorted (l k : list Z) :
  l `prefix_of` k -> StronglySorted Z.le k -> StronglySorted Z.le l.
Proof. intros [k' ->]. apply StronglySorted_app_1_l. Qed.


(** *** Whole requests *)

Lemma silent_percentages tr : forallb silent tr = true -> percentages tr = [].
Proof. intros (He & _)%silent_facts. unfold percentages. by rewrite He. Qed.

Lemma preceding_app_silent tr tr' p :
  executed tr = [] -> exists p', preceding p (tr ++ tr') = preceding p' tr'.
Proof. apply preceding_silent. Qed.

(** Equal lists up to the bracketing of [++]. *)
Ltac assoc := rewrite <- ?app_assoc; simpl; rewrite <- ?app_assoc; reflexivity.

(** Split the projections of a trace along its parts. *)
Ltac project :=
  change (?a :: ?l ++ ?k) with ([a] ++ l ++ k) in *;
  rewrite ?events_app, ?percentages_app, ?executed_app, ?answers_app,
    ?translated_app, ?forallb_app.

Lemma handled_one_result tr :
  handled tr ->
  exists before final,
    events tr = before ++ [final] /\ isResult final = true /\
    forallb isNotice before = true.
Proof.
  destruct 1 as [tr calls message t Hcalls ->
                |tr calls calls' message t Hcalls Hcalls' ->
                |tr calls calls' commands loop e t Hcalls Hcalls' Htr Hloop ->
                |tr calls calls' commands loop results t Hcalls Hcalls' Htr Hit ->].
  - destruct (idle_facts _ Hcalls) as (He & _).
    exists (events calls), (command_result false None (Some message) t).
    by rewrite events_app.
  - destruct (idle_facts _ Hcalls) as (He & _).
    destruct (silent_facts _ Hcalls') as (He' & _).
    eexists (events calls ++ [_]), (command_result false None (Some message) t).
    project. rewrite He'. simpl. rewrite He.
    split; [assoc |]. done.
  - destruct (idle_facts _ Hcalls) as (He & _).
    destruct (silent_facts _ Hcalls') as (He' & _).
    destruct (looped_facts _ _ _ _ _ Hloop) as (_ & _ & Hel & _).
    eexists (events calls ++ [_] ++ events loop),
      (command_result false None (Some _) t).
    project. rewrite He'. simpl. rewrite He, Hel.
    split; [assoc |]. done.
  - destruct (idle_facts _ Hcalls) as (He & _).
    destruct (silent_facts _ Hcalls') as (He' & _).
    destruct (iterations_facts _ _ _ _ Hit) as (Hel & _).
    eexists (events calls ++ [_] ++ events loop ++ [_]),
      (command_result true (Some results) None t).
    project. rewrite He'. simpl. rewrite He, Hel.
    split; [assoc |]. done.
Qed.


Lemma scale_prefix n m :
  (m <= n)%nat ->
  10 :: map (fun i => progressOf i n) (seq 0 m) `prefix_of` scale n.
Proof.
  intros Hm. unfold scale. apply prefix_cons.
  assert (seq 0 n = seq 0 m ++ seq m (n - m)) as ->
    by (rewrite <- seq_app; f_equal; lia).
  rewrite map_app, <- app_assoc. by eexists.
Qed.

Lemma last_events_snoc tr e : last (events (tr ++ [OEmit e])) = Some e.
Proof. rewrite events_app. simpl. apply last_snoc. Qed.

Lemma handled_scale tr :
  handled tr ->
  let n := batchSize tr in
  percentages tr `prefix_of` scale n /\
  preceding None tr = announcements n 0 (executed tr) /\
  (completedOk tr = true ->
   percentages tr = scale n /\ length (executed tr) = n).
Proof.
  intros H. unfold completedOk.
  destruct H as [tr calls message t Hcalls ->
                |tr calls calls' message t Hcalls Hcalls' ->
                |tr calls calls' commands loop e t Hcalls Hcalls' Htr Hloop ->
                |tr calls calls' commands loop results t Hcalls Hcalls' Htr Hit ->];
    destruct (idle_facts _ Hcalls) as (He & Hp & Hc & Ha & Ht);
    unfold batchSize.
  - assert (last (events (calls ++ [failure message t]))
            = Some (command_result false None (Some message) t)) as ->
      by apply last_events_snoc.
    project. rewrite Hp, Hc, Ht. simpl. split; [apply prefix_nil |].
    split; [| done].
    apply preceding_none. by rewrite executed_app, Hc.
  - destruct (silent_facts _ Hcalls') as (He' & Hc' & Ha').
    pose proof (silent_percentages _ Hcalls') as Hp'.
    assert (last (events (calls ++ parsingEvent :: calls' ++ [failure message t]))
            = Some (command_result false None (Some message) t)) as ->.
    { replace (calls ++ parsingEvent :: calls' ++ [failure message t])
        with ((calls ++ parsingEvent :: calls') ++ [failure message t]) by assoc.
      apply last_events_snoc. }
    project. rewrite Hp, Hp', Hc, Hc', Ht. simpl.
    split; [by apply (scale_prefix _ 0), Nat.le_0_l |].
    split; [| done].
    apply preceding_none. project. by rewrite Hc, Hc'.
  - destruct (silent_facts _ Hcalls') as (He' & Hc' & Ha').
    pose proof (silent_percentages _ Hcalls') as Hp'.
    destruct (looped_facts _ _ _ _ _ Hloop)
      as (Hpre & _ & _ & Hpl & Htl & Hprec & _).
    assert (last (events (calls ++ parsingEvent :: calls' ++ loop ++
               [failure (messageOr "Command execution failed" e) t]))
            = Some (command_result false None
                      (Some (messageOr "Command execution failed" e)) t)) as ->.
    { replace (calls ++ parsingEvent :: calls' ++ loop ++
               [failure (messageOr "Command execution failed" e) t])
        with ((calls ++ parsingEvent :: calls' ++ loop) ++
              [failure (messageOr "Command execution failed" e) t]) by assoc.
      apply last_events_snoc. }
    destruct (preceding_silent (calls ++ [parsingEvent] ++ calls') None
                (loop ++ [failure (messageOr "Command execution failed" e) t]))
      as [p' Hp''].
    { project. by rewrite Hc, Hc'. }
    rewrite <- !app_assoc in Hp''. simpl in Hp''. rewrite Hp''.
    project. rewrite Hp, Hp', Hc, Hc', Ht, Htr, Htl, Hpl. simpl.
    rewrite !app_nil_r. split; [| split; [| done]].
    + apply scale_prefix. by apply prefix_length in Hpre.
    + by apply Hprec.
  - destruct (silent_facts _ Hcalls') as (He' & Hc' & Ha').
    pose proof (silent_percentages _ Hcalls') as Hp'.
    destruct (iterations_facts _ _ _ _ Hit) as (_ & Hpl & Hcl & _ & _ & Htl).
    destruct (preceding_silent (calls ++ [parsingEvent] ++ calls') None
                (loop ++ [completedEvent;
                          OEmit (command_result true (Some results) None t)]))
      as [p' Hp''].
    { project. by rewrite Hc, Hc'. }
    rewrite <- !app_assoc in Hp''. simpl in Hp''. rewrite Hp''.
    destruct (iterations_preceding _ _ _ _ Hit p'
                [completedEvent;
                 OEmit (command_result true (Some results) None t)])
      as [p'' ->].
    project. rewrite Hp, Hp', Hc, Hc', Ht, Htr, Htl, Hpl, Hcl. simpl.
    rewrite !app_nil_r. done.
Qed.


Lemma handled_fail_fast tr k r :
  handled tr ->
  (1 <= k)%nat ->
  answers tr !! (k - 1)%nat = Some (inl r) ->
  BrowserResponse.success r = false ->
  length (executed tr) = k /\ length (answers tr) = k /\
  (forall j a, (j < k - 1)%nat -> answers tr !! j = Some a -> succeeded a) /\
  (exists commands, translated tr = [commands] /\ executed tr = take k commands) /\
  (exists before t,
     events tr = before ++
       [command_result false None
          (Some (orElse (BrowserResponse.error r) "Command execution failed")) t] /\
     forallb isNotice before = true).
Proof.
  intros H Hk Hans Hr.
  destruct H as [tr calls message t Hcalls ->
                |tr calls calls' message t Hcalls Hcalls' ->
                |tr calls calls' commands loop e t Hcalls Hcalls' Htr Hloop ->
                |tr calls calls' commands loop results t Hcalls Hcalls' Htr Hit ->];
    destruct (idle_facts _ Hcalls) as (He & Hp & Hc & Ha & Ht).
  - revert Hans. project. by rewrite Ha.
  - destruct (silent_facts _ Hcalls') as (He' & Hc' & Ha').
    revert Hans. project. by rewrite Ha, Ha'.
  - destruct (silent_facts _ Hcalls') as (He' & Hc' & Ha').
    destruct (looped_facts _ _ _ _ _ Hloop)
      as (Hpre & _ & Hel & _ & Htl & _ & Hlen & Hbefore & Hlast & _).
    revert Hans. project. rewrite He', Hc, Hc', Ha, Ha', Ht, Htr, Htl. simpl.
    rewrite !app_nil_r. intros Hans.
    assert (k = length (answers loop)) as Hkm.
    { pose proof (lookup_lt_Some _ _ _ Hans) as Hlt.
      destruct (decide (S (k - 1) < length (answers loop))%nat) as [Hin |]; [| lia].
      specialize (Hbefore _ _ Hin Hans). simpl in Hbefore. congruence. }
    assert (e = Error (orElse (BrowserResponse.error r)
                         "Command execution failed")) as ->.
    { specialize (Hlast e (inl r) eq_refl). simpl in Hlast. apply Hlast; [| done].
      rewrite last_lookup, <- Hans. f_equal. lia. }
    split; [lia |]. split; [lia |]. split; [| split].
    + intros j a Hj. apply Hbefore. lia.
    + exists commands. split; [done |].
      destruct Hpre as [rest' ->]. rewrite Hkm, Hlen.
      by rewrite take_app_length.
    + eexists (events calls ++ [_] ++ events loop), t.
      split; [assoc |]. by rewrite !forallb_app, He, Hel.
  - destruct (silent_facts _ Hcalls') as (He' & Hc' & Ha').
    destruct (iterations_facts _ _ _ _ Hit) as (_ & _ & _ & Hall & _).
    revert Hans. project. rewrite Ha, Ha'. simpl. rewrite app_nil_r.
    intros Hans. eapply Forall_lookup_1 in Hall; [| exact Hans].
    simpl in Hall. congruence.
Qed.

End ShapeFacts.

(* ===================================================================== *)
(** ** The execution pipeline: fail-fast, one result, progress            *)
(* ===================================================================== *)

Module PipelineClaims.
Import SocketController Shape Scenario ProcFacts ExecuteFacts ShapeFacts.

(** C3 holds of a request that carries a payload and fails without one.
    Whatever the collaborators answer and whatever other handlers do to the
    controller in between: when the event has a payload (of any content),
    [handleExecuteCommand] returns normally and the events it sends end with
    exactly one [command_result], all events before it being
    [command_progress] (or [screenshot_update]) notices.  When the event has
    no payload, the read of [data.userInput] in the [catch] block throws:
    the [TypeError] leaves the handler, no event at all is sent, and the
    request is only counted as failed. *)
Theorem execute_command_result_needs_payload (env : Env)
    (intf : Interference) (sessionId executionId : string) (w : World.t) :
  (forall data : CommandData.t,
     Run.result (run env intf
       (handleExecuteCommand sessionId executionId (Some data)) w) = inl tt /\
     exists before final,
       events (Run.obs (run env intf
         (handleExecuteCommand sessionId executionId (Some data)) w))
       = before ++ [final] /\
       isResult final = true /\
       forallb isNotice before = true) /\
  Run.result (run env intf (handleExecuteCommand sessionId executionId None) w)
  = inr typeError /\
  Run.obs (run env intf (handleExecuteCommand sessionId executionId None) w)
  = [] /\
  Run.final (run env intf (handleExecuteCommand sessionId executionId None) w)
  = Controller.deleteExecution executionId (incFailedCommands (World.ctrl w)).
Proof.
  split.
  - intros data.
    destruct (run_allPaths env intf _ _ w
                (handleExecuteCommand_paths sessionId executionId data))
      as [Hresult Hshape].
    split; [exact Hresult |]. by apply handled_one_result.
  - destruct (run_allPaths env intf _ _ w
                (handleExecuteCommand_no_payload sessionId executionId))
      as [Hobs Hresult].
    split; [exact Hresult |]. split; [exact Hobs |].
    unfold handleExecuteCommand, Run.final. cbn.
    destruct (Controller.getSession (World.ctrl w) sessionId); [| by cbn].
    destruct (Controller.getBrowser (World.ctrl w) sessionId) as [b |];
      [| by cbn].
    cbn. by destruct (decide (BrowserInstanceState.status b = ready)).
Qed.

(** C1, as the code has it.  When the [k]-th command handed to the browser is
    answered with [success: false]: exactly [k] commands were executed, the
    first [k] of the translated list, the [k - 1] answers before it were
    successes, and the events end with one [command_result] that has
    [success: false], the error of the failing step (or the default message)
    and no [data]; nothing before it carries a result. *)
Theorem batch_fails_fast (env : Env) (intf : Interference)
    (sessionId executionId : string) (data : option CommandData.t)
    (w : World.t) (k : nat) (r : BrowserResponse.t) :
  let tr := Run.obs (run env intf
              (handleExecuteCommand sessionId executionId data) w) in
  (1 <= k)%nat ->
  answers tr !! (k - 1)%nat = Some (inl r) ->
  BrowserResponse.success r = false ->
  length (executed tr) = k /\ length (answers tr) = k /\
  (forall j a, (j < k - 1)%nat -> answers tr !! j = Some a -> succeeded a) /\
  (exists commands, translated tr = [commands] /\ executed tr = take k commands) /\
  (exists before t,
     events tr = before ++
       [command_result false None
          (Some (orElse (BrowserResponse.error r) "Command execution failed")) t] /\
     forallb isNotice before = true).
Proof.
  intros tr. destruct data as [data |].
  - apply handled_fail_fast.
    apply (run_allPaths env intf _ _ w
             (handleExecuteCommand_paths sessionId executionId data)).
  - destruct (run_allPaths env intf _ _ w
                (handleExecuteCommand_no_payload sessionId executionId))
      as [Hobs _].
    subst tr. rewrite Hobs. by intros _ Hk.
Qed.

Lemma batch_fails_fast_witness :
  answers (Run.obs clickFailsRun) !! 1%nat = Some (inl notFound) /\
  length (executed (Run.obs clickFailsRun)) = 2%nat /\
  executed (Run.obs clickFailsRun) = [command navigate; command click] /\
  exists before t,
    events (Run.obs clickFailsRun)
    = before ++ [command_result false None (Some "Element not found") t].
Proof.
  destruct (batch_fails_fast
              (scripted [command navigate; command click; command type] secondFails)
              undisturbed "s1" "e1" (saying "open the page, click and type")
              (World.start connected) 2 notFound)
    as (Hlen & _ & _ & (commands & Htr & Hex) & (before & t & Hev & _)).
  - lia.
  - vm_compute. reflexivity.
  - reflexivity.
  - split; [vm_compute; reflexivity |]. split; [exact Hlen |].
    split; [vm_compute; reflexivity |]. exists before, t. exact Hev.
Defined.

(** C1, as stated, fails: with [navigate, click, type] where [click] fails,
    the result sent to the client holds the error only; the successful
    result of [navigate] is in no event. *)
Lemma partial_results_counterexample :
  answers (Run.obs clickFailsRun) = [inl done; inl notFound] /\
  last (events (Run.obs clickFailsRun))
  = Some (command_result false None (Some "Element not found") 0) /\
  omap dataOf (events (Run.obs clickFailsRun)) = [].
Proof. vm_compute. done. Qed.

(** C6, as the code has it.  The percentages of one request never decrease;
    they are an initial part of [scale n], [n] being the number of translated
    commands: 10 for parsing, then [20 + round (80 * (i + 1) / n)] for
    command [i], then 100.  The event for command [i] is sent right before
    the command is handed to the browser.  When the request succeeds the
    percentages are the whole of [scale n] and the last one is 100. *)
Theorem progress_follows_scale (env : Env) (intf : Interference)
    (sessionId executionId : string) (data : option CommandData.t)
    (w : World.t) :
  let tr := Run.obs (run env intf
              (handleExecuteCommand sessionId executionId data) w) in
  let n := batchSize tr in
  StronglySorted Z.le (percentages tr) /\
  percentages tr `prefix_of` scale n /\
  preceding None tr = announcements n 0 (executed tr) /\
  (completedOk tr = true ->
   percentages tr = scale n /\ length (executed tr) = n /\
   last (percentages tr) = Some 100).
Proof.
  intros tr n. destruct data as [data |].
  2: { destruct (run_allPaths env intf _ _ w
                   (handleExecuteCommand_no_payload sessionId executionId))
         as [Hobs _].
       subst n tr. rewrite Hobs. cbn.
       split; [constructor |]. split; [apply prefix_nil |]. done. }
  destruct (handled_scale tr) as (Hprefix & Hbefore & Hdone).
  { apply (run_allPaths env intf _ _ w
             (handleExecuteCommand_paths sessionId executionId data)). }
  split; [eapply prefix_sorted; [exact Hprefix | apply scale_sorted] |].
  split; [exact Hprefix |]. split; [exact Hbefore |].
  intros Hok. destruct (Hdone Hok) as [Hall Hlen].
  split; [exact Hall |]. split; [exact Hlen |].
  fold n in Hall. rewrite Hall. apply scale_last.
Qed.

(** C6, as stated, fails: in a batch of two commands that both succeed, the
    progress event sent after the first command reports 100, not
    [20 + round (80 * 1 / 2) = 60]; the event that reports 60 was sent before
    the first command ran. *)
Lemma progress_after_command_counterexample :
  completedOk (Run.obs loginRun) = true /\
  batchSize (Run.obs loginRun) = 2%nat /\
  progressOf 0 2 = 60 /\
  reportedAfter (Run.obs loginRun) = [Some 100; Some 100] /\
  percentages (Run.obs loginRun) = [10; 60; 100; 100].
Proof. vm_compute. done. Qed.

End PipelineClaims.

(* ===================================================================== *)
(** ** Disconnection and the sweeps                                       *)
(* ===================================================================== *)

Module TeardownFacts.
Import Controller SocketController.

Lemma cancelExecution_frame sessionId s x :
  let s' := cancelExecution sessionId s x in
  sessionStore s' = sessionStore s /\ browserStore s' = browserStore s /\
  clientSessions s' = clientSessions s /\
  browserInstances s' = browserInstances s /\
  connectionStats s' = connectionStats s /\
  sessionTimeout s' = sessionTimeout s /\ clock s' = clock s.
Proof.
  unfold cancelExecution. destruct (getExecution s x); [| done].
  by case_decide.
Qed.

Lemma cancelExecution_owned sessionId s x y :
  ownedBy sessionId (cancelExecution sessionId s x) y = ownedBy sessionId s y.
Proof.
  unfold cancelExecution, ownedBy.
  destruct (getExecution s x) as [e |]; [| done].
  case_decide; [| done]. simpl.
  destruct (decide (x = y)) as [-> | Hne].
  - rewrite lookup_alter_eq. by destruct (executionStore s !! y).
  - by rewrite lookup_alter_ne.
Qed.

Lemma cancelExecution_queue sessionId s x y :
  y ∈ executionQueue (cancelExecution sessionId s x) <->
  y ∈ executionQueue s /\ ~ (y = x /\ ownedBy sessionId s x = true).
Proof.
  unfold cancelExecution, getExecution, mapGet, ownedBy.
  destruct (decide (x ∈ executionQueue s)) as [Hin | Hout].
  - destruct (executionStore s !! x) as [e |].
    + case_decide as Hown; simpl.
      * rewrite bool_decide_eq_true_2 by done. set_solver.
      * rewrite bool_decide_eq_false_2 by done. set_solver.
    + set_solver.
  - set_solver.
Qed.

Lemma cancelExecution_store sessionId s x y :
  executionStore (cancelExecution sessionId s x) !! y
  = if decide (y = x /\ x ∈ executionQueue s /\ ownedBy sessionId s x = true)
    then ExecutionContext.setStatus cancelled <$> executionStore s !! y
    else executionStore s !! y.
Proof.
  unfold cancelExecution, getExecution, mapGet, ownedBy.
  destruct (decide (x ∈ executionQueue s)) as [Hin | Hout].
  - destruct (executionStore s !! x) as [e |] eqn:He.
    + case_decide as Hown; simpl.
      * rewrite bool_decide_eq_true_2 by done.
        case_decide as Hy.
        -- destruct Hy as [-> _]. by rewrite lookup_alter_eq.
        -- rewrite lookup_alter_ne; [done |]. naive_solver.
      * rewrite bool_decide_eq_false_2 by done. case_decide; naive_solver.
    + case_decide; naive_solver.
  - case_decide; naive_solver.
Qed.


Lemma cancelExecution_skip sessionId s x :
  (x ∈ executionQueue s -> ownedBy sessionId s x = false) ->
  cancelExecution sessionId s x = s.
Proof.
  unfold cancelExecution, getExecution, mapGet, ownedBy. intros H.
  destruct (decide (x ∈ executionQueue s)) as [Hin |]; [| done].
  specialize (H Hin).
  destruct (executionStore s !! x); [| done].
  case_decide; [| done]. by rewrite bool_decide_eq_true_2 in H.
Qed.

Lemma cancel_fold sessionId : forall l s,
  let s' := foldl (cancelExecution sessionId) s l in
  (sessionStore s' = sessionStore s /\ browserStore s' = browserStore s /\
   clientSessions s' = clientSessions s /\
   browserInstances s' = browserInstances s /\
   connectionStats s' = connectionStats s /\
   sessionTimeout s' = sessionTimeout s /\ clock s' = clock s) /\
  (forall y, ownedBy sessionId s' y = ownedBy sessionId s y) /\
  (forall y, y ∈ executionQueue s' <->
             y ∈ executionQueue s /\ ~ (y ∈ l /\ ownedBy sessionId s y = true)) /\
  (forall y, executionStore s' !! y
             = if decide (y ∈ l /\ y ∈ executionQueue s /\
                          ownedBy sessionId s y = true)
               then ExecutionContext.setStatus cancelled <$> executionStore s !! y
               else executionStore s !! y).
Proof.
  induction l as [| x l IH]; intros s; simpl.
  { split; [done |]. split; [done |]. split.
    - intros y. split; [| by intros [? _]].
      intros Hy. split; [done |]. intros [Hin _]. by apply elem_of_nil in Hin.
    - done. }
  destruct (IH (cancelExecution sessionId s x)) as (Hframe & Hown & Hqueue & Hstore).
  pose proof (cancelExecution_frame sessionId s x) as Hframe1. simpl in Hframe1.
  split; [| split; [| split]].
  - destruct Hframe as (-> & -> & -> & -> & -> & -> & ->). exact Hframe1.
  - intros y. by rewrite Hown, cancelExecution_owned.
  - intros y. rewrite Hqueue, cancelExecution_queue, cancelExecution_owned,
      elem_of_cons.
    destruct (decide (y = x)) as [-> | Hne]; naive_solver.
  - intros y. rewrite Hstore, cancelExecution_store, cancelExecution_owned.
    pose proof (cancelExecution_queue sessionId s x y) as Hq.
    pose proof (elem_of_cons l y x) as Hcons.
    destruct (decide (y = x)) as [-> | Hne];
      repeat case_decide; try done; naive_solver.
Qed.

Lemma cancelExecutions_spec sessionId s :
  let s' := cancelExecutions sessionId s in
  (sessionStore s' = sessionStore s /\ browserStore s' = browserStore s /\
   clientSessions s' = clientSessions s /\
   browserInstances s' = browserInstances s /\
   connectionStats s' = connectionStats s /\
   sessionTimeout s' = sessionTimeout s /\ clock s' = clock s) /\
  (forall y, ownedBy sessionId s' y = ownedBy sessionId s y) /\
  (forall y, y ∈ executionQueue s' <->
             y ∈ executionQueue s /\ ownedBy sessionId s y = false) /\
  (forall y, executionStore s' !! y
             = if decide (y ∈ executionQueue s /\ ownedBy sessionId s y = true)
               then ExecutionContext.setStatus cancelled <$> executionStore s !! y
               else executionStore s !! y).
Proof.
  destruct (cancel_fold sessionId (elements (executionQueue s)) s)
    as (Hframe & Hown & Hqueue & Hstore).
  split; [exact Hframe |]. split; [exact Hown |]. split.
  - intros y. unfold cancelExecutions. rewrite Hqueue, elem_of_elements.
    destruct (ownedBy sessionId s y); naive_solver.
  - intros y. unfold cancelExecutions. rewrite Hstore.
    repeat case_decide; try done; rewrite elem_of_elements in *; naive_solver.
Qed.

Lemma cancel_fold_skip sessionId : forall l s,
  (forall y, y ∈ l -> y ∈ executionQueue s -> ownedBy sessionId s y = false) ->
  foldl (cancelExecution sessionId) s l = s.
Proof.
  induction l as [| x l IH]; intros s H; [done |]. simpl.
  rewrite cancelExecution_skip.
  - apply IH. intros y Hy. apply H. by right.
  - apply H. by left.
Qed.

Lemma cancelExecutions_idempotent sessionId s :
  cancelExecutions sessionId (cancelExecutions sessionId s)
  = cancelExecutions sessionId s.
Proof.
  destruct (cancelExecutions_spec sessionId s) as (_ & Hown & Hqueue & _).
  unfold cancelExecutions at 1. apply cancel_fold_skip.
  intros y _ Hy. apply Hqueue in Hy as [_ Hy]. by rewrite Hown.
Qed.

Lemma advance_handleDisconnection sessionId reason s :
  advance (handleDisconnection sessionId reason) s
  = (disconnected sessionId s,
     match getBrowser s sessionId with
     | Some _ => [OCall cleanup]
     | None => []
     end,
     Finished (inl tt)).
Proof.
  unfold handleDisconnection, disconnected. simpl.
  destruct (getSession s sessionId); simpl.
  - change (getBrowser (decActiveConnections (deleteSession sessionId s))
              sessionId) with (getBrowser s sessionId).
    destruct (getBrowser s sessionId); reflexivity.
  - destruct (getBrowser s sessionId); reflexivity.
Qed.


Lemma disconnected_gone sessionId s :
  getSession (disconnected sessionId s) sessionId = None /\
  getBrowser (disconnected sessionId s) sessionId = None.
Proof.
  unfold disconnected.
  match goal with |- context [cancelExecutions _ ?s2] =>
    destruct (cancelExecutions_spec sessionId s2)
      as ((Hss & Hbs & Hcs & Hbi & _) & _)
  end.
  unfold getSession, getBrowser, mapGet in *. rewrite Hss, Hbs, Hcs, Hbi.
  clear Hss Hbs Hcs Hbi.
  destruct (decide (sessionId ∈ clientSessions s)) as [Hs | Hs];
    destruct (sessionStore s !! sessionId) eqn:Hstore; simpl;
    destruct (decide (sessionId ∈ browserInstances s)) as [Hb | Hb];
    destruct (browserStore s !! sessionId) eqn:Hbstore; simpl;
    rewrite ?Hstore, ?Hbstore;
    split; repeat (case_decide; try done); set_solver.
Qed.

Lemma disconnected_idempotent sessionId s :
  disconnected sessionId (disconnected sessionId s) = disconnected sessionId s.
Proof.
  destruct (disconnected_gone sessionId s) as [Hs Hb].
  unfold disconnected at 1. rewrite Hs. simpl. rewrite Hb.
  unfold disconnected. apply cancelExecutions_idempotent.
Qed.

Lemma disconnected_counter sessionId s :
  ConnectionStats.activeConnections (connectionStats (disconnected sessionId s))
  = ConnectionStats.activeConnections (connectionStats s)
    - match getSession s sessionId with Some _ => 1 | None => 0 end.
Proof.
  unfold disconnected.
  match goal with |- context [cancelExecutions _ ?s2] =>
    destruct (cancelExecutions_spec sessionId s2)
      as ((_ & _ & _ & _ & -> & _) & _)
  end.
  destruct (getSession s sessionId); simpl;
    match goal with |- context [getBrowser ?s1 _] =>
      destruct (getBrowser s1 sessionId) end; simpl; lia.
Qed.

Lemma disconnected_cancels sessionId s executionId execution :
  getExecution s executionId = Some execution ->
  ExecutionContext.sessionId execution = sessionId ->
  executionStore (disconnected sessionId s) !! executionId
  = Some (ExecutionContext.setStatus cancelled execution) /\
  executionId ∉ executionQueue (disconnected sessionId s).
Proof.
  intros Hget Hown. unfold disconnected.
  match goal with |- context [cancelExecutions _ ?s2] =>
    destruct (cancelExecutions_spec sessionId s2) as (_ & _ & Hqueue & Hstore);
    assert (executionQueue s2 = executionQueue s /\
            executionStore s2 = executionStore s) as [Hq Hst]
  end.
  { destruct (getSession s sessionId); simpl;
      match goal with |- context [getBrowser ?s1 _] =>
        destruct (getBrowser s1 sessionId) end; done. }
  unfold getExecution, mapGet in Hget.
  destruct (decide (executionId ∈ executionQueue s)) as [Hin |]; [| done].
  assert (ownedBy sessionId
            (match getBrowser
                     (match getSession s sessionId with
                      | Some _ => decActiveConnections (deleteSession sessionId s)
                      | None => s
                      end) sessionId with
             | Some _ =>
                 deleteBrowser sessionId
                   (match getSession s sessionId with
                    | Some _ => decActiveConnections (deleteSession sessionId s)
                    | None => s
                    end)
             | None =>
                 match getSession s sessionId with
                 | Some _ => decActiveConnections (deleteSession sessionId s)
                 | None => s
                 end
             end) executionId = true) as Howned.
  { unfold ownedBy. rewrite Hst, Hget. by apply bool_decide_eq_true_2. }
  split.
  - rewrite Hstore, Hst, Hq. rewrite decide_True by done. by rewrite Hget.
  - rewrite Hqueue. intros [_ Hno]. congruence.
Qed.

(** *** The idle-session sweep *)

Lemma sweepSession_frame s x :
  let s' := sweepSession s x in
  sessionStore s' = sessionStore s /\ browserStore s' = browserStore s /\
  executionStore s' = executionStore s /\
  browserInstances s' = browserInstances s /\
  executionQueue s' = executionQueue s /\
  connectionStats s' = connectionStats s /\
  sessionTimeout s' = sessionTimeout s /\ clock s' = clock s.
Proof.
  unfold sweepSession. destruct (getSession s x); [| done]. by case_match.
Qed.

Lemma sweepSession_keys s x y :
  y ∈ clientSessions (sweepSession s x) <->
  y ∈ clientSessions s /\ ~ (y = x /\ expired s x = true).
Proof.
  unfold sweepSession, getSession, mapGet, expired.
  destruct (decide (x ∈ clientSessions s)) as [Hin | Hout].
  - destruct (sessionStore s !! x) as [c |]; [| set_solver].
    destruct (sessionTimeout s <? clock s - ClientSession.lastActivity c);
      simpl; set_solver.
  - set_solver.
Qed.

Lemma sweep_fold : forall l s,
  let s' := foldl sweepSession s l in
  (sessionStore s' = sessionStore s /\ browserStore s' = browserStore s /\
   executionStore s' = executionStore s /\
   browserInstances s' = browserInstances s /\
   executionQueue s' = executionQueue s /\
   connectionStats s' = connectionStats s /\
   sessionTimeout s' = sessionTimeout s /\ clock s' = clock s) /\
  (forall y, y ∈ clientSessions s' <->
             y ∈ clientSessions s /\ ~ (y ∈ l /\ expired s y = true)).
Proof.
  induction l as [| x l IH]; intros s; simpl.
  { split; [done |]. intros y. split; [| by intros [? _]].
    intros Hy. split; [done |]. intros [Hin _]. by apply elem_of_nil in Hin. }
  destruct (IH (sweepSession s x)) as (Hframe & Hkeys).
  pose proof (sweepSession_frame s x) as Hframe1. simpl in Hframe1.
  assert (forall y, expired (sweepSession s x) y = expired s y) as Hexp.
  { intros y. unfold expired.
    destruct Hframe1 as (-> & _ & _ & _ & _ & _ & -> & ->). done. }
  split.
  - destruct Hframe as (-> & -> & -> & -> & -> & -> & -> & ->). exact Hframe1.
  - intros y. rewrite Hkeys, sweepSession_keys, Hexp, elem_of_cons.
    destruct (decide (y = x)) as [-> | Hne]; naive_solver.
Qed.

End TeardownFacts.

(* ===================================================================== *)
(** ** Teardown: disconnection, the idle sweep                            *)
(* ===================================================================== *)

Module TeardownClaims.
Import Controller SocketController Scenario TeardownFacts.

(** C5.  When a connection is closed, every execution of its session that is
    in the queue (in particular a running one) has its status set to
    [cancelled] and is taken out of the queue within [handleDisconnection],
    which sends no event and ends without an exception. *)
Theorem disconnection_cancels_running (sessionId reason : string)
    (s : Controller.t) (executionId : string) (execution : ExecutionContext.t) :
  getExecution s executionId = Some execution ->
  ExecutionContext.sessionId execution = sessionId ->
  ExecutionContext.status execution = running ->
  let r := advance (handleDisconnection sessionId reason) s in
  r.2 = Finished (inl tt) /\ events r.1.2 = [] /\
  executionStore r.1.1 !! executionId
  = Some (ExecutionContext.setStatus cancelled execution) /\
  (executionId ∉ executionQueue r.1.1) /\
  getExecution r.1.1 executionId = None.
Proof.
  intros Hget Hown _ r. subst r. rewrite advance_handleDisconnection. simpl.
  destruct (disconnected_cancels sessionId s executionId execution Hget Hown)
    as [Hstore Hqueue].
  split; [done |]. split; [by destruct (getBrowser s sessionId) |].
  split; [exact Hstore |]. split; [exact Hqueue |].
  unfold getExecution, mapGet. by rewrite decide_False.
Qed.

Lemma disconnection_cancels_running_witness :
  (ExecutionContext.status
     <$> getExecution (System.ctrl inFlight) "e1") = Some running /\
  (ExecutionContext.status
     <$> executionStore
           (advance (handleDisconnection "s1" "transport close")
              (System.ctrl inFlight)).1.1 !! "e1") = Some cancelled /\
  getExecution
    (advance (handleDisconnection "s1" "transport close")
       (System.ctrl inFlight)).1.1 "e1" = None.
Proof.
  destruct (disconnection_cancels_running "s1" "transport close"
              (System.ctrl inFlight) "e1"
              (ExecutionContext.mk "e1" "s1" "go to example.com"
                 [command navigate] 0 1000 [] running))
    as (_ & _ & Hstore & _ & Hget).
  - vm_compute. reflexivity.
  - reflexivity.
  - reflexivity.
  - split; [vm_compute; reflexivity |]. split; [| exact Hget].
    rewrite Hstore. reflexivity.
Defined.

(** C9.  Handling the disconnection of a session a second time changes
    nothing: it ends without an exception, starts no cleanup, and leaves the
    controller (the three tables, the counters) as the first call left it;
    the two calls together lower the active-connection counter by at most
    one. *)
Theorem disconnection_idempotent (sessionId reason reason' : string)
    (s : Controller.t) :
  let first := advance (handleDisconnection sessionId reason) s in
  let second := advance (handleDisconnection sessionId reason') first.1.1 in
  first.2 = Finished (inl tt) /\ second.2 = Finished (inl tt) /\
  second.1.1 = first.1.1 /\ second.1.2 = [] /\
  ConnectionStats.activeConnections (connectionStats s) - 1
  <= ConnectionStats.activeConnections (connectionStats second.1.1).
Proof.
  intros first second. subst first second.
  rewrite !advance_handleDisconnection. cbn [fst snd].
  destruct (disconnected_gone sessionId s) as [_ Hb].
  rewrite disconnected_idempotent, Hb, disconnected_counter.
  repeat split; try done. destruct (getSession s sessionId); lia.
Qed.

(** C4, as the code has it.  [handleDisconnection] removes the session entry
    and the browser instance entry together and starts the cleanup of the
    browser when there was an instance.  The idle-session sweep removes the
    sessions idle for longer than the timeout and nothing else: the browser
    instance table and the browser objects are left as they were. *)
Theorem session_removal_and_browser (sessionId reason : string)
    (s : Controller.t) :
  let r := advance (handleDisconnection sessionId reason) s in
  let swept := cleanupInactiveSessions s in
  (getSession r.1.1 sessionId = None /\ getBrowser r.1.1 sessionId = None /\
   r.1.2 = match getBrowser s sessionId with
           | Some _ => [OCall cleanup]
           | None => []
           end) /\
  (browserInstances swept = browserInstances s /\
   browserStore swept = browserStore s /\
   forall y, y ∈ clientSessions swept <->
             y ∈ clientSessions s /\ expired s y = false).
Proof.
  intros r swept. subst r swept. rewrite advance_handleDisconnection. simpl.
  destruct (disconnected_gone sessionId s) as [Hs Hb].
  split; [done |].
  destruct (sweep_fold (elements (clientSessions s)) s)
    as ((_ & Hbs & _ & Hbi & _) & Hkeys).
  split; [exact Hbi |]. split; [exact Hbs |].
  intros y. unfold cleanupInactiveSessions. rewrite Hkeys, elem_of_elements.
  destruct (expired s y); naive_solver.
Qed.

(** C4, as stated, fails: after the idle-session sweep has removed the
    session of a client idle for more than the timeout, the browser instance
    entry of that session is still there, and no cleanup was started. *)
Lemma idle_sweep_counterexample :
  getSession (cleanupInactiveSessions idleSince) "s1" = None /\
  (BrowserInstanceState.status
     <$> getBrowser (cleanupInactiveSessions idleSince) "s1") = Some ready /\
  (System.log
     <$> System.exec (System.start connected)
           [System.tick 1800001; System.sessionTimer]) = Some [].
Proof. vm_compute. done. Qed.

End TeardownClaims.

(* ===================================================================== *)
(** ** Rate limiting                                                      *)
(* ===================================================================== *)

Module RateLimitClaims.
Import SecurityManager SecurityManagerFacts.

(** C10, as the code has it.  A call that comes more than [windowMs] after
    the client's previous call (or is its first call) opens a window: it
    returns [true] and counts as the first request.  Of the calls that
    follow, each at most [windowMs] after the one before it, the [j]-th
    returns [true] exactly when [j < maxRequests]: the first
    [maxRequests - 1] of them are let through, every further one is refused.
    The calls of one client change neither the counters of another client
    nor the answers it gets. *)
Theorem rate_limit_window (c : string) (maxRequests windowMs t0 : Z)
    (times : list Z) (s : t) :
  windowMs < t0 - getOr0 (lastRequestTime s) c ->
  gapsWithin windowMs t0 times ->
  let r := checkAll c maxRequests windowMs (t0 :: times) s in
  r.1 = true :: burstAnswers maxRequests 1 (length times) /\
  forall c', c ≠ c' ->
    getOr0 (requestCount r.2) c' = getOr0 (requestCount s) c' /\
    getOr0 (lastRequestTime r.2) c' = getOr0 (lastRequestTime s) c' /\
    forall maxRequests' windowMs' now,
      (checkRateLimit c' maxRequests' windowMs' now r.2).1
      = (checkRateLimit c' maxRequests' windowMs' now s).1.
Proof.
  intros Hopen Hgaps r. subst r. split.
  - simpl.
    pose proof (checkRateLimit_reset c maxRequests windowMs t0 s Hopen)
      as (Hr & Hcount & Hlast).
    destruct (checkRateLimit c maxRequests windowMs t0 s) as [r s1]; simpl in *.
    pose proof (checkAll_within c maxRequests windowMs times s1 1) as Hrest.
    destruct (checkAll c maxRequests windowMs times s1) as [rs s2]; simpl in *.
    subst r. f_equal. apply Hrest; [done | by rewrite Hlast].
  - intros c' Hne.
    destruct (checkAll_other c c' maxRequests windowMs (t0 :: times) s Hne)
      as [Hcount Hlast].
    split; [exact Hcount |]. split; [exact Hlast |].
    intros m' w' now. by apply checkRateLimit_answer.
Qed.

Lemma rate_limit_window_witness :
  60000 < 100000 - getOr0 (lastRequestTime reset) "10.0.0.1" /\
  gapsWithin 60000 100000 [100010; 100020; 100030; 100040] /\
  (checkAll "10.0.0.1" 3 60000 [100000; 100010; 100020; 100030; 100040] reset).1
  = [true; true; true; false; false].
Proof.
  assert (60000 < 100000 - getOr0 (lastRequestTime reset) "10.0.0.1") as Hopen
    by (vm_compute; reflexivity).
  assert (gapsWithin 60000 100000 [100010; 100020; 100030; 100040]) as Hgaps
    by (vm_compute; intuition discriminate).
  split; [exact Hopen |]. split; [exact Hgaps |].
  apply (proj1 (rate_limit_window "10.0.0.1" 3 60000 100000
                  [100010; 100020; 100030; 100040] reset Hopen Hgaps)).
Defined.

(** C10, as stated, fails: with a limit of one request, the first call that
    comes within the window of its predecessor is already refused, while the
    statement lets the first [maxRequests] such calls through. *)
Lemma rate_limit_counterexample :
  (checkAll "10.0.0.1" 1 60000 [100000; 100001] reset).1 = [true; false] /\
  true :: statedAnswers 1 1 = [true; true].
Proof. vm_compute. done. Qed.

End RateLimitClaims.

(* ===================================================================== *)
(** ** Admission, release and reset of the browser instance               *)
(* ===================================================================== *)

Module ResourceClaims.
Import Controller SocketController Scenario.

Lemma getBrowser_inv s sessionId b :
  getBrowser s sessionId = Some b ->
  sessionId ∈ browserInstances s /\ browserStore s !! sessionId = Some b.
Proof.
  unfold getBrowser, mapGet. by case_decide.
Qed.

Lemma getBrowser_updBrowser f sessionId s b :
  getBrowser s sessionId = Some b ->
  getBrowser (updBrowser f sessionId s) sessionId = Some (f b).
Proof.
  intros [Hin Hb]%getBrowser_inv. unfold getBrowser, mapGet. simpl.
  rewrite decide_True by done. by rewrite lookup_alter_eq, Hb.
Qed.

(** C8, as the code has it.  [handleResetBrowser] never throws.  Without a
    browser instance for the session it sends the error "Browser reset
    failed" with the detail "Browser instance not found" and changes
    nothing.  With an instance it goes ahead whatever the status is (also
    [busy], with a command in flight): it writes the status [initializing],
    announces it and asks the browser service for the reset.  [s1] is the
    controller as the handler finds it when the answer comes, after whatever
    the other handlers did while it waited.  When the reset succeeded, the
    handler writes [ready] to the instance, clears URL, title and error,
    sets the time of last activity, and announces [ready]; when it failed,
    the handler sends the error "Browser reset failed" and writes nothing
    more: the instance is left as [s1] has it. *)
Theorem reset_goes_ahead (env : Env) (intf : Interference)
    (sessionId : string) (w : World.t) :
  let x := run env intf (handleResetBrowser sessionId) w in
  let s1 := intf (World.awaits w)
              (updBrowser (BrowserInstanceState.setStatus initializing)
                 sessionId (World.ctrl w)) in
  Run.result x = inl tt /\
  match getBrowser (World.ctrl w) sessionId with
  | None =>
      Run.obs x = [OEmit (error_event "Browser reset failed" BROWSER_INIT_FAILED
                            "Browser instance not found")] /\
      Run.final x = World.ctrl w
  | Some b =>
      match env _ resetBrowser (World.calls w SReset) with
      | inl u =>
          Run.obs x = [OEmit (browser_status initializing); OCall resetBrowser;
                       OAnswer resetBrowser (inl u);
                       OEmit (browser_status ready)] /\
          Run.final x
          = updBrowser (fun b' =>
              BrowserInstanceState.setError None
                (BrowserInstanceState.setLastActivity (clock s1)
                   (BrowserInstanceState.setPage None None
                      (BrowserInstanceState.setStatus ready b'))))
              sessionId s1 /\
          (BrowserInstanceState.status
             <$> browserStore (Run.final x) !! sessionId)
          = (fun _ => ready) <$> browserStore s1 !! sessionId
      | inr e =>
          Run.obs x = [OEmit (browser_status initializing); OCall resetBrowser;
                       OAnswer resetBrowser (inr e);
                       OEmit (error_event "Browser reset failed"
                                BROWSER_INIT_FAILED
                                (messageOr "Unknown error" e))] /\
          Run.final x = s1
      end
  end /\
  (intf = undisturbed ->
   forall b, getBrowser (World.ctrl w) sessionId = Some b ->
   getBrowser s1 sessionId
   = Some (BrowserInstanceState.setStatus initializing b)).
Proof.
  intros x s1. subst x s1. unfold handleResetBrowser. simpl.
  split; [| split].
  - destruct (getBrowser (World.ctrl w) sessionId) as [b |]; simpl; [| done].
    by destruct (env unit resetBrowser (World.calls w SReset)).
  - destruct (getBrowser (World.ctrl w) sessionId) as [b |] eqn:Hb; simpl.
    2: { by destruct w. }
    destruct (env unit resetBrowser (World.calls w SReset)) as [u | e]; simpl.
    + split; [done |]. split; [done |]. unfold Run.final. simpl.
      rewrite lookup_alter_eq.
      by destruct (browserStore (intf (World.awaits w) _) !! sessionId).
    + done.
  - intros -> b Hb. by apply getBrowser_updBrowser.
Qed.

(** The reset of [resetInFlight], but with a browser that fails both the
    command in flight and the reset: the handler of the command writes
    [error] while the reset waits, the reset then fails and writes nothing,
    and the instance is left in [error]. *)
Lemma failed_reset_keeps_what_others_wrote :
  ((fun sys => BrowserInstanceState.status <$> getBrowser (System.ctrl sys) "s1")
     <$> System.exec inFlight
           [System.reset_browser "s1"; System.settle 0 broken;
            System.settle 1 broken]) = Some (Some error) /\
  ((fun sys => BrowserInstanceState.status <$> getBrowser (System.ctrl sys) "s1")
     <$> System.exec inFlight
           [System.reset_browser "s1"; System.settle 1 broken])
  = Some (Some initializing).
Proof. vm_compute. done. Qed.

(** C8, as stated, fails: a reset requested while a command is with the
    browser (status [busy], execution [e1] running) is not refused; the
    browser is reset and the instance is [ready] again while [e1] is still
    running. *)
Lemma reset_while_busy_counterexample :
  (BrowserInstanceState.status <$> getBrowser (System.ctrl inFlight) "s1")
  = Some busy /\
  System.runningFor "s1" (System.ctrl inFlight) = ["e1"] /\
  ((fun sys => drop (length (System.log inFlight)) (System.log sys))
     <$> resetInFlight)
  = Some [("s1", OEmit (browser_status initializing));
          ("s1", OCall resetBrowser);
          ("s1", OAnswer resetBrowser (inl tt));
          ("s1", OEmit (browser_status ready))] /\
  ((fun sys => BrowserInstanceState.status <$> getBrowser (System.ctrl sys) "s1")
     <$> resetInFlight) = Some (Some ready) /\
  ((fun sys => System.runningFor "s1" (System.ctrl sys)) <$> resetInFlight)
  = Some ["e1"].
Proof. vm_compute. done. Qed.

(** C7 at a batch that fails: after [navigate, click, type] where [click]
    fails the instance is in state [error], but its current command is
    still the first command of the batch; after a batch that succeeds the
    instance is [ready] and the field is cleared. *)
Lemma failed_batch_keeps_current_command :
  ((fun b => (BrowserInstanceState.status b,
              BrowserInstanceState.currentCommand b))
     <$> getBrowser (Run.final clickFailsRun) "s1")
  = Some (error, Some (command navigate)) /\
  ((fun b => (BrowserInstanceState.status b,
              BrowserInstanceState.currentCommand b))
     <$> getBrowser (Run.final loginRun) "s1")
  = Some (ready, None).
Proof. vm_compute. done. Qed.

(** C2 at two overlapping requests: the second request arrives while the
    first one waits for its screenshot, the status is still [ready], both
    are admitted, and in the end two executions of the session are running.
    The same happens to a request that follows a reset made while a command
    is with the browser. *)
Lemma overlapping_requests_both_running :
  ((fun sys => System.runningFor "s1" (System.ctrl sys)) <$> overlapping)
  = Some ["e1"; "e2"] /\
  ((fun sys => System.runningFor "s1" (System.ctrl sys)) <$> requestAfterReset)
  = Some ["e1"; "e2"].
Proof. vm_compute. done. Qed.

(** The part of C2 that holds: a request that finds the instance [busy] is
    answered at once with "Browser not ready. Status: busy"; it calls no
    collaborator, and only counts as a failed command. *)
Lemma busy_request_refused sessionId executionId (data : CommandData.t) s
    session b :
  getSession s sessionId = Some session ->
  getBrowser s sessionId = Some b ->
  BrowserInstanceState.status b = busy ->
  advance (handleExecuteCommand sessionId executionId (Some data)) s
  = (deleteExecution executionId (incFailedCommands s),
     [OEmit (command_result false None
               (Some "Browser not ready. Status: busy") 0)],
     Finished (inl tt)).
Proof.
  intros Hs Hb Hbusy. unfold handleExecuteCommand. simpl.
  rewrite Hs, Hb. simpl. rewrite Hbusy. simpl. by rewrite Z.sub_diag.
Qed.

End ResourceClaims.

(* ===================================================================== *)
(** ** Reasoning about a handler that runs alone                          *)
(* ===================================================================== *)

Module AloneFacts.

Lemma alone_mono {R} (p : proc R) :
  forall s (Q Q' : Controller.t -> list Obs -> R + thrown -> Prop),
  (forall s' tr r, Q s' tr r -> Q' s' tr r) -> alone p s Q -> alone p s Q'.
Proof.
  induction p as [r | e | k IH | s0 k IH | e k IH | A c k IH | A c k IH];
    intros s Q Q' HQ; simpl; eauto.
  - apply IH. intros s' tr r. apply HQ.
  - apply IH. intros s' tr r. apply HQ.
  - intros H o. eapply IH; [| apply H]. intros s' tr r. apply HQ.
Qed.

Lemma alone_bind {R S} (p : proc R) (f : R -> proc S) :
  forall s (Q : Controller.t -> list Obs -> S + thrown -> Prop),
  alone p s (fun s1 tr r =>
    match r with
    | inl v => alone (f v) s1 (fun s2 tr' => Q s2 (tr ++ tr'))
    | inr e => Q s1 tr (inr e)
    end) ->
  alone (bind p f) s Q.
Proof.
  induction p as [r | e | k IH | s0 k IH | e k IH | A c k IH | A c k IH];
    intros s Q; simpl; eauto.
Qed.

Lemma alone_tryCatch {R} (p : proc R) (h : thrown -> proc R) :
  forall s (Q : Controller.t -> list Obs -> R + thrown -> Prop),
  alone p s (fun s1 tr r =>
    match r with
    | inl v => Q s1 tr (inl v)
    | inr e => alone (h e) s1 (fun s2 tr' => Q s2 (tr ++ tr'))
    end) ->
  alone (tryCatch p h) s Q.
Proof.
  induction p as [r | e | k IH | s0 k IH | e k IH | A c k IH | A c k IH];
    intros s Q; simpl; eauto.
Qed.

Lemma alone_tryFinally {R} (p : proc R) (f : proc unit) :
  forall s (Q : Controller.t -> list Obs -> R + thrown -> Prop),
  alone p s (fun s1 tr r =>
    alone f s1 (fun s2 tr' r' =>
      Q s2 (tr ++ tr') (match r' with inl _ => r | inr e => inr e end))) ->
  alone (tryFinally p f) s Q.
Proof.
  induction p as [r | e | k IH | s0 k IH | e k IH | A c k IH | A c k IH];
    intros s Q; simpl; eauto;
    intros H; apply alone_bind; (eapply alone_mono; [| apply H]);
    intros s' tr [[] | e']; simpl; rewrite ?app_nil_r; auto.
Qed.

(** An undisturbed run is such a course of events. *)
Lemma run_alone env {R} (p : proc R) :
  forall (Q : Controller.t -> list Obs -> R + thrown -> Prop) w,
  alone p (World.ctrl w) Q ->
  Q (Run.final (run env undisturbed p w)) (Run.obs (run env undisturbed p w))
    (Run.result (run env undisturbed p w)).
Proof.
  induction p as [r | e | k IH | s0 k IH | e k IH | A c k IH | A c k IH];
    intros Q w H; simpl in *.
  - exact H.
  - exact H.
  - apply IH, H.
  - apply (IH Q (World.mk s0 (World.awaits w) (World.calls w))), H.
  - apply (IH (fun s' tr => Q s' (OEmit e :: tr))). exact H.
  - apply (IH (fun s' tr => Q s' (OCall c :: tr)) (World.called c w)). exact H.
  - apply (IH _ (fun s' tr => Q s' (OCall c :: OAnswer c _ :: tr))
             (World.mk _ _ _)). apply H.
Qed.

End AloneFacts.

Module EffectFacts.
Import Controller SocketController Shape ShapeFacts Effect AloneFacts.

Lemma responses_app tr tr' : responses (tr ++ tr') = responses tr ++ responses tr'.
Proof. unfold responses. by rewrite answers_app, omap_app. Qed.

Lemma idle_responses tr : forallb idle tr = true -> responses tr = [].
Proof.
  intros H. destruct (idle_facts tr H) as (_ & _ & _ & Ha & _).
  unfold responses. by rewrite Ha.
Qed.

Lemma evolves_refl Rb Re sessionId executionId s :
  Reflexive Rb -> Reflexive Re -> evolves Rb Re sessionId executionId s s.
Proof.
  intros Hb He. by repeat split.
Qed.

Lemma option_Forall2_trans {A} (R R' R'' : relation A) x y z :
  (forall a b c, R a b -> R' b c -> R'' a c) ->
  option_Forall2 R x y -> option_Forall2 R' y z -> option_Forall2 R'' x z.
Proof. intros H [a b Hab |]; inversion 1; subst; constructor; eauto. Qed.

Lemma evolves_trans Rb Rb' Rb'' Re Re' Re'' sessionId executionId s s1 s2 :
  (forall a b c, Rb a b -> Rb' b c -> Rb'' a c) ->
  (forall a b c, Re a b -> Re' b c -> Re'' a c) ->
  evolves Rb Re sessionId executionId s s1 ->
  evolves Rb' Re' sessionId executionId s1 s2 ->
  evolves Rb'' Re'' sessionId executionId s s2.
Proof.
  intros Hb He (H1 & H2 & H3 & H4 & H5 & H6 & H7 & H8 & H9 & H10 & H11)
    (G1 & G2 & G3 & G4 & G5 & G6 & G7 & G8 & G9 & G10 & G11).
  repeat split; try congruence.
  - intros k Hk. by rewrite G8, H8.
  - eapply option_Forall2_trans; eauto.
  - intros k Hk. by rewrite G10, H10.
  - eapply option_Forall2_trans; eauto.
Qed.

Lemma evolves_mono (Rb Rb' : relation BrowserInstanceState.t)
    (Re Re' : relation ExecutionContext.t) sessionId executionId s s' :
  (forall a b, Rb a b -> Rb' a b) -> (forall a b, Re a b -> Re' a b) ->
  evolves Rb Re sessionId executionId s s' ->
  evolves Rb' Re' sessionId executionId s s'.
Proof.
  intros Hb He (H1 & H2 & H3 & H4 & H5 & H6 & H7 & H8 & H9 & H10 & H11).
  repeat split; try done.
  - destruct H9; constructor; auto.
  - destruct H11; constructor; auto.
Qed.

Lemma evolves_updExecution Rb (Re : relation ExecutionContext.t) f
    sessionId executionId s :
  Reflexive Rb -> (forall e, Re e (f e)) ->
  evolves Rb Re sessionId executionId s (updExecution f executionId s).
Proof.
  intros Hb He. repeat split; try done; simpl.
  - intros k Hk. by rewrite lookup_alter_ne.
  - rewrite lookup_alter_eq.
    by destruct (executionStore s !! executionId); constructor.
Qed.

Lemma evolves_updBrowser (Rb : relation BrowserInstanceState.t) Re f
    sessionId executionId s :
  Reflexive Re -> (forall b, Rb b (f b)) ->
  evolves Rb Re sessionId executionId s (updBrowser f sessionId s).
Proof.
  intros He Hb. repeat split; try done; simpl.
  - intros k Hk. by rewrite lookup_alter_ne.
  - rewrite lookup_alter_eq.
    by destruct (browserStore s !! sessionId); constructor.
Qed.

Lemma samePage_refl : Reflexive samePage.
Proof. by intros b. Qed.

Lemma grown_nil_refl : Reflexive (grown []).
Proof. intros e. repeat split. by rewrite app_nil_r. Qed.

#[local] Existing Instance samePage_refl.
#[local] Existing Instance grown_nil_refl.

Lemma samePage_trans a b c : samePage a b -> samePage b c -> samePage a c.
Proof. unfold samePage. naive_solver congruence. Qed.

Lemma grown_trans rs rs' a b c :
  grown rs a b -> grown rs' b c -> grown (rs ++ rs') a c.
Proof.
  intros (H1 & H2 & H3 & H4 & H5 & H6) (G1 & G2 & G3 & G4 & G5 & G6).
  repeat split; try congruence. by rewrite G6, H6, app_assoc.
Qed.

(** *** [validateCommandInput] and [updateBrowserState] *)

Lemma validateCommandInput_alone userInput s :
  alone (validateCommandInput userInput) s (fun s' tr r =>
    s' = s /\ forallb idle tr = true /\ exists v, r = inl v).
Proof.
  unfold validateCommandInput.
  destruct userInput as [[| a rest] |]; [simpl; eauto | | simpl; eauto].
  cbv iota. generalize (String a rest). intros text.
  destruct (1000 <? Z.of_nat (utf16Length text)); [simpl; eauto |].
  simpl. intros [check | e]; simpl; [| eauto].
  destruct (negb (SecurityCheck.safe check)); simpl; eauto.
Qed.

Lemma updateBrowserState_alone sessionId s :
  alone (updateBrowserState sessionId) s (fun s' tr r =>
    r = inl tt /\ forallb idle tr = true /\ refreshedPage sessionId s s').
Proof.
  unfold updateBrowserState, refreshedPage. simpl.
  destruct (getBrowser s sessionId); simpl; [| eauto].
  intros [url | e]; simpl; [| eauto].
  intros [title | e]; simpl; eauto 10.
Qed.

Lemma refreshedPage_evolves sessionId executionId s s' :
  refreshedPage sessionId s s' ->
  evolves samePage (grown []) sessionId executionId s s'.
Proof.
  intros [-> | (url & title & ->)].
  - apply evolves_refl; apply _.
  - apply evolves_updBrowser; [apply _ | done].
Qed.

End EffectFacts.

(* ===================================================================== *)
(** ** The effects of a request served alone                              *)
(* ===================================================================== *)

Module RequestFacts.
Import Controller SocketController Shape ShapeFacts Effect AloneFacts EffectFacts.

#[local] Existing Instance samePage_refl.
#[local] Existing Instance grown_nil_refl.

Local Arguments updateBrowserState : simpl never.
Local Arguments validateCommandInput : simpl never.
Local Arguments executeCommands : simpl never.

Lemma responses_answer c r tr :
  responses (OCall (executeCommand c) :: OAnswer (executeCommand c) (inl r) :: tr)
  = r :: responses tr.
Proof. done. Qed.

Lemma grown_setCurrentIndex i e : grown [] e (ExecutionContext.setCurrentIndex i e).
Proof. repeat split. simpl. by rewrite app_nil_r. Qed.

Lemma grown_setStatus st e : grown [] e (ExecutionContext.setStatus st e).
Proof. repeat split. simpl. by rewrite app_nil_r. Qed.

Lemma grown_pushResult r e : grown [r] e (ExecutionContext.pushResult r e).
Proof. by repeat split. Qed.

Lemma evolves_step rs rs' sessionId executionId s s1 s2 :
  evolves samePage (grown rs) sessionId executionId s s1 ->
  evolves samePage (grown rs') sessionId executionId s1 s2 ->
  evolves samePage (grown (rs ++ rs')) sessionId executionId s s2.
Proof.
  apply evolves_trans; [apply samePage_trans | apply grown_trans].
Qed.

Lemma forCommands_alone sessionId executionId n : forall rest i s,
  alone (forCommands sessionId executionId n i rest) s (fun s' tr r =>
    evolves samePage (grown (responses tr)) sessionId executionId s s' /\
    translated tr = [] /\
    (r = inl tt -> length (responses tr) = length rest)).
Proof.
  induction rest as [| command rest IH]; intros i s.
  { simpl. split; [apply evolves_refl; apply _ | done]. }
  assert (Htail : forall s1,
    alone (updateBrowserState sessionId ;;
           forCommands sessionId executionId n (S i) rest)%proc s1
      (fun s' tr r =>
         evolves samePage (grown (responses tr)) sessionId executionId s1 s' /\
         translated tr = [] /\
         (r = inl tt -> length (responses tr) = length rest))).
  { intros s1. apply alone_bind.
    eapply alone_mono; [| apply updateBrowserState_alone].
    intros s2 tr2 r2 (-> & Hidle & Hpage).
    eapply alone_mono; [| apply (IH (S i) s2)].
    intros s3 tr3 r3 (Hev & Htr & Hlen).
    destruct (idle_facts tr2 Hidle) as (_ & _ & _ & _ & Ht).
    rewrite responses_app, translated_app, (idle_responses tr2 Hidle), Ht.
    split; [| done].
    eapply (evolves_step [] (responses tr3));
      [by apply refreshedPage_evolves | done]. }
  cbn. intros [result | e]; cbn.
  2:{ split; [| done].
      apply evolves_updExecution; [apply _ | apply grown_setCurrentIndex]. }
  assert (Hpush : evolves samePage (grown [result]) sessionId executionId s
            (updExecution (ExecutionContext.pushResult result) executionId
               (updExecution (ExecutionContext.setCurrentIndex i) executionId s))).
  { eapply (evolves_step [] [result]).
    - apply evolves_updExecution; [apply _ | apply grown_setCurrentIndex].
    - apply evolves_updExecution; [apply _ | apply grown_pushResult]. }
  destruct (BrowserResponse.success result) eqn:Hok; cbn.
  2:{ split; [| done].
      eapply (evolves_step [result] []);
        [apply Hpush | apply evolves_updExecution; [apply _ | apply grown_setStatus]]. }
  destruct (takesScreenshot (BrowserCommand.action command)); cbn.
  - intros [shot | e]; cbn.
    + eapply alone_mono; [| apply Htail].
      intros s3 tr3 r3 (Hev & Htr & Hlen). cbn.
      fold (answers tr3) (responses tr3) (translated tr3).
      split; [| split; [done | intros Hr; by rewrite Hlen]].
      eapply (evolves_step [result] (responses tr3)); done.
    + split; [| done].
      eapply (evolves_step [result] []);
        [apply Hpush | apply evolves_refl; apply _].
  - eapply alone_mono; [| apply Htail].
    intros s3 tr3 r3 (Hev & Htr & Hlen). cbn.
    fold (answers tr3) (responses tr3) (translated tr3).
    split; [| split; [done | intros Hr; by rewrite Hlen]].
    eapply (evolves_step [result] (responses tr3)); done.
Qed.

Local Arguments translated : simpl never.
Local Arguments responses : simpl never.
Local Arguments events : simpl never.
Local Arguments evolves : simpl never.

Lemma evolves_execution Rb Re sessionId executionId s s' e :
  evolves Rb Re sessionId executionId s s' ->
  executionStore s !! executionId = Some e ->
  exists e', executionStore s' !! executionId = Some e' /\ Re e e'.
Proof.
  intros (_ & _ & _ & _ & _ & _ & _ & _ & _ & _ & H) He.
  rewrite He in H. inversion H; eauto.
Qed.

Lemma evolves_browser Rb Re sessionId executionId s s' b :
  evolves Rb Re sessionId executionId s s' ->
  browserStore s !! sessionId = Some b ->
  exists b', browserStore s' !! sessionId = Some b' /\ Rb b b'.
Proof.
  intros (_ & _ & _ & _ & _ & _ & _ & _ & H & _) Hb.
  rewrite Hb in H. inversion H; eauto.
Qed.

Lemma getBrowser_Some s sessionId b :
  getBrowser s sessionId = Some b ->
  sessionId ∈ browserInstances s /\ browserStore s !! sessionId = Some b.
Proof. unfold getBrowser, mapGet. by case_decide. Qed.

Lemma executeCommands_alone sessionId execution s b :
  getBrowser s sessionId = Some b ->
  executionStore s !! ExecutionContext.id execution = Some execution ->
  alone (executeCommands sessionId execution) s (fun s' tr r =>
    translated tr = [] /\
    evolves (fun _ _ => True) (grown (responses tr)) sessionId
      (ExecutionContext.id execution) s s' /\
    exists b', browserStore s' !! sessionId = Some b' /\
    match r with
    | inl _ =>
        length (responses tr) = length (ExecutionContext.commands execution) /\
        last (events tr)
        = Some (command_result true
                  (Some (ExecutionContext.results execution ++ responses tr))
                  None (clock s - ExecutionContext.startTime execution)) /\
        (ExecutionContext.status <$>
           executionStore s' !! ExecutionContext.id execution) = Some completed /\
        BrowserInstanceState.status b' = ready /\
        BrowserInstanceState.currentCommand b' = None /\
        BrowserInstanceState.error b' = BrowserInstanceState.error b
    | inr e =>
        (ExecutionContext.status <$>
           executionStore s' !! ExecutionContext.id execution) = Some failed /\
        BrowserInstanceState.status b' = error /\
        BrowserInstanceState.error b'
        = Some (ErrorInfo.mk (messageOr "Command execution failed" e)
                  COMMAND_EXECUTION_FAILED (clock s))
    end).
Proof.
  intros Hb He. destruct (getBrowser_Some _ _ _ Hb) as [Hin Hb'].
  unfold executeCommands. cbn. rewrite Hb. cbn.
  apply alone_tryCatch, alone_bind.
  eapply alone_mono; [| apply forCommands_alone].
  intros s2 tr2 r2 (Hev & Htr & Hlen).
  destruct (evolves_execution _ _ _ _ _ _ _ Hev He) as (e2 & He2 & Hg).
  destruct (evolves_browser _ _ _ _ _ _
              (BrowserInstanceState.setCurrentCommand
                 (ExecutionContext.commands execution
                    !! ExecutionContext.currentIndex execution)
                 (BrowserInstanceState.setStatus busy b)) Hev)
    as (b2 & Hb2 & Hsame).
  { simpl. by rewrite lookup_alter_eq, Hb'. }
  assert (Hs2 : evolves (fun _ _ => True) (grown (responses tr2)) sessionId
                  (ExecutionContext.id execution) s s2).
  { eapply (evolves_trans (fun _ _ => True) samePage (fun _ _ => True)
              (grown []) (grown (responses tr2)) (grown (responses tr2)));
      [done | intros x y z; apply (grown_trans [] (responses tr2))
      | apply evolves_updBrowser; [apply _ | done] | apply Hev]. }
  destruct r2 as [[] | e]; cbn.
  - rewrite translated_app, responses_app, events_app, Htr.
    change (responses [_; _]) with (@nil BrowserResponse.t).
    rewrite (app_nil_r (responses tr2)).
    split; [done |]. split.
    { eapply (evolves_trans (fun _ _ => True) (fun _ _ => True) (fun _ _ => True)
                (grown (responses tr2)) (grown []) (grown (responses tr2)));
        [done | intros x y z Hx Hy; rewrite <- (app_nil_r (responses tr2));
                apply (grown_trans _ _ x y z Hx Hy)
        | apply Hs2 |].
      eapply (evolves_trans (fun _ _ => True) (fun _ _ => True) (fun _ _ => True)
                (grown []) (grown []) (grown []));
        [done | intros x y z; apply (grown_trans [] [])
        | apply evolves_updExecution; [done | apply grown_setStatus]
        | apply evolves_updBrowser; [apply _ | done] ]. }
    simpl. rewrite lookup_alter_eq, Hb2. simpl. eexists; split; [done |].
    destruct Hs2 as (_ & _ & _ & _ & _ & _ & Hclock & _).
    destruct Hg as (_ & _ & _ & _ & _ & Hres).
    destruct Hsame as (_ & _ & _ & _ & _ & Herr).
    split; [auto |]. split.
    { unfold resultsOf. simpl. rewrite lookup_alter_eq, He2. simpl.
      rewrite Hres, Hclock.
      change (events [OEmit ?a; OEmit ?r]) with ([a] ++ [r]).
      by rewrite app_assoc, last_snoc. }
    rewrite lookup_alter_eq, He2. by simpl in *.
  - rewrite !app_nil_r. split; [done |]. split.
    { eapply (evolves_trans (fun _ _ => True) (fun _ _ => True) (fun _ _ => True)
                (grown (responses tr2)) (grown []) (grown (responses tr2)));
        [done | intros x y z Hx Hy; rewrite <- (app_nil_r (responses tr2));
                apply (grown_trans _ _ x y z Hx Hy)
        | apply Hs2 |].
      eapply (evolves_trans (fun _ _ => True) (fun _ _ => True) (fun _ _ => True)
                (grown []) (grown []) (grown []));
        [done | intros x y z; apply (grown_trans [] [])
        | apply evolves_updExecution; [done | apply grown_setStatus]
        | apply evolves_updBrowser; [apply _ | done] ]. }
    simpl. rewrite !lookup_alter_eq, Hb2, He2. simpl. eexists; split; [done |].
    destruct Hs2 as (_ & _ & _ & _ & _ & _ & Hclock & _).
    by rewrite Hclock.
Qed.

Local Arguments completedOk : simpl never.

Lemma completedOk_failure tr data message t :
  completedOk (tr ++ [OEmit (command_result false data message t)]) = false.
Proof.
  unfold completedOk. rewrite events_app.
  change (events [OEmit ?e]) with [e]. by rewrite last_snoc.
Qed.

Lemma last_events_app tr tr' e :
  last (events tr') = Some e -> last (events (tr ++ tr')) = Some e.
Proof. intros H. by rewrite events_app, last_app, H. Qed.

Lemma request_trace calls mid tr commands :
  forallb idle calls = true ->
  translated mid = [commands] -> responses mid = [] -> translated tr = [] ->
  translated (calls ++ mid ++ tr) = [commands] /\
  responses (calls ++ mid ++ tr) = responses tr /\
  forall e, last (events tr) = Some e ->
            last (events (calls ++ mid ++ tr)) = Some e.
Proof.
  intros Hcalls Hmid Hmid' Htr.
  destruct (idle_facts calls Hcalls) as (_ & _ & _ & _ & Hnone).
  rewrite !translated_app, !responses_app, Hnone, Hmid, Hmid', Htr,
    (idle_responses calls Hcalls).
  repeat split. intros e He. by do 2 apply last_events_app.
Qed.

Lemma snoc_event tr e :
  translated (tr ++ [OEmit e]) = translated tr /\
  responses (tr ++ [OEmit e]) = responses tr /\
  last (events (tr ++ [OEmit e])) = Some e.
Proof.
  rewrite translated_app, responses_app, events_app.
  change (translated [OEmit e]) with (@nil (list BrowserCommand.t)).
  change (responses [OEmit e]) with (@nil BrowserResponse.t).
  change (events [OEmit e]) with [e].
  by rewrite !app_nil_r, last_snoc.
Qed.

(** A leaf of the handler at which nothing was translated. *)
Ltac refused :=
  cbn; rewrite ?app_nil_r;
  split; [repeat split; try (done || lia) |];
  split; [try done |];
  split;
    [ intros Hok; exfalso; revert Hok;
      first [ by rewrite completedOk_failure
            | by (unfold completedOk, events; cbn) ]
    | intros commands' Htr; exfalso; revert Htr;
      unfold translated; rewrite ?omap_app; simpl;
      repeat match goal with H : omap translationOf _ = [] |- _ => rewrite H end;
      done ].

Lemma handleExecuteCommand_alone sessionId executionId data s :
  alone (handleExecuteCommand sessionId executionId data) s
    (fun s' tr _ =>
      (clientSessions s' = clientSessions s /\
       browserInstances s' = browserInstances s /\
       executionQueue s' = executionQueue s ∖ {[executionId]} /\
       sessionTimeout s' = sessionTimeout s /\ clock s' = clock s /\
       (forall k, k <> sessionId ->
          sessionStore s' !! k = sessionStore s !! k /\
          browserStore s' !! k = browserStore s !! k) /\
       (forall k, k <> executionId ->
          executionStore s' !! k = executionStore s !! k) /\
       ConnectionStats.totalConnections (connectionStats s')
       = ConnectionStats.totalConnections (connectionStats s) /\
       ConnectionStats.activeConnections (connectionStats s')
       = ConnectionStats.activeConnections (connectionStats s) /\
       ConnectionStats.totalCommands (connectionStats s')
       + ConnectionStats.failedCommands (connectionStats s')
       = ConnectionStats.totalCommands (connectionStats s)
         + ConnectionStats.failedCommands (connectionStats s) + 1) /\
      (translated tr = [] ->
       s' = deleteExecution executionId (incFailedCommands s)) /\
      (completedOk tr = true ->
       exists commands e' b b',
         translated tr = [commands] /\
         length (responses tr) = length commands /\
         (Scenario.dataOf <$> last (events tr)) = Some (Some (responses tr)) /\
         executionStore s' !! executionId = Some e' /\
         ExecutionContext.results e' = responses tr /\
         ExecutionContext.commands e' = commands /\
         ExecutionContext.status e' = completed /\
         getBrowser s sessionId = Some b /\
         getBrowser s' sessionId = Some b' /\
         BrowserInstanceState.status b' = ready /\
         BrowserInstanceState.currentCommand b' = None /\
         BrowserInstanceState.error b' = BrowserInstanceState.error b /\
         sessionStore s' !! sessionId
         = (ClientSession.commandDone (clock s) <$> sessionStore s !! sessionId) /\
         ConnectionStats.totalCommands (connectionStats s')
         = ConnectionStats.totalCommands (connectionStats s) + 1) /\
      (forall commands,
       translated tr = [commands] -> completedOk tr = false ->
       exists e' b' message t,
         last (events tr) = Some (command_result false None (Some message) t) /\
         executionStore s' !! executionId = Some e' /\
         ExecutionContext.results e' = responses tr /\
         ExecutionContext.commands e' = commands /\
         ExecutionContext.status e' = failed /\
         getBrowser s' sessionId = Some b' /\
         BrowserInstanceState.status b' = error /\
         BrowserInstanceState.error b'
         = Some (ErrorInfo.mk message COMMAND_EXECUTION_FAILED (clock s)) /\
         sessionStore s' = sessionStore s /\
         ConnectionStats.failedCommands (connectionStats s')
         = ConnectionStats.failedCommands (connectionStats s) + 1)).
Proof.
  destruct data as [data |].
  2: { assert (Hleaf : forall P : Prop, completedOk [] = true -> P) by done.
       assert (Hleaf' : forall (P : Prop) (commands : list BrowserCommand.t),
                 translated [] = [commands] -> P) by done.
       unfold handleExecuteCommand. cbn.
       destruct (getSession s sessionId); cbn;
         [destruct (getBrowser s sessionId) as [b |]; cbn;
          [destruct (decide (BrowserInstanceState.status b = ready)); cbn |] |];
         (split; [repeat split; try (done || lia) |]);
         (split; [done |]);
         (split; [apply Hleaf | intros commands Hno; by apply (Hleaf' _ commands)]). }
  unfold handleExecuteCommand. cbn.
  apply alone_tryFinally, alone_tryCatch.
  destruct (getSession s sessionId) as [session |] eqn:Hsession; [| refused].
  destruct (getBrowser s sessionId) as [b |] eqn:Hbrowser; [| refused].
  cbn. destruct (decide (BrowserInstanceState.status b = ready)) as [Hready |];
    [| refused].
  cbn. apply alone_bind.
  eapply alone_mono; [| apply validateCommandInput_alone].
  intros s1 calls r (-> & Hcalls & [valid message] & ->).
  destruct (idle_facts calls Hcalls) as (_ & _ & _ & _ & Hnone).
  unfold translated in Hnone.
  destruct valid; [| refused].
  cbn. intros [shot | e]; [| refused].
  cbn. intros [parsed | e]; [| refused].
  cbn. destruct parsed as [[] [commands |] err explanation]; try refused.
  cbn. apply alone_bind.
  eapply alone_mono;
    [| apply (executeCommands_alone sessionId _ _ b);
       [exact Hbrowser | simpl; by rewrite lookup_insert_eq] ].
  intros s2 tr2 r2 (Htr2 & Hev & b2 & Hb2 & Hr).
  destruct (evolves_execution _ _ _ _ _ _ _ Hev (lookup_insert_eq _ _ _))
    as (e2 & He2 & Hg).
  destruct Hev as (E1 & E2 & E3 & E4 & E5 & E6 & E7 & E8 & _ & E10 & _).
  destruct Hg as (_ & _ & _ & Hcommands & _ & Hresults).
  destruct (getBrowser_Some _ _ _ Hbrowser) as [Hin _].
  simpl in *.
  assert (Hb2' : forall keys : gset string,
            keys = browserInstances s ->
            mapGet keys (browserStore s2) sessionId = Some b2).
  { intros keys ->. unfold mapGet. by rewrite decide_True. }
  assert (Hframe :
    (forall k, k <> sessionId -> browserStore s2 !! k = browserStore s !! k) /\
    (forall k, k <> executionId ->
       executionStore s2 !! k = executionStore s !! k) /\
    executionQueue s2 ∖ {[executionId]} = executionQueue s ∖ {[executionId]}).
  { split; [done |]. split.
    - intros k Hk. by rewrite E10, lookup_insert_ne.
    - rewrite E4. set_solver. }
  destruct Hframe as (F1 & F2 & F3).
  destruct r2 as [[] | e]; cbn; rewrite ?app_nil_r;
    match goal with
    | |- context [calls ++ ?a :: ?b :: ?c :: ?d :: ?e :: tr2] =>
        change (calls ++ a :: b :: c :: d :: e :: tr2)
          with (calls ++ [a; b; c; d; e] ++ tr2);
        destruct (request_trace calls [a; b; c; d; e] tr2 commands Hcalls
                    eq_refl eq_refl Htr2) as (HT & HR & HL)
    end.
  - destruct Hr as (Hlen & Hlast & Hstatus & Hb2s & Hb2c & Hb2e).
    rewrite He2 in Hstatus. injection Hstatus as Hstatus.
    rewrite HT, HR. unfold completedOk. rewrite (HL _ Hlast).
    split; [| split; [done | split; [| done]]].
    + rewrite E2, E3, E5, E6, E7, F3.
      repeat split; try done; try lia; try (by apply F1); try (by apply F2).
      rewrite lookup_alter_ne by done. by rewrite E1.
    + intros _. exists commands, e2, b, b2.
      rewrite lookup_alter_eq, E1, E5, E7, Hresults.
      repeat split; try done.
      by apply Hb2'.
  - destruct Hr as (Hstatus & Hb2s & Hb2e).
    rewrite He2 in Hstatus. injection Hstatus as Hstatus.
    match goal with
    | |- context [?T ++ [OEmit ?f]] =>
        destruct (snoc_event T f) as (ST & SR & SL);
        rewrite ST, SR, SL, HT, HR, (completedOk_failure T)
    end.
    split; [| split; [done | split; [done |]]].
    + rewrite E1, E2, E3, E5, E6, E7, F3.
      repeat split; try done; try lia; try (by apply F1); try (by apply F2).
    + intros ? [= <-] _.
      exists e2, b2, (messageOr "Command execution failed" e), (clock s2 - clock s).
      rewrite E1, E5, Hresults.
      repeat split; try done.
      by apply Hb2'.
Qed.

End RequestFacts.

(* ===================================================================== *)
(** ** What a request leaves behind                                       *)
(* ===================================================================== *)

Module RequestEffects.
Import Controller SocketController Shape Scenario AloneFacts RequestFacts.

(** X1.  A request that is refused, or that the translator does not turn
    into commands, leaves every session, browser instance and execution as
    it found them: it counts one failed command and takes its own
    identifier out of the queue, nothing else. *)
Theorem refused_request_only_counts env sessionId executionId data s :
  translated (Run.obs (served env sessionId executionId data s))
  = [] ->
  Run.final (served env sessionId executionId data s)
  = deleteExecution executionId (incFailedCommands s).
Proof.
  exact (proj1 (proj2 (run_alone env _ _ (World.start s)
    (handleExecuteCommand_alone sessionId executionId data s)))).
Qed.

Lemma refused_request_only_counts_witness :
  translated
    (Run.obs (served (scripted [command navigate] allDone) "s1" "e1"
                (saying "go to example.com") (init 1800000 1000))) = [] /\
  Run.final (served (scripted [command navigate] allDone) "s1" "e1"
               (saying "go to example.com") (init 1800000 1000))
  = deleteExecution "e1" (incFailedCommands (init 1800000 1000)).
Proof.
  split; [reflexivity |].
  apply (refused_request_only_counts (scripted [command navigate] allDone)
           "s1" "e1" (saying "go to example.com") (init 1800000 1000)).
  reflexivity.
Defined.

(** X2.  When a request served alone ends with a successful result, that
    result carries the answers of the browser, one per translated command
    and in the order of the commands; the execution is left [completed]
    with the same results, the browser instance is [ready] with no current
    command and its error record untouched, the session has one more
    command and a fresh time of last activity, and one more command is
    counted in total. *)
Theorem completed_request_effects env sessionId executionId data s :
  completedOk
    (Run.obs (served env sessionId executionId data s)) = true ->
  exists commands e' b b',
    translated
      (Run.obs (served env sessionId executionId data s))
    = [commands] /\
    length (responses
      (Run.obs (served env sessionId executionId data s)))
    = length commands /\
    (dataOf <$> last (events
       (Run.obs (served env sessionId executionId data s))))
    = Some (Some (responses
        (Run.obs (served env sessionId executionId data s)))) /\
    executionStore
      (Run.final (served env sessionId executionId data s))
      !! executionId = Some e' /\
    ExecutionContext.results e'
    = responses
        (Run.obs (served env sessionId executionId data s)) /\
    ExecutionContext.commands e' = commands /\
    ExecutionContext.status e' = completed /\
    getBrowser s sessionId = Some b /\
    getBrowser
      (Run.final (served env sessionId executionId data s))
      sessionId = Some b' /\
    BrowserInstanceState.status b' = ready /\
    BrowserInstanceState.currentCommand b' = None /\
    BrowserInstanceState.error b' = BrowserInstanceState.error b /\
    sessionStore
      (Run.final (served env sessionId executionId data s))
      !! sessionId
    = (ClientSession.commandDone (clock s) <$> sessionStore s !! sessionId) /\
    ConnectionStats.totalCommands (connectionStats
      (Run.final (served env sessionId executionId data s)))
    = ConnectionStats.totalCommands (connectionStats s) + 1.
Proof.
  exact (proj1 (proj2 (proj2 (run_alone env _ _ (World.start s)
    (handleExecuteCommand_alone sessionId executionId data s))))).
Qed.

Lemma completed_request_effects_witness :
  completedOk (Run.obs loginRun) = true /\
  executionStore (Run.final loginRun) !! "e1"
  = Some (ExecutionContext.mk "e1" "s1" "go to example.com and click login"
            [command navigate; command click] 1 1000 [done; done] completed) /\
  (dataOf <$> last (events (Run.obs loginRun))) = Some (Some [done; done]).
Proof.
  assert (completedOk (Run.obs loginRun) = true) as Hok by reflexivity.
  destruct (completed_request_effects
              (scripted [command navigate; command click] allDone)
              "s1" "e1" (saying "go to example.com and click login") connected
              Hok)
    as (commands & e' & b & b' & _ & _ & Hdata & _).
  split; [exact Hok |]. split; [vm_compute; reflexivity |].
  etransitivity; [exact Hdata |]. vm_compute. reflexivity.
Defined.

(** X3.  When the commands were obtained but the request served alone ends
    without a successful result, the execution is left [failed] and keeps
    every answer the browser gave, the failing one included; the browser
    instance is left in status [error] with the message that was sent to the
    client; the session is untouched and one more failed command is
    counted. *)
Theorem failed_batch_effects env sessionId executionId data s commands :
  translated (Run.obs (served env sessionId executionId data s))
  = [commands] ->
  completedOk
    (Run.obs (served env sessionId executionId data s)) = false ->
  exists e' b' message t,
    last (events
      (Run.obs (served env sessionId executionId data s)))
    = Some (command_result false None (Some message) t) /\
    executionStore
      (Run.final (served env sessionId executionId data s))
      !! executionId = Some e' /\
    ExecutionContext.results e'
    = responses
        (Run.obs (served env sessionId executionId data s)) /\
    ExecutionContext.commands e' = commands /\
    ExecutionContext.status e' = failed /\
    getBrowser
      (Run.final (served env sessionId executionId data s))
      sessionId = Some b' /\
    BrowserInstanceState.status b' = error /\
    BrowserInstanceState.error b'
    = Some (ErrorInfo.mk message COMMAND_EXECUTION_FAILED (clock s)) /\
    sessionStore
      (Run.final (served env sessionId executionId data s))
    = sessionStore s /\
    ConnectionStats.failedCommands (connectionStats
      (Run.final (served env sessionId executionId data s)))
    = ConnectionStats.failedCommands (connectionStats s) + 1.
Proof.
  exact (proj2 (proj2 (proj2 (run_alone env _ _ (World.start s)
    (handleExecuteCommand_alone sessionId executionId data s))))
    commands).
Qed.

Lemma failed_batch_effects_witness :
  translated (Run.obs clickFailsRun)
  = [[command navigate; command click; command type]] /\
  completedOk (Run.obs clickFailsRun) = false /\
  (ExecutionContext.results <$> executionStore (Run.final clickFailsRun) !! "e1")
  = Some [done; notFound] /\
  (BrowserInstanceState.error <$> getBrowser (Run.final clickFailsRun) "s1")
  = Some (Some (ErrorInfo.mk "Element not found" COMMAND_EXECUTION_FAILED 1000)).
Proof.
  assert (translated (Run.obs clickFailsRun)
          = [[command navigate; command click; command type]]) as Htr
    by reflexivity.
  assert (completedOk (Run.obs clickFailsRun) = false) as Hok by reflexivity.
  destruct (failed_batch_effects
              (scripted [command navigate; command click; command type]
                 secondFails)
              "s1" "e1" (saying "open the page, click and type") connected
              _ Htr Hok)
    as (e' & b' & message & t & _ & He & Hres & _).
  split; [exact Htr |]. split; [exact Hok |].
  split; [| vm_compute; reflexivity].
  etransitivity; [exact (f_equal (fmap ExecutionContext.results) He) |].
  simpl. rewrite Hres. vm_compute. reflexivity.
Defined.

(** X4.  Whatever a request served alone comes to, it adds no session and
    no browser instance and removes none, touches no object of another
    session and no other execution, leaves its own identifier out of the
    queue, and counts exactly one command: as done or as failed. *)
Theorem request_frame env sessionId executionId data s :
  clientSessions
    (Run.final (served env sessionId executionId data s))
  = clientSessions s /\
  browserInstances
    (Run.final (served env sessionId executionId data s))
  = browserInstances s /\
  executionQueue
    (Run.final (served env sessionId executionId data s))
  = executionQueue s ∖ {[executionId]} /\
  (forall k, k <> sessionId ->
     sessionStore
       (Run.final (served env sessionId executionId data s)) !! k
     = sessionStore s !! k /\
     browserStore
       (Run.final (served env sessionId executionId data s)) !! k
     = browserStore s !! k) /\
  (forall k, k <> executionId ->
     executionStore
       (Run.final (served env sessionId executionId data s)) !! k
     = executionStore s !! k) /\
  ConnectionStats.totalCommands (connectionStats
    (Run.final (served env sessionId executionId data s)))
  + ConnectionStats.failedCommands (connectionStats
      (Run.final (served env sessionId executionId data s)))
  = ConnectionStats.totalCommands (connectionStats s)
    + ConnectionStats.failedCommands (connectionStats s) + 1.
Proof.
  destruct (proj1 (run_alone env _ _ (World.start s)
    (handleExecuteCommand_alone sessionId executionId data s)))
    as (H1 & H2 & H3 & _ & _ & H6 & H7 & _ & _ & H10).
  repeat split; try done; by apply H6.
Qed.

End RequestEffects.

(* ===================================================================== *)
(** ** Connections, screenshots and the page of an instance               *)
(* ===================================================================== *)

Module ConnectionFacts.
Import Controller SocketController Shape Scenario AloneFacts EffectFacts TeardownFacts.

(** X5.  A connection that the rate limiter does not let in (it answers
    [allowed: false], or the check itself fails) leaves the controller as it
    was: no session, no browser instance, no counter; the browser is not
    started, and the client gets one [error] event. *)
Theorem refused_connection_leaves_no_trace (env : Env) sessionId socketId
    clientIp s :
  (forall v, env _ (checkRateLimit clientIp) 0%nat = inl v ->
             RateLimitCheck.allowed v = false) ->
  Run.final (run env undisturbed (handleConnection sessionId socketId clientIp)
               (World.start s)) = s /\
  Run.result (run env undisturbed (handleConnection sessionId socketId clientIp)
                (World.start s)) = inl tt /\
  (OCall initializeBrowser
     ∉ Run.obs (run env undisturbed
                  (handleConnection sessionId socketId clientIp)
                  (World.start s))) /\
  exists message code details,
    events (Run.obs (run env undisturbed
                       (handleConnection sessionId socketId clientIp)
                       (World.start s)))
    = [error_event message code details].
Proof.
  intros Hno. unfold handleConnection. simpl.
  destruct (env _ (checkRateLimit clientIp) 0%nat) as [[allowed] | e] eqn:Hcheck;
    simpl.
  - pose proof (Hno _ eq_refl) as Hv. simpl in Hv. subst allowed. simpl.
    repeat split; try done; [| eauto].
    rewrite !elem_of_cons, elem_of_nil. naive_solver.
  - repeat split; try done; [| eauto].
    rewrite !elem_of_cons, elem_of_nil. naive_solver.
Qed.

Lemma refused_connection_leaves_no_trace_witness :
  RateLimitCheck.allowed (RateLimitCheck.mk false) = false /\
  Run.final (run refusing undisturbed (handleConnection "s2" "sock2" "10.0.0.2")
               (World.start connected)) = connected /\
  events (Run.obs (run refusing undisturbed
                     (handleConnection "s2" "sock2" "10.0.0.2")
                     (World.start connected)))
  = [error_event "Too many connections. Please try again later."
       PERMISSION_DENIED ""].
Proof.
  split; [reflexivity |].
  split; [| reflexivity].
  apply (refused_connection_leaves_no_trace refusing "s2" "sock2" "10.0.0.2"
           connected).
  intros v Hv. injection Hv as <-. reflexivity.
Defined.

(** X6.  When the browser cannot be started for a new connection, the
    client gets one [error] event with the reason, but what was registered
    before the attempt stays: the session is in the session table, the
    browser instance is in its table with status [error] and the reason, and
    the connection is counted as active. *)
Theorem failed_start_stays_registered (env : Env) sessionId socketId clientIp
    s v e :
  env _ (checkRateLimit clientIp) 0%nat = inl v ->
  RateLimitCheck.allowed v = true ->
  env _ initializeBrowser 0%nat = inr e ->
  getSession
    (Run.final (run env undisturbed
                  (handleConnection sessionId socketId clientIp) (World.start s)))
    sessionId
  = Some (ClientSession.mk sessionId socketId clientIp (clock s) (clock s) 0) /\
  getBrowser
    (Run.final (run env undisturbed
                  (handleConnection sessionId socketId clientIp) (World.start s)))
    sessionId
  = Some (BrowserInstanceState.mk sessionId socketId error None None
            (clock s) (clock s) None
            (Some (ErrorInfo.mk (messageOr "Browser initialization failed" e)
                     BROWSER_INIT_FAILED (clock s)))) /\
  ConnectionStats.activeConnections (connectionStats
    (Run.final (run env undisturbed
                  (handleConnection sessionId socketId clientIp) (World.start s))))
  = ConnectionStats.activeConnections (connectionStats s) + 1 /\
  events (Run.obs (run env undisturbed
                     (handleConnection sessionId socketId clientIp)
                     (World.start s)))
  = [error_event "Connection setup failed" SERVER_ERROR
       (messageOr "Unknown error" e)].
Proof.
  intros Hcheck Hallowed Hinit. unfold handleConnection. simpl.
  rewrite Hcheck. simpl. rewrite Hallowed. simpl. rewrite Hinit. simpl.
  unfold getSession, getBrowser, mapGet. simpl.
  rewrite !decide_True by set_solver.
  by rewrite lookup_insert_eq, lookup_alter_eq, lookup_insert_eq.
Qed.

Lemma failed_start_stays_registered_witness :
  getSession
    (Run.final (run noBrowser undisturbed
                  (handleConnection "s1" "sock1" "10.0.0.1")
                  (World.start (init 1800000 1000)))) "s1"
  = Some (ClientSession.mk "s1" "sock1" "10.0.0.1" 1000 1000 0) /\
  (BrowserInstanceState.status <$>
     getBrowser
       (Run.final (run noBrowser undisturbed
                     (handleConnection "s1" "sock1" "10.0.0.1")
                     (World.start (init 1800000 1000)))) "s1")
  = Some error.
Proof.
  destruct (failed_start_stays_registered noBrowser "s1" "sock1" "10.0.0.1"
              (init 1800000 1000) (RateLimitCheck.mk true)
              (Error "Chrome not found") eq_refl eq_refl eq_refl)
    as (Hs & Hb & _).
  split; [exact Hs |]. rewrite Hb. reflexivity.
Defined.

Lemma connection_established (env : Env) sessionId socketId clientIp s v :
  env _ (checkRateLimit clientIp) 0%nat = inl v ->
  RateLimitCheck.allowed v = true ->
  env _ initializeBrowser 0%nat = inl tt ->
  Run.final (run env undisturbed (handleConnection sessionId socketId clientIp)
               (World.start s))
  = updBrowser (fun b =>
      BrowserInstanceState.setLastActivity (clock s)
        (BrowserInstanceState.setStatus ready b)) sessionId
      (setBrowser sessionId
         (BrowserInstanceState.mk sessionId socketId initializing None None
            (clock s) (clock s) None None)
         (incTotalConnections
            (setSession sessionId
               (ClientSession.mk sessionId socketId clientIp (clock s)
                  (clock s) 0) s))) /\
  events (Run.obs (run env undisturbed
                     (handleConnection sessionId socketId clientIp)
                     (World.start s)))
  = [browser_status ready].
Proof.
  intros Hcheck Hallowed Hinit. unfold handleConnection. simpl.
  rewrite Hcheck. simpl. rewrite Hallowed. simpl. by rewrite Hinit.
Qed.

(** X7.  Connecting and then disconnecting gives the tables back.  For a
    fresh session identifier and collaborators that let the client in, the
    connection registers the session and a [ready] browser instance; the
    disconnection that follows removes both, starts one cleanup of the
    browser, and leaves the three tables and the number of active
    connections as they were before the client came; only the total of
    connections has grown by one. *)
Theorem connect_disconnect_round_trip (env : Env) sessionId socketId clientIp
    reason s v :
  env _ (checkRateLimit clientIp) 0%nat = inl v ->
  RateLimitCheck.allowed v = true ->
  env _ initializeBrowser 0%nat = inl tt ->
  sessionId ∉ clientSessions s ->
  sessionId ∉ browserInstances s ->
  (forall y, y ∈ executionQueue s -> ownedBy sessionId s y = false) ->
  getSession
    (Run.final (run env undisturbed
                  (handleConnection sessionId socketId clientIp) (World.start s)))
    sessionId
  = Some (ClientSession.mk sessionId socketId clientIp (clock s) (clock s) 0) /\
  getBrowser
    (Run.final (run env undisturbed
                  (handleConnection sessionId socketId clientIp) (World.start s)))
    sessionId
  = Some (BrowserInstanceState.mk sessionId socketId ready None None
            (clock s) (clock s) None None) /\
  events (Run.obs (run env undisturbed
                     (handleConnection sessionId socketId clientIp)
                     (World.start s)))
  = [browser_status ready] /\
  (advance (handleDisconnection sessionId reason)
     (Run.final (run env undisturbed
                   (handleConnection sessionId socketId clientIp)
                   (World.start s)))).1.2 = [OCall cleanup] /\
  clientSessions
    (advance (handleDisconnection sessionId reason)
       (Run.final (run env undisturbed
                     (handleConnection sessionId socketId clientIp)
                     (World.start s)))).1.1 = clientSessions s /\
  browserInstances
    (advance (handleDisconnection sessionId reason)
       (Run.final (run env undisturbed
                     (handleConnection sessionId socketId clientIp)
                     (World.start s)))).1.1 = browserInstances s /\
  executionQueue
    (advance (handleDisconnection sessionId reason)
       (Run.final (run env undisturbed
                     (handleConnection sessionId socketId clientIp)
                     (World.start s)))).1.1 = executionQueue s /\
  connectionStats
    (advance (handleDisconnection sessionId reason)
       (Run.final (run env undisturbed
                     (handleConnection sessionId socketId clientIp)
                     (World.start s)))).1.1
  = ConnectionStats.mk
      (ConnectionStats.totalConnections (connectionStats s) + 1)
      (ConnectionStats.activeConnections (connectionStats s))
      (ConnectionStats.totalCommands (connectionStats s))
      (ConnectionStats.failedCommands (connectionStats s))
      (ConnectionStats.averageExecutionTime (connectionStats s)).
Proof.
  intros Hcheck Hallowed Hinit Hfresh Hfresh' Hqueue.
  destruct (connection_established env sessionId socketId clientIp s v
              Hcheck Hallowed Hinit) as [-> ->].
  rewrite advance_handleDisconnection.
  match goal with |- context [disconnected sessionId ?x] => set (s1 := x) end.
  assert (Hs1 : getSession s1 sessionId
    = Some (ClientSession.mk sessionId socketId clientIp (clock s) (clock s) 0)).
  { unfold getSession, mapGet. simpl. rewrite decide_True by set_solver.
    by rewrite lookup_insert_eq. }
  assert (Hb1 : getBrowser s1 sessionId
    = Some (BrowserInstanceState.mk sessionId socketId ready None None
              (clock s) (clock s) None None)).
  { unfold getBrowser, mapGet. simpl. rewrite decide_True by set_solver.
    by rewrite lookup_alter_eq, lookup_insert_eq. }
  rewrite Hs1, Hb1. cbn [fst snd]. do 4 (split; [done |]).
  unfold disconnected. rewrite Hs1.
  change (getBrowser (decActiveConnections (deleteSession sessionId s1))
            sessionId) with (getBrowser s1 sessionId).
  rewrite Hb1.
  unfold cancelExecutions. rewrite cancel_fold_skip.
  - subst s1. cbn -[union difference]. repeat split; try set_solver.
    destruct (connectionStats s). simpl. f_equal. lia.
  - intros y _ Hy. apply (Hqueue y Hy).
Qed.

Lemma connect_disconnect_round_trip_witness :
  clientSessions
    (advance (handleDisconnection "s2" "transport close")
       (Run.final (run (scripted [] allDone) undisturbed
                     (handleConnection "s2" "sock2" "10.0.0.2")
                     (World.start connected)))).1.1 = clientSessions connected /\
  browserInstances
    (advance (handleDisconnection "s2" "transport close")
       (Run.final (run (scripted [] allDone) undisturbed
                     (handleConnection "s2" "sock2" "10.0.0.2")
                     (World.start connected)))).1.1 = browserInstances connected.
Proof.
  destruct (connect_disconnect_round_trip (scripted [] allDone) "s2" "sock2"
              "10.0.0.2" "transport close" connected (RateLimitCheck.mk true)
              eq_refl eq_refl eq_refl)
    as (_ & _ & _ & _ & Hs & Hb & _).
  - vm_compute. set_solver.
  - vm_compute. set_solver.
  - intros y Hy. vm_compute in Hy. set_solver.
  - split; [exact Hs | exact Hb].
Defined.

(** X8.  A screenshot request changes nothing in the controller and never
    fails: the client gets exactly one event, and the browser is asked for a
    screenshot exactly when the instance of the session is there and
    [ready]; otherwise the event is the error "Browser not ready". *)
Theorem screenshot_request_reads_only (env : Env) sessionId s :
  Run.final (run env undisturbed (handleGetScreenshot sessionId) (World.start s))
  = s /\
  Run.result (run env undisturbed (handleGetScreenshot sessionId) (World.start s))
  = inl tt /\
  (exists e,
     events (Run.obs (run env undisturbed (handleGetScreenshot sessionId)
                        (World.start s))) = [e]) /\
  (OCall takeScreenshot
     ∈ Run.obs (run env undisturbed (handleGetScreenshot sessionId)
                  (World.start s))
   <-> (BrowserInstanceState.status <$> getBrowser s sessionId) = Some ready) /\
  ((BrowserInstanceState.status <$> getBrowser s sessionId) <> Some ready ->
   Run.obs (run env undisturbed (handleGetScreenshot sessionId) (World.start s))
   = [OEmit (error_event "Screenshot capture failed" COMMAND_EXECUTION_FAILED
               "Browser not ready")]).
Proof.
  unfold handleGetScreenshot. simpl.
  destruct (getBrowser s sessionId) as [b |]; simpl.
  - destruct (decide (BrowserInstanceState.status b = ready)) as [Hr | Hr]; simpl.
    + destruct (env _ takeScreenshot 0%nat) as [shot | e]; simpl;
        (split; [done |]; split; [done |]; split; [eauto |]; split;
         [| by rewrite Hr]);
        (split; [by rewrite Hr | intros _; by left]).
    + split; [done |]. split; [done |]. split; [eauto |]. split; [| done].
      split; [| congruence].
      rewrite elem_of_cons, elem_of_nil. naive_solver.
  - split; [done |]. split; [done |]. split; [eauto |]. split; [| done].
    split; [| done]. rewrite elem_of_cons, elem_of_nil. naive_solver.
Qed.

(** X9.  [updateBrowserState] never fails, sends nothing to the client, and
    stores the address and the title of the page together or not at all:
    when the instance is known and both calls succeed, the two fields and
    the time of last activity are set; in every other case the controller is
    left as it was, and without an instance the browser is not even
    asked. *)
Theorem page_refresh_all_or_nothing (env : Env) sessionId s :
  Run.result (run env undisturbed (updateBrowserState sessionId) (World.start s))
  = inl tt /\
  events (Run.obs (run env undisturbed (updateBrowserState sessionId)
                     (World.start s))) = [] /\
  (getBrowser s sessionId = None ->
   Run.obs (run env undisturbed (updateBrowserState sessionId) (World.start s))
   = []) /\
  Run.final (run env undisturbed (updateBrowserState sessionId) (World.start s))
  = match getBrowser s sessionId, env _ getCurrentUrl 0%nat,
          env _ getPageTitle 0%nat with
    | Some _, inl url, inl title =>
        updBrowser (fun b =>
          BrowserInstanceState.setLastActivity (clock s)
            (BrowserInstanceState.setPage (Some url) (Some title) b))
          sessionId s
    | _, _, _ => s
    end.
Proof.
  unfold updateBrowserState. simpl.
  destruct (getBrowser s sessionId) as [b |]; simpl; [| done].
  destruct (env _ getCurrentUrl 0%nat) as [url | e]; simpl; [| done].
  destruct (env _ getPageTitle 0%nat) as [title | e]; simpl; done.
Qed.

End ConnectionFacts.

(* ===================================================================== *)
(** ** The periodic sweeps                                                *)
(* ===================================================================== *)

Module SweepFacts.
Import Controller SocketController TeardownFacts.

Lemma sweepExecution_frame s x :
  let s' := sweepExecution s x in
  sessionStore s' = sessionStore s /\ browserStore s' = browserStore s /\
  clientSessions s' = clientSessions s /\
  browserInstances s' = browserInstances s /\
  connectionStats s' = connectionStats s /\
  sessionTimeout s' = sessionTimeout s /\ clock s' = clock s.
Proof.
  unfold sweepExecution. destruct (getExecution s x) as [e |]; [| done].
  by destruct (10 * 60 * 1000 <? clock s - ExecutionContext.startTime e).
Qed.

Lemma sweepExecution_overdue s x y :
  overdue (sweepExecution s x) y = overdue s y.
Proof.
  unfold sweepExecution, overdue.
  destruct (getExecution s x) as [e |]; [| done].
  destruct (10 * 60 * 1000 <? clock s - ExecutionContext.startTime e);
    [| done]. simpl.
  destruct (decide (x = y)) as [-> | Hne].
  - rewrite lookup_alter_eq. by destruct (executionStore s !! y).
  - by rewrite lookup_alter_ne.
Qed.

Lemma sweepExecution_queue s x y :
  y ∈ executionQueue (sweepExecution s x) <->
  y ∈ executionQueue s /\ ~ (y = x /\ overdue s x = true).
Proof.
  unfold sweepExecution, getExecution, mapGet, overdue.
  destruct (decide (x ∈ executionQueue s)) as [Hin | Hout].
  - destruct (executionStore s !! x) as [e |]; [| set_solver].
    destruct (10 * 60 * 1000 <? clock s - ExecutionContext.startTime e);
      simpl; set_solver.
  - set_solver.
Qed.

Lemma sweepExecution_store s x y :
  executionStore (sweepExecution s x) !! y
  = if decide (y = x /\ x ∈ executionQueue s /\ overdue s x = true)
    then ExecutionContext.setStatus cancelled <$> executionStore s !! y
    else executionStore s !! y.
Proof.
  unfold sweepExecution, getExecution, mapGet, overdue.
  destruct (decide (x ∈ executionQueue s)) as [Hin | Hout].
  - destruct (executionStore s !! x) as [e |] eqn:He.
    + destruct (10 * 60 * 1000 <? clock s - ExecutionContext.startTime e);
        simpl.
      * case_decide as Hy.
        -- destruct Hy as [-> _]. by rewrite lookup_alter_eq.
        -- rewrite lookup_alter_ne; [done |]. naive_solver.
      * case_decide; naive_solver.
    + case_decide; naive_solver.
  - case_decide; naive_solver.
Qed.

Lemma sweepExecution_fold : forall l s,
  let s' := foldl sweepExecution s l in
  (sessionStore s' = sessionStore s /\ browserStore s' = browserStore s /\
   clientSessions s' = clientSessions s /\
   browserInstances s' = browserInstances s /\
   connectionStats s' = connectionStats s /\
   sessionTimeout s' = sessionTimeout s /\ clock s' = clock s) /\
  (forall y, overdue s' y = overdue s y) /\
  (forall y, y ∈ executionQueue s' <->
             y ∈ executionQueue s /\ ~ (y ∈ l /\ overdue s y = true)) /\
  (forall y, executionStore s' !! y
             = if decide (y ∈ l /\ y ∈ executionQueue s /\ overdue s y = true)
               then ExecutionContext.setStatus cancelled <$> executionStore s !! y
               else executionStore s !! y).
Proof.
  induction l as [| x l IH]; intros s; simpl.
  { split; [done |]. split; [done |]. split.
    - intros y. split; [| by intros [? _]].
      intros Hy. split; [done |]. intros [Hin _]. by apply elem_of_nil in Hin.
    - done. }
  destruct (IH (sweepExecution s x)) as (Hframe & Hown & Hqueue & Hstore).
  pose proof (sweepExecution_frame s x) as Hframe1. simpl in Hframe1.
  split; [| split; [| split]].
  - destruct Hframe as (-> & -> & -> & -> & -> & -> & ->). exact Hframe1.
  - intros y. by rewrite Hown, sweepExecution_overdue.
  - intros y. rewrite Hqueue, sweepExecution_queue, sweepExecution_overdue,
      elem_of_cons.
    destruct (decide (y = x)) as [-> | Hne]; naive_solver.
  - intros y. rewrite Hstore, sweepExecution_store, sweepExecution_overdue.
    pose proof (sweepExecution_queue s x y) as Hq.
    pose proof (elem_of_cons l y x) as Hcons.
    destruct (decide (y = x)) as [-> | Hne].
    + destruct (decide (x ∈ executionQueue s)) as [Hin | Hout],
               (overdue s x) eqn:Hov.
      * rewrite (decide_False (P := x ∈ l /\ _)) by naive_solver.
        rewrite decide_True by done.
        rewrite decide_True by (split; [by left | done]). done.
      * rewrite !(decide_False (P := _ = _ /\ _)) by naive_solver.
        repeat case_decide; naive_solver.
      * repeat case_decide; naive_solver.
      * repeat case_decide; naive_solver.
    + rewrite (decide_False (P := y = x /\ _)) by naive_solver.
      apply decide_ext. rewrite Hq, Hcons. naive_solver.
Qed.

(** X10.  The sweep of the execution queue takes out of the queue exactly
    the executions started more than ten minutes ago and marks them
    [cancelled]; it changes no other execution, no session, no browser
    instance (the instance of a swept execution keeps its status) and no
    counter, and running it again changes nothing. *)
Theorem execution_sweep_removes_overdue s :
  (sessionStore (cleanupExecutionQueue s) = sessionStore s /\
   browserStore (cleanupExecutionQueue s) = browserStore s /\
   clientSessions (cleanupExecutionQueue s) = clientSessions s /\
   browserInstances (cleanupExecutionQueue s) = browserInstances s /\
   connectionStats (cleanupExecutionQueue s) = connectionStats s) /\
  (forall y, y ∈ executionQueue (cleanupExecutionQueue s) <->
             y ∈ executionQueue s /\ overdue s y = false) /\
  (forall y, executionStore (cleanupExecutionQueue s) !! y
             = if decide (y ∈ executionQueue s /\ overdue s y = true)
               then ExecutionContext.setStatus cancelled <$> executionStore s !! y
               else executionStore s !! y) /\
  cleanupExecutionQueue (cleanupExecutionQueue s) = cleanupExecutionQueue s.
Proof.
  destruct (sweepExecution_fold (elements (executionQueue s)) s)
    as (Hframe & Hown & Hqueue & Hstore).
  assert (Hq : forall y, y ∈ executionQueue (cleanupExecutionQueue s) <->
                         y ∈ executionQueue s /\ overdue s y = false).
  { intros y. unfold cleanupExecutionQueue. rewrite Hqueue, elem_of_elements.
    destruct (overdue s y); naive_solver. }
  split; [naive_solver |]. split; [exact Hq |]. split.
  - intros y. unfold cleanupExecutionQueue. rewrite Hstore.
    apply decide_ext. rewrite elem_of_elements. naive_solver.
  - unfold cleanupExecutionQueue at 1.
    generalize (elements (executionQueue (cleanupExecutionQueue s))).
    intros l.
    assert (Hskip : forall l s0,
      (forall y, y ∈ executionQueue s0 -> overdue s0 y = false) ->
      foldl sweepExecution s0 l = s0).
    { clear. induction l as [| x l IH]; intros s0 H; [done |]. simpl.
      assert (sweepExecution s0 x = s0) as ->; [| by apply IH].
      unfold sweepExecution, getExecution, mapGet.
      destruct (decide (x ∈ executionQueue s0)) as [Hin |]; [| done].
      specialize (H x Hin). unfold overdue in H.
      destruct (executionStore s0 !! x); [| done]. by rewrite H. }
    apply Hskip. intros y Hy. apply Hq in Hy as [_ Hy].
    unfold cleanupExecutionQueue. by rewrite Hown.
Qed.

(** *** The sweep of the browser instances *)

Lemma advance_sweepBrowser x (rest : proc unit) s :
  advance (sweepBrowser x ;; rest)%proc s
  = if bool_decide (x ∈ browserInstances s) && old s x
    then let '(s2, tr, st) := advance rest (deleteBrowser x s) in
         (s2, OCall cleanup :: tr, st)
    else advance rest s.
Proof.
  unfold sweepBrowser, getBrowser, mapGet, old. simpl.
  destruct (decide (x ∈ browserInstances s)) as [Hin | Hout].
  - rewrite bool_decide_eq_true_2 by done. simpl.
    destruct (browserStore s !! x) as [b |]; simpl; [| done].
    by destruct (30 * 60 * 1000 <? clock s - BrowserInstanceState.lastActivity b).
  - by rewrite bool_decide_eq_false_2.
Qed.

Lemma sweepBrowser_fold : forall l s,
  NoDup l ->
  let r := advance (foldr (fun x rest => sweepBrowser x ;; rest)%proc (Ret tt) l)
             s in
  r.2 = Finished (inl tt) /\
  (sessionStore r.1.1 = sessionStore s /\ browserStore r.1.1 = browserStore s /\
   executionStore r.1.1 = executionStore s /\
   clientSessions r.1.1 = clientSessions s /\
   executionQueue r.1.1 = executionQueue s /\
   connectionStats r.1.1 = connectionStats s /\
   sessionTimeout r.1.1 = sessionTimeout s /\ clock r.1.1 = clock s) /\
  (forall y, y ∈ browserInstances r.1.1 <->
             y ∈ browserInstances s /\ ~ (y ∈ l /\ old s y = true)) /\
  r.1.2 = replicate
            (length (List.filter
               (fun y => bool_decide (y ∈ browserInstances s) && old s y) l))
            (OCall cleanup).
Proof.
  induction l as [| x l IH]; intros s Hnd.
  { simpl. split; [done |]. split; [done |]. split; [| done].
    intros y. split; [| by intros [? _]].
    intros Hy. split; [done |]. intros [Hin _]. by apply elem_of_nil in Hin. }
  apply NoDup_cons in Hnd as [Hx Hnd].
  cbn [foldr]. cbn zeta. rewrite advance_sweepBrowser.
  destruct (bool_decide (x ∈ browserInstances s) && old s x) eqn:Hrm.
  - specialize (IH (deleteBrowser x s) Hnd). cbn zeta in IH.
    destruct (advance (foldr (fun x rest => sweepBrowser x ;; rest)%proc
                         (Ret tt) l) (deleteBrowser x s))
      as [[s2 tr] st].
    destruct IH as (Hst & Hframe & Hkeys & Htr). simpl in *.
    pose proof Hrm as Hrm'.
    apply andb_true_iff in Hrm' as [Hin Hold].
    apply bool_decide_eq_true in Hin.
    split; [done |]. split; [done |]. split.
    + intros y. rewrite Hkeys, elem_of_cons.
      change (old (deleteBrowser x s) y) with (old s y).
      simpl. rewrite elem_of_difference, elem_of_singleton.
      destruct (decide (y = x)) as [-> | Hne]; [tauto |].
      split; intros [Hy Hn]; (split; [tauto |]); intros [Hl Ho];
        apply Hn; tauto.
    + rewrite Hrm. simpl. f_equal. rewrite Htr. f_equal. f_equal.
      apply filter_ext_in. intros y Hy%list_elem_of_In.
      change (old (deleteBrowser x s) y) with (old s y). f_equal.
      apply bool_decide_ext. simpl.
      rewrite elem_of_difference, elem_of_singleton.
      split; [tauto |]. intros Hin'. split; [done |]. by intros ->.
  - specialize (IH s Hnd). cbn zeta in IH.
    destruct IH as (Hst & Hframe & Hkeys & Htr).
    split; [done |]. split; [done |]. split.
    + intros y. rewrite Hkeys, elem_of_cons.
      destruct (decide (y = x)) as [-> | Hne].
      * split; intros [Hy Hn]; (split; [done |]); intros [Hl Ho].
        -- rewrite bool_decide_eq_true_2, Ho in Hrm by done. done.
        -- apply Hn. tauto.
      * split; intros [Hy Hn]; (split; [done |]); intros [Hl Ho];
          apply Hn; tauto.
    + simpl. by rewrite Hrm.
Qed.

(** X11.  The sweep of the browser instances removes from the instance
    table exactly the instances that were last active more than thirty
    minutes ago and starts one cleanup of the browser service for each of
    them; it never fails, and it leaves the session table alone, so that a
    session can outlive its browser instance. *)
Theorem instance_sweep_removes_old s :
  (advance cleanupOldBrowserInstances s).2 = Finished (inl tt) /\
  (forall y, y ∈ browserInstances (advance cleanupOldBrowserInstances s).1.1 <->
             y ∈ browserInstances s /\ old s y = false) /\
  (advance cleanupOldBrowserInstances s).1.2
  = replicate
      (length (List.filter (old s) (elements (browserInstances s))))
      (OCall cleanup) /\
  clientSessions (advance cleanupOldBrowserInstances s).1.1 = clientSessions s /\
  sessionStore (advance cleanupOldBrowserInstances s).1.1 = sessionStore s /\
  browserStore (advance cleanupOldBrowserInstances s).1.1 = browserStore s /\
  executionQueue (advance cleanupOldBrowserInstances s).1.1 = executionQueue s /\
  connectionStats (advance cleanupOldBrowserInstances s).1.1 = connectionStats s.
Proof.
  unfold cleanupOldBrowserInstances. cbn [bind get advance].
  destruct (sweepBrowser_fold (elements (browserInstances s)) s
              (NoDup_elements _))
    as (Hst & (H1 & H2 & H3 & H4 & H5 & H6 & _) & Hkeys & Htr).
  split; [exact Hst |]. split.
  { intros y. rewrite Hkeys, elem_of_elements.
    destruct (old s y); naive_solver. }
  split; [| done].
  rewrite Htr. f_equal. f_equal.
  apply filter_ext_in. intros y Hy%list_elem_of_In%elem_of_elements.
  by rewrite bool_decide_eq_true_2.
Qed.

End SweepFacts.

(* ===================================================================== *)
(** ** After the idle sweep                                               *)
(* ===================================================================== *)

Module IdleFacts.
Import Controller SocketController Shape Scenario TeardownFacts.

Lemma swept_session_gone s sessionId :
  expired s sessionId = true ->
  getSession (cleanupInactiveSessions s) sessionId = None.
Proof.
  intros Hexp.
  destruct (sweep_fold (elements (clientSessions s)) s) as (_ & Hkeys).
  unfold getSession, mapGet. rewrite decide_False; [done |].
  unfold cleanupInactiveSessions. rewrite Hkeys, elem_of_elements.
  naive_solver.
Qed.

(** X12.  Once the idle sweep has removed the session of a client that is
    still connected, every later request of that client is refused with
    "Session or browser instance not found": nothing is checked, translated
    or sent to the browser, although the browser instance of the session is
    still registered. *)
Theorem request_after_idle_sweep (env : Env) sessionId executionId
    (data : CommandData.t) s :
  expired s sessionId = true ->
  Run.obs (served env sessionId executionId (Some data)
             (cleanupInactiveSessions s))
  = [OEmit (command_result false None
              (Some "Session or browser instance not found") 0)] /\
  getBrowser (cleanupInactiveSessions s) sessionId = getBrowser s sessionId.
Proof.
  intros Hexp. split.
  - unfold served, handleExecuteCommand. simpl.
    rewrite (swept_session_gone s sessionId Hexp). simpl.
    by rewrite Z.sub_diag.
  - destruct (sweep_fold (elements (clientSessions s)) s)
      as ((_ & Hbs & _ & Hbi & _) & _).
    unfold getBrowser, cleanupInactiveSessions. by rewrite Hbs, Hbi.
Qed.

Lemma request_after_idle_sweep_witness :
  expired idleSince "s1" = true /\
  Run.obs (served (scripted [command navigate] allDone) "s1" "e1"
             (saying "go to example.com") (cleanupInactiveSessions idleSince))
  = [OEmit (command_result false None
              (Some "Session or browser instance not found") 0)] /\
  (BrowserInstanceState.status
     <$> getBrowser (cleanupInactiveSessions idleSince) "s1") = Some ready.
Proof.
  assert (expired idleSince "s1" = true) as Hexp by reflexivity.
  destruct (request_after_idle_sweep (scripted [command navigate] allDone)
              "s1" "e1" (CommandData.mk (Some "go to example.com") None)
              idleSince) as (Hobs & Hb).
  - exact Hexp.
  - split; [exact Hexp |]. split; [exact Hobs |]. rewrite Hb.
    vm_compute. reflexivity.
Defined.

(** X13.  The idle sweep removes a session without lowering the number of
    active connections, and the disconnection that comes later finds no
    session and does not lower it either: a client that was swept while
    connected stays counted as active for good, where the same
    disconnection without the sweep lowers the counter by one. *)
Theorem swept_session_stays_counted sessionId reason s c :
  getSession s sessionId = Some c ->
  expired s sessionId = true ->
  ConnectionStats.activeConnections (connectionStats
    (advance (handleDisconnection sessionId reason)
       (cleanupInactiveSessions s)).1.1)
  = ConnectionStats.activeConnections (connectionStats s) /\
  ConnectionStats.activeConnections (connectionStats
    (advance (handleDisconnection sessionId reason) s).1.1)
  = ConnectionStats.activeConnections (connectionStats s) - 1.
Proof.
  intros Hs Hexp. rewrite !advance_handleDisconnection. cbn [fst snd].
  rewrite !disconnected_counter, Hs, (swept_session_gone s sessionId Hexp).
  destruct (sweep_fold (elements (clientSessions s)) s)
    as ((_ & _ & _ & _ & _ & Hstats & _) & _).
  unfold cleanupInactiveSessions. rewrite Hstats. lia.
Qed.

Lemma swept_session_stays_counted_witness :
  expired idleSince "s1" = true /\
  ConnectionStats.activeConnections (connectionStats
    (advance (handleDisconnection "s1" "transport close")
       (cleanupInactiveSessions idleSince)).1.1) = 1 /\
  ConnectionStats.activeConnections (connectionStats
    (advance (handleDisconnection "s1" "transport close") idleSince).1.1) = 0.
Proof.
  assert (expired idleSince "s1" = true) as Hexp by reflexivity.
  destruct (swept_session_stays_counted "s1" "transport close" idleSince
              (ClientSession.mk "s1" "sock1" "10.0.0.1" 1000 1000 0))
    as (Hswept & Hplain).
  - vm_compute. reflexivity.
  - exact Hexp.
  - split; [exact Hexp |]. split.
    + rewrite Hswept. reflexivity.
    + rewrite Hplain. reflexivity.
Defined.

End IdleFacts.

(* ===================================================================== *)
(** ** Suspicious activity and the block list                             *)
(* ===================================================================== *)

Module BlockListFacts.
Import SecurityManager SecurityManagerFacts.

Lemma addSuspiciousActivity_spec c s :
  getSuspiciousActivityCount c (addSuspiciousActivity c s)
  = getSuspiciousActivityCount c s + 1 /\
  isIPBlocked c (addSuspiciousActivity c s)
  = isIPBlocked c s || (10 <=? getSuspiciousActivityCount c s) /\
  (forall c', c' <> c ->
     getSuspiciousActivityCount c' (addSuspiciousActivity c s)
     = getSuspiciousActivityCount c' s /\
     isIPBlocked c' (addSuspiciousActivity c s) = isIPBlocked c' s).
Proof.
  unfold addSuspiciousActivity, getSuspiciousActivityCount, isIPBlocked, blockIP.
  destruct (10 <=? getOr0 (suspiciousActivities s) c) eqn:Hc; simpl.
  - rewrite getOr0_insert_eq, orb_true_r.
    split; [done |]. split; [apply bool_decide_eq_true_2; set_solver |].
    intros c' Hne. rewrite getOr0_insert_ne by done. split; [done |].
    apply bool_decide_ext. set_solver.
  - rewrite getOr0_insert_eq, orb_false_r.
    split; [done |]. split; [done |].
    intros c' Hne. by rewrite getOr0_insert_ne.
Qed.

(** X14.  The count of suspicious activities of a client only grows, by one
    per activity, and the client is put on the block list by the activity
    that finds ten already counted: after [k] more activities the client is
    blocked exactly when it was blocked before or, [k] being at least one,
    its count has reached eleven.  Counts and blocks of other clients are
    untouched. *)
Theorem suspicion_blocks_at_eleven c (k : nat) s :
  getSuspiciousActivityCount c (Nat.iter k (addSuspiciousActivity c) s)
  = getSuspiciousActivityCount c s + Z.of_nat k /\
  isIPBlocked c (Nat.iter k (addSuspiciousActivity c) s)
  = isIPBlocked c s
    || ((0 <? Z.of_nat k)
        && (11 <=? getSuspiciousActivityCount c s + Z.of_nat k)) /\
  (forall c', c' <> c ->
     getSuspiciousActivityCount c' (Nat.iter k (addSuspiciousActivity c) s)
     = getSuspiciousActivityCount c' s /\
     isIPBlocked c' (Nat.iter k (addSuspiciousActivity c) s)
     = isIPBlocked c' s).
Proof.
  induction k as [| k (IHc & IHb & IHo)].
  { simpl. rewrite Z.add_0_r, orb_false_r. done. }
  change (Nat.iter (S k) (addSuspiciousActivity c) s)
    with (addSuspiciousActivity c (Nat.iter k (addSuspiciousActivity c) s)).
  destruct (addSuspiciousActivity_spec c (Nat.iter k (addSuspiciousActivity c) s))
    as (Hc & Hb & Ho).
  split; [rewrite Hc, IHc; lia |]. split.
  - rewrite Hb, IHb, IHc.
    destruct (isIPBlocked c s); [done |]. simpl.
    destruct (Z.ltb_spec 0 (Z.of_nat k)),
             (Z.leb_spec 11 (getSuspiciousActivityCount c s + Z.of_nat k)),
             (Z.leb_spec 10 (getSuspiciousActivityCount c s + Z.of_nat k)),
             (Z.ltb_spec 0 (Z.of_nat (S k))),
             (Z.leb_spec 11 (getSuspiciousActivityCount c s + Z.of_nat (S k)));
      simpl; try done; lia.
  - intros c' Hne. destruct (Ho c' Hne) as [-> ->]. by apply IHo.
Qed.

Lemma checkRateLimit_suspicion c m w now s :
  getSuspiciousActivityCount c (checkRateLimit c m w now s).2
  = getSuspiciousActivityCount c s
    + (if (checkRateLimit c m w now s).1 then 0 else 1) /\
  isIPBlocked c (checkRateLimit c m w now s).2
  = isIPBlocked c s
    || (negb (checkRateLimit c m w now s).1
        && (10 <=? getSuspiciousActivityCount c s)) /\
  (forall c', c' <> c ->
     getSuspiciousActivityCount c' (checkRateLimit c m w now s).2
     = getSuspiciousActivityCount c' s /\
     isIPBlocked c' (checkRateLimit c m w now s).2 = isIPBlocked c' s).
Proof.
  unfold checkRateLimit.
  destruct (w <? now - getOr0 (lastRequestTime s) c); simpl.
  { rewrite Z.add_0_r, orb_false_r. done. }
  destruct (m <=? getOr0 (requestCount s) c); simpl.
  - apply (addSuspiciousActivity_spec c
      (mk (<[c := getOr0 (requestCount s) c + 1]> (requestCount s))
          (<[c := now]> (lastRequestTime s)) (blockedIPs s)
          (suspiciousActivities s))).
  - rewrite Z.add_0_r, orb_false_r. done.
Qed.

(** X15.  Every refusal of the rate limiter counts as one suspicious
    activity of the caller, and nothing else does: after any series of calls
    of a client, its count has grown by the number of refusals, and it is on
    the block list exactly when it was there before or a refusal has brought
    the count to eleven.  The refusals of all windows add up: the count is
    never lowered. *)
Theorem refusals_count_as_suspicious c m w : forall times s,
  getSuspiciousActivityCount c (checkAll c m w times s).2
  = getSuspiciousActivityCount c s + refusals (checkAll c m w times s).1 /\
  isIPBlocked c (checkAll c m w times s).2
  = isIPBlocked c s
    || ((0 <? refusals (checkAll c m w times s).1)
        && (11 <=? getSuspiciousActivityCount c s
                   + refusals (checkAll c m w times s).1)).
Proof.
  induction times as [| now rest IH]; intros s.
  { simpl. unfold refusals. simpl. by rewrite Z.add_0_r, orb_false_r. }
  simpl.
  destruct (checkRateLimit_suspicion c m w now s) as (Hc & Hb & _).
  destruct (checkRateLimit c m w now s) as [r s1]; simpl in *.
  specialize (IH s1).
  destruct (checkAll c m w rest s1) as [rs s2]; simpl in *.
  destruct IH as (IHc & IHb).
  assert (0 <= refusals rs) as Hpos by (unfold refusals; lia).
  assert (refusals (r :: rs) = refusals rs + (if r then 0 else 1)) as Hr.
  { unfold refusals. destruct r; simpl; lia. }
  rewrite IHc, IHb, Hb, Hc, Hr. split; [lia |].
  destruct (isIPBlocked c s); [done |]. simpl.
  destruct r; simpl.
  - by rewrite !Z.add_0_r.
  - destruct (Z.leb_spec 10 (getSuspiciousActivityCount c s)),
             (Z.ltb_spec 0 (refusals rs)),
             (Z.leb_spec 11 (getSuspiciousActivityCount c s + 1 + refusals rs)),
             (Z.ltb_spec 0 (refusals rs + 1)),
             (Z.leb_spec 11 (getSuspiciousActivityCount c s + (refusals rs + 1)));
      simpl; try done; lia.
Qed.

(** X16.  The block list does not stop anybody: the answer of the rate
    limiter to a call is the same whether or not the caller, or anybody
    else, is on the list; and blocking then unblocking an address that was
    not blocked gives the state back. *)
Theorem block_list_is_not_consulted c m w now ip s :
  (checkRateLimit c m w now (blockIP ip s)).1 = (checkRateLimit c m w now s).1 /\
  (checkRateLimit c m w now (unblockIP ip s)).1
  = (checkRateLimit c m w now s).1 /\
  isIPBlocked ip (blockIP ip s) = true /\
  isIPBlocked ip (unblockIP ip s) = false /\
  (isIPBlocked ip s = false -> unblockIP ip (blockIP ip s) = s).
Proof.
  split; [by apply checkRateLimit_answer |].
  split; [by apply checkRateLimit_answer |].
  unfold isIPBlocked, blockIP, unblockIP. simpl.
  split; [apply bool_decide_eq_true_2; set_solver |].
  split; [apply bool_decide_eq_false_2; set_solver |].
  intros Hno%bool_decide_eq_false. destruct s as [rc lt bl sa]. simpl in *.
  f_equal. set_solver.
Qed.

(** *** The statistics *)

Lemma sumOfCounts_fresh (m : gmap string Z) k v :
  m !! k = None -> sumOfCounts (<[k := v]> m) = sumOfCounts m + v.
Proof.
  intros Hk. unfold sumOfCounts.
  rewrite map_fold_insert_L; [done | | done].
  intros. lia.
Qed.

Lemma sumOfCounts_insert (m : gmap string Z) k v :
  sumOfCounts (<[k := v]> m) = sumOfCounts m - getOr0 m k + v.
Proof.
  unfold getOr0. destruct (m !! k) as [x |] eqn:Hk; simpl.
  - rewrite <- (insert_delete_id m k x Hk) at 2.
    rewrite <- insert_delete_eq.
    rewrite !sumOfCounts_fresh by apply lookup_delete_eq. lia.
  - rewrite sumOfCounts_fresh by done. lia.
Qed.

(** X17.  [totalRequests] of the statistics is the sum of the counts of the
    windows that are open, not the number of requests seen: a call inside
    the caller's window adds one to it, while a call that opens a new window
    replaces what the caller had contributed by one.  The statistic of
    suspicious activities grows by one with each refusal; after [reset]
    every statistic is zero. *)
Theorem stats_follow_calls c m w now s :
  SecurityStats.totalRequests (getSecurityStats (checkRateLimit c m w now s).2)
  = SecurityStats.totalRequests (getSecurityStats s)
    + (if w <? now - getOr0 (lastRequestTime s) c
       then 1 - getOr0 (requestCount s) c else 1) /\
  SecurityStats.suspiciousActivities
    (getSecurityStats (checkRateLimit c m w now s).2)
  = SecurityStats.suspiciousActivities (getSecurityStats s)
    + (if (checkRateLimit c m w now s).1 then 0 else 1) /\
  getSecurityStats reset = SecurityStats.mk 0 0 0 0.
Proof.
  split; [| split; [| done]].
  - unfold checkRateLimit, getSecurityStats.
    destruct (w <? now - getOr0 (lastRequestTime s) c); simpl.
    { rewrite sumOfCounts_insert. lia. }
    destruct (m <=? getOr0 (requestCount s) c); simpl;
      rewrite ?(proj1 (addSuspiciousActivity_counts _ _)); simpl;
      rewrite sumOfCounts_insert; lia.
  - unfold checkRateLimit, getSecurityStats.
    destruct (w <? now - getOr0 (lastRequestTime s) c); simpl; [lia |].
    destruct (m <=? getOr0 (requestCount s) c); simpl; [| lia].
    unfold addSuspiciousActivity, blockIP. simpl.
    destruct (10 <=? getOr0 (suspiciousActivities s) c); simpl;
      rewrite sumOfCounts_insert; lia.
Qed.

End BlockListFacts.

(* ===================================================================== *)
(** ** The average execution time                                         *)
(* ===================================================================== *)

Module AverageFacts.
Import Controller SocketController.

Lemma in_upFrom n : forall z t, z <= t < z + Z.of_nat n -> In t (upFrom z n).
Proof.
  induction n as [| n IH]; intros z t H; [lia |].
  destruct (Z.eq_dec z t) as [-> | Hne]; [by left |].
  right. apply IH. lia.
Qed.

Lemma halfTooMuch_upto_minute :
  forallb halfTooMuch (upFrom 1 (Z.to_nat 60000)) = true.
Proof. vm_compute. reflexivity. Qed.

(** The update reads the statistics only. *)
Lemma average_of_counted t s :
  ConnectionStats.averageExecutionTime
    (connectionStats (updateAverageExecutionTime t (incTotalCommands s)))
  = PrimFloat.div
      (PrimFloat.add
         (PrimFloat.mul (ConnectionStats.averageExecutionTime (connectionStats s))
            (numberOfZ (ConnectionStats.totalCommands (connectionStats s) + 1)))
         (numberOfZ t))
      (numberOfZ (ConnectionStats.totalCommands (connectionStats s) + 1)) /\
  ConnectionStats.totalCommands
    (connectionStats (updateAverageExecutionTime t (incTotalCommands s)))
  = ConnectionStats.totalCommands (connectionStats s) + 1.
Proof. done. Qed.

(** X18.  [averageExecutionTime] is not the mean of the execution times.  On
    statistics that have counted no command yet, after a first command that
    took [t] ms the value is [t]; after a second command that took [t] ms
    too it is [3 t / 2], not [t]: the update multiplies the old value by the
    number of commands that already includes the new one.  The numbers are
    binary64 as in the source, compared as [===] compares them; [t] is any
    whole number of milliseconds from 1 to 60000. *)
Theorem average_is_not_the_mean (t : Z) (s : Controller.t) :
  1 <= t <= 60000 ->
  ConnectionStats.totalCommands (connectionStats s) = 0 ->
  ConnectionStats.averageExecutionTime (connectionStats s) = PrimFloat.zero ->
  PrimFloat.eqb
    (ConnectionStats.averageExecutionTime (connectionStats
       (updateAverageExecutionTime t (incTotalCommands s))))
    (numberOfZ t) = true /\
  PrimFloat.eqb
    (ConnectionStats.averageExecutionTime (connectionStats
       (updateAverageExecutionTime t
          (incTotalCommands
             (updateAverageExecutionTime t (incTotalCommands s))))))
    (PrimFloat.div (numberOfZ (3 * t)) PrimFloat.two) = true /\
  PrimFloat.eqb
    (ConnectionStats.averageExecutionTime (connectionStats
       (updateAverageExecutionTime t
          (incTotalCommands
             (updateAverageExecutionTime t (incTotalCommands s))))))
    (numberOfZ t) = false.
Proof.
  intros Ht Hcount Havg.
  pose proof halfTooMuch_upto_minute as H. rewrite forallb_forall in H.
  specialize (H t). unfold halfTooMuch, averagesOfTwo in H.
  destruct (average_of_counted t s) as [H1 C1].
  destruct (average_of_counted t
              (updateAverageExecutionTime t (incTotalCommands s)))
    as [H2 _].
  rewrite H2, C1, H1, Hcount, Havg.
  destruct (average_of_counted t (init 0 0)) as [I1 D1].
  destruct (average_of_counted t
              (updateAverageExecutionTime t (incTotalCommands (init 0 0))))
    as [I2 _].
  cbn [fst snd] in H. rewrite I2, D1, I1 in H.
  change (ConnectionStats.totalCommands (connectionStats (init 0 0))) with 0 in H.
  change (ConnectionStats.averageExecutionTime (connectionStats (init 0 0)))
    with PrimFloat.zero in H.
  assert (In t (upFrom 1 (Z.to_nat 60000))) as Hin by (apply in_upFrom; lia).
  apply H in Hin.
  apply andb_true_iff in Hin as [Hin Hnot].
  apply andb_true_iff in Hin as [Hfirst Hsecond].
  apply negb_true_iff in Hnot. done.
Qed.

(** Two commands of 100 ms each: the "average" is 150 ms. *)
Lemma average_is_not_the_mean_witness :
  PrimFloat.eqb
    (ConnectionStats.averageExecutionTime
       (connectionStats
          (updateAverageExecutionTime 100
             (incTotalCommands
                (updateAverageExecutionTime 100
                   (incTotalCommands (init 1800000 1000)))))))
    (numberOfZ 150) = true.
Proof.
  destruct (average_is_not_the_mean 100 (init 1800000 1000))
    as (_ & Hsecond & _).
  - lia.
  - reflexivity.
  - reflexivity.
  - exact Hsecond.
Defined.

End AverageFacts.

(* ===================================================================== *)
(** ** No handler lets an exception out                                   *)
(* ===================================================================== *)

Module TotalityFacts.
Import Controller SocketController ProcFacts.

Lemma allPaths_any {R} (p : proc R) : allPaths p (fun _ _ => True).
Proof.
  assert (H : forall Q : list Obs -> R + thrown -> Prop,
            (forall tr r, Q tr r) -> allPaths p Q).
  { induction p as [r | e | k IH | s k IH | e k IH | A c k IH | A c k IH];
      intros Q HQ; simpl; auto. }
  by apply H.
Qed.

(** A [try] whose [catch] block cannot throw. *)
Lemma allPaths_caught (p : proc unit) (h : thrown -> proc unit) :
  (forall e, allPaths (h e) (fun _ r => r = inl tt)) ->
  allPaths (tryCatch p h) (fun _ r => r = inl tt).
Proof.
  intros Hh. apply allPaths_tryCatch.
  eapply allPaths_mono; [| apply allPaths_any].
  intros tr [[] | e] _; [done |].
  eapply allPaths_mono; [| apply Hh]. done.
Qed.

Lemma sweeps_never_fail (l : list string) :
  allPaths (foldr (fun instanceId rest => sweepBrowser instanceId ;; rest)%proc
              (Ret tt) l)
    (fun _ r => r = inl tt).
Proof.
  induction l as [| x l IH]; [done |].
  cbn [foldr]. apply allPaths_bind. unfold sweepBrowser. simpl. intros s.
  destruct (getBrowser s x) as [b |]; simpl.
  - destruct (30 * 60 * 1000 <? clock s - BrowserInstanceState.lastActivity b);
      simpl; [intros ? |]; (eapply allPaths_mono; [| apply IH]); done.
  - eapply allPaths_mono; [| apply IH]. done.
Qed.

(** X19.  The handlers of a connection, of a screenshot request, of a reset
    and of a disconnection, and the sweep of the browser instances let no
    exception out, whatever their collaborators answer and whatever happens
    to the controller while they wait: they all end normally.  So does the
    handler of a request that came with a payload object; one that came
    with none ends with the [TypeError] of its [catch] block. *)
Theorem handlers_end_normally (env : Env) (intf : Interference) (w : World.t) :
  (forall sessionId socketId clientIp,
     Run.result (run env intf (handleConnection sessionId socketId clientIp) w)
     = inl tt) /\
  (forall sessionId executionId (data : CommandData.t),
     Run.result (run env intf
       (handleExecuteCommand sessionId executionId (Some data)) w)
     = inl tt) /\
  (forall sessionId executionId,
     Run.result (run env intf
       (handleExecuteCommand sessionId executionId None) w)
     = inr typeError) /\
  (forall sessionId,
     Run.result (run env intf (handleGetScreenshot sessionId) w) = inl tt) /\
  (forall sessionId,
     Run.result (run env intf (handleResetBrowser sessionId) w) = inl tt) /\
  (forall sessionId reason,
     Run.result (run env intf (handleDisconnection sessionId reason) w)
     = inl tt) /\
  Run.result (run env intf cleanupOldBrowserInstances w) = inl tt.
Proof.
  split; [| split; [| split]].
  4: repeat split; intros.
  all: intros.
  3: { apply (run_allPaths env intf _ (fun _ r => r = inr typeError)).
       eapply allPaths_mono;
         [| apply ExecuteFacts.handleExecuteCommand_no_payload].
       by intros tr r [_ ->]. }
  all: apply (run_allPaths env intf _ (fun _ r => r = inl tt)).
  - by apply allPaths_caught.
  - eapply allPaths_mono; [| apply ExecuteFacts.handleExecuteCommand_paths].
    by intros tr r [-> _].
  - by apply allPaths_caught.
  - by apply allPaths_caught.
  - by apply allPaths_caught.
  - unfold cleanupOldBrowserInstances. simpl. intros s.
    apply sweeps_never_fail.
Qed.

End TotalityFacts.

(* ===================================================================== *)
(** ** The queue entry of a request, and the validation of its input      *)
(* ===================================================================== *)

Module QueueFacts.
Import Controller SocketController.

(** The last thing a [try ... finally { modify f }] does is [f]. *)
Lemma run_finally_modify env intf {R} (p : proc R) (f : t -> t) :
  forall w, exists s1,
    Run.final (run env intf (tryFinally p (modify f)) w) = f s1.
Proof.
  induction p as [r | e | k IH | s k IH | e k IH | A c k IH | A c k IH];
    intros w; simpl; eauto.
Qed.

(** X20.  When the handler of a request ends, the identifier of its
    execution is not in the queue, whatever the collaborators answered and
    whatever other handlers did to the controller while it waited. *)
Theorem request_leaves_queue (env : Env) (intf : Interference) sessionId
    executionId (data : option CommandData.t) w :
  (executionId
     ∉ executionQueue
         (Run.final (run env intf
            (handleExecuteCommand sessionId executionId data) w))) /\
  getExecution
    (Run.final (run env intf
       (handleExecuteCommand sessionId executionId data) w))
    executionId = None.
Proof.
  assert (Hout : executionId
    ∉ executionQueue
        (Run.final (run env intf
           (handleExecuteCommand sessionId executionId data) w))).
  { unfold handleExecuteCommand. cbn [run bind get].
    match goal with
    | |- context [run env intf (tryFinally ?p (modify ?f)) ?w0] =>
        destruct (run_finally_modify env intf p f w0) as [s1 ->]
    end.
    simpl. set_solver. }
  split; [exact Hout |]. unfold getExecution, mapGet. by rewrite decide_False.
Qed.

Lemma utf16Length_le_bytes (s : string) :
  (utf16Length s <= 2 * String.length s)%nat.
Proof.
  induction s as [| a s IH]; [done |]. cbn [utf16Length String.length].
  repeat case_match; lia.
Qed.

(** A euro sign is three bytes and one UTF-16 code unit, a character outside
    the basic plane is four bytes and two code units. *)
Example utf16Length_examples :
  utf16Length "abc" = 3%nat /\
  utf16Length (String (Ascii.ascii_of_nat 226) (String (Ascii.ascii_of_nat 130)
                 (String (Ascii.ascii_of_nat 172) ""))) = 1%nat /\
  utf16Length (String (Ascii.ascii_of_nat 240) (String (Ascii.ascii_of_nat 159)
                 (String (Ascii.ascii_of_nat 152) (String (Ascii.ascii_of_nat 128)
                    "")))) = 2%nat.
Proof. by vm_compute. Qed.

(** X21.  The input of a request is valid exactly when it is a string, not
    empty, of at most 1000 UTF-16 code units ([userInput.length]), and the
    security check answers that it is safe.  The validation never throws (a
    failing check makes the input invalid) and gives a reason with every
    rejection.  An input that is no string, is empty or is too long is
    rejected without asking the security check; for any other input the
    check is asked once, about that input. *)
Theorem validation_accepts_exactly (env : Env) (intf : Interference)
    (userInput : option string) w :
  exists valid reason,
    Run.result (run env intf (validateCommandInput userInput) w)
    = inl (valid, reason) /\
    (valid = true <->
     exists text,
       userInput = Some text /\ text <> "" /\
       Z.of_nat (utf16Length text) <= 1000 /\
       exists check,
         env _ (checkSuspiciousContent text) (World.calls w SSuspicious)
         = inl check /\
         SecurityCheck.safe check = true) /\
    (valid = false -> exists message, reason = Some message) /\
    match userInput with
    | None => Run.obs (run env intf (validateCommandInput userInput) w) = []
    | Some text =>
        if decide (text = "" \/ 1000 < Z.of_nat (utf16Length text)) then
          Run.obs (run env intf (validateCommandInput userInput) w) = []
        else
          Run.obs (run env intf (validateCommandInput userInput) w)
          = [OCall (checkSuspiciousContent text);
             OAnswer (checkSuspiciousContent text)
               (env _ (checkSuspiciousContent text)
                  (World.calls w SSuspicious))]
    end.
Proof.
  unfold validateCommandInput.
  destruct userInput as [[| a rest] |].
  1, 3: simpl; eexists _, _; (split; [done |]); split;
    [split; [done | by intros (? & [= <-] & ? & _)] | split; [eauto |]];
    try done; by rewrite decide_True; [| left].
  assert (Hne : String a rest <> "") by done.
  cbv iota. revert Hne. generalize (String a rest). intros text Hne.
  destruct (Z.ltb_spec 1000 (Z.of_nat (utf16Length text))) as [Hlong | Hshort];
    simpl.
  { eexists _, _. split; [done |]. split; [| split; [eauto |]].
    - split; [done |]. intros (? & [= <-] & _ & ? & _). lia.
    - rewrite decide_True; [done | by right]. }
  rewrite decide_False by (intros [? | ?]; [done | lia]).
  destruct (env _ (checkSuspiciousContent text) (World.calls w SSuspicious))
    as [check | e] eqn:Henv; simpl.
  - destruct (SecurityCheck.safe check) eqn:Hsafe; simpl.
    + eexists _, _. split; [done |]. split; [| split; [done |]].
      * split; [| done]. intros _. exists text.
        split; [done |]. split; [done |]. split; [lia |]. by exists check.
      * done.
    + eexists _, _. split; [done |]. split; [| split; [eauto |]].
      * split; [done |].
        intros (? & [= <-] & _ & _ & check' & Hc' & Hc).
        rewrite Henv in Hc'. congruence.
      * done.
  - eexists _, _. split; [done |]. split; [| split; [eauto |]].
    + split; [done |]. intros (? & [= <-] & _ & _ & check' & Hc' & _).
      rewrite Henv in Hc'. done.
    + done.
Qed.

End QueueFacts.

(* ===================================================================== *)
(** ** The percentage in floating point                                   *)
(* ===================================================================== *)

Module NumberFacts.
Import SocketController.

Lemma agree_upto_300 : forallb agree (seq 1 300) = true.
Proof. vm_compute. reflexivity. Qed.

(** X22.  For every batch of at most 300 commands, the percentage that the
    source computes in binary64 floating point,
    [Math.round(((i + 1) / n) * 80) + 20], is the value of the exact
    formula [progressOf] that the model of the loop uses. *)
Theorem progress_number_exact (i n : nat) :
  (i < n)%nat -> (n <= 300)%nat -> progressNumber i n = progressOf i n.
Proof.
  intros Hi Hn.
  pose proof agree_upto_300 as H. rewrite forallb_forall in H.
  specialize (H n). unfold agree in H. rewrite forallb_forall in H.
  apply Z.eqb_eq. apply H; apply in_seq; lia.
Qed.

Lemma progress_number_exact_witness :
  progressNumber 1 3 = 73 /\ progressOf 1 3 = 73.
Proof.
  assert (progressNumber 1 3 = progressOf 1 3) as H.
  { apply progress_number_exact; lia. }
  split; [rewrite H |]; vm_compute; reflexivity.
Defined.

End NumberFacts.
